(** * CheckLeakAutoVar: allocation-state tracking of local variables

    A shallow embedding of [lib/checkleakautovar.cpp].  The token graph is
    read-only input of the checker, so a token is modelled by a record of the
    facts the checker asks of it; the analysis state [VarInfo] is a value made
    of finite maps and finite sets keyed by variable id; the error logger is
    an explicit list of diagnostics threaded through every function. *)

From Stdlib Require Import ZArith String List Bool Lia.
From stdpp Require Import base option list gmap fin_maps fin_sets sorting.

#[local] Set Warnings "-register-all".

Local Open Scope Z_scope.

(** ** Tokens *)

(** A token as the checker sees it: [tokId] stands for the pointer identity,
    [varId] is 0 for a token that is not a variable, [prevIsAddressOf] is
    [arg->strAt(-1) == "&"], and [astTopIsReturn] is
    [Token::simpleMatch(tok->astTop(), "return")]. *)
Record Token := mkToken {
  tokId : nat;
  str : string;
  varId : Z;
  prevIsAddressOf : bool;
  astTopIsReturn : bool
}.

(** ** The analysis state *)

Module VarInfo.

(** Modelled from the spec: the header checkleakautovar.h, which declares
    [VarInfo], is not among the sources.  The five statuses are those of the
    data model; their integer values order them so that the managed ones
    (Deallocated, Reallocated, ExternallyOwned) are the negative ones. *)
Inductive AllocStatus := REALLOC | OWNED | DEALLOC | NOALLOC | ALLOC.

Definition status_value (s : AllocStatus) : Z :=
  match s with
  | REALLOC => -3
  | OWNED => -2
  | DEALLOC => -1
  | NOALLOC => 0
  | ALLOC => 1
  end.

#[global] Instance AllocStatus_eq_dec : EqDecision AllocStatus.
Proof. solve_decision. Defined.

(** Modelled from the spec: the allocation-state record of the data model
    (family, status, origin token, optional back-reference to the variable
    it was reallocated from; -1 when there is none).  [allocTok] is [None]
    for a null pointer. *)
Record AllocInfo := mkAllocInfo {
  status : AllocStatus;
  type : Z;
  reallocedFromType : Z;
  allocTok : option Token
}.

(** [AllocInfo(type_ = 0, status_ = NOALLOC, allocTok_ = nullptr)]. *)
Definition newAllocInfo (type_ : Z) (status_ : AllocStatus) (allocTok_ : option Token) : AllocInfo :=
  mkAllocInfo status_ type_ (-1) allocTok_.

Definition defaultAllocInfo : AllocInfo := newAllocInfo 0 NOALLOC None.

(** Modelled from the spec: a record is managed when its status is other
    than Unallocated/Allocated. *)
Definition managed (a : AllocInfo) : bool := status_value (status a) <? 0.

Definition set_status (s : AllocStatus) (a : AllocInfo) : AllocInfo :=
  mkAllocInfo s (type a) (reallocedFromType a) (allocTok a).

Definition set_type (t : Z) (a : AllocInfo) : AllocInfo :=
  mkAllocInfo (status a) t (reallocedFromType a) (allocTok a).

Definition set_allocTok (t : option Token) (a : AllocInfo) : AllocInfo :=
  mkAllocInfo (status a) (type a) (reallocedFromType a) t.

Definition set_reallocedFromType (v : Z) (a : AllocInfo) : AllocInfo :=
  mkAllocInfo (status a) (type a) v (allocTok a).

Inductive Usage := USED | NORET.

(** The four components of the analysis state. *)
Record t := mk {
  alloctype : gmap Z AllocInfo;
  possibleUsage : gmap Z (option Token * Usage);
  conditionalAlloc : gset Z;
  referenced : gset Z
}.

Definition empty : t := mk ∅ ∅ ∅ ∅.

(** Modelled from the spec: [clear] discards all tracked state. *)
Definition clear (vi : t) : t := empty.

(** Modelled from the spec: [erase] removes the tracking of one variable
    from every component. *)
Definition erase (varid : Z) (vi : t) : t :=
  mk (delete varid (alloctype vi)) (delete varid (possibleUsage vi))
     (conditionalAlloc vi ∖ {[varid]}) (referenced vi ∖ {[varid]}).

Definition with_alloctype (m : gmap Z AllocInfo) (vi : t) : t :=
  mk m (possibleUsage vi) (conditionalAlloc vi) (referenced vi).

Definition with_possibleUsage (m : gmap Z (option Token * Usage)) (vi : t) : t :=
  mk (alloctype vi) m (conditionalAlloc vi) (referenced vi).

Definition with_conditionalAlloc (s : gset Z) (vi : t) : t :=
  mk (alloctype vi) (possibleUsage vi) s (referenced vi).

(** [std::map::operator[]]: the record at [k], default-constructed and
    inserted when there is none. *)
Definition at_ (k : Z) (m : gmap Z AllocInfo) : AllocInfo :=
  default defaultAllocInfo (m !! k).

Definition touch (k : Z) (m : gmap Z AllocInfo) : gmap Z AllocInfo :=
  <[k := at_ k m]> m.

(** Modelled from the spec: [reallocToAlloc] undoes a reallocation.  The
    record of [varid] is looked up with [operator[]]; when it carries a
    back-reference to the variable it was reallocated from and that
    variable's record is Reallocated, that record goes back to Allocated. *)
Definition reallocToAlloc (varid : Z) (vi : t) : t :=
  let m := touch varid (alloctype vi) in
  let from := reallocedFromType (at_ varid m) in
  if 0 <=? from then
    match m !! from with
    | Some a =>
        if decide (status a = REALLOC)
        then with_alloctype (<[from := set_status ALLOC a]> m) vi
        else with_alloctype m vi
    | None => with_alloctype m vi
    end
  else with_alloctype m vi.

(** Whether [reallocToAlloc varid] turns the record [a] of the variable
    [k] back to Allocated. *)
Definition undone (varid : Z) (vi : t) (k : Z) (a : AllocInfo) : bool :=
  bool_decide (k = reallocedFromType (at_ varid (alloctype vi)))
  && (0 <=? k) && bool_decide (status a = REALLOC).

(** [VarInfo::possibleUsageAll], lines 105-110. *)
Definition possibleUsageAll (functionUsage : option Token * Usage) (vi : t) : t :=
  with_possibleUsage ((fun _ => functionUsage) <$> alloctype vi) vi.

End VarInfo.

Import VarInfo.

(** ** Diagnostics *)

(** One constructor per reporting function of the checker, carrying the
    arguments of the call.  [LeakError] stands for both [memleakError] and
    [resourceLeakError], which [leakError] (lines 113-120) chooses between
    by the allocation family. *)
Inductive Diag :=
| LeakError (tok : option Token) (varname : string) (ty : Z)
| MismatchError (deallocTok allocTok : option Token) (varname : string)
| DeallocUseError (tok : option Token) (varname : string)
| DeallocReturnError (tok deallocTok : option Token) (varname : string)
| ConfigurationInfo (tok : option Token) (functionUsage : option Token * Usage)
| DoubleFreeError (tok prevFreeTok : option Token) (varname : string) (ty : Z).

Definition isLeak (d : Diag) : bool :=
  match d with LeakError _ _ _ => true | _ => false end.

Definition isDoubleFree (d : Diag) : bool :=
  match d with DoubleFreeError _ _ _ _ => true | _ => false end.

Definition isMismatch (d : Diag) : bool :=
  match d with MismatchError _ _ _ => true | _ => false end.

Definition count (p : Diag -> bool) (log : list Diag) : nat :=
  length (filter (fun d => p d = true) log).

(** ** Library metadata and settings *)

(** Hardcoded allocation types (not from library), lines 55-56. *)
Definition NEW_ARRAY : Z := -2.
Definition NEW : Z := -1.

(** [Library::AllocFunc]: the family, the argument position that receives
    the allocation (-1 for the return value) and the reallocated argument. *)
Record AllocFunc := mkAllocFunc {
  groupId : Z;
  arg : Z;
  reallocArg : Z
}.

(** What the checker reads from [mSettings] and from the token graph around
    a token: the library lookups, the argument tokens of a call, whether the
    called function has a body, whether a token names a variable
    ([tok->variable()]), and the variable that receives the return value of
    an out-parameter allocation ([getReturnValueFromOutparamAlloc], lines
    279-286, a walk over the syntax tree around the allocation token). *)
Record Env := mkEnv {
  checkLibrary : bool;
  getAllocFuncInfo : Token -> option AllocFunc;
  getDeallocFuncInfo : Token -> option AllocFunc;
  getReallocFuncInfo : Token -> option AllocFunc;
  getArguments : Token -> list Token;
  functionHasBody : Token -> bool;
  hasVariable : Token -> bool;
  getReturnValueFromOutparamAlloc : option Token -> option Token
}.

(** [numberOfArguments] counts the arguments that [getArguments] lists. *)
Definition numberOfArguments (env : Env) (ftok : Token) : Z :=
  Z.of_nat (length (getArguments env ftok)).

(** ** Reporting helpers *)

(** [configurationInfo], lines 141-153: the note is written only under
    --check-library, for a USED usage of a function without a body. *)
Definition configurationInfo (env : Env) (tok : option Token)
    (functionUsage : option Token * Usage) : list Diag :=
  if checkLibrary env
     && match functionUsage.2 with USED => true | NORET => false end
     && match functionUsage.1 with
        | None => true
        | Some f => negb (functionHasBody env f)
        end
  then [ConfigurationInfo tok functionUsage]
  else [].

(** [leakIfAllocated], lines 1135-1150. *)
Definition leakIfAllocated (env : Env) (vartok : Token) (vi : VarInfo.t) : list Diag :=
  match alloctype vi !! varId vartok with
  | Some var =>
      if decide (status var = ALLOC) then
        match possibleUsage vi !! varId vartok with
        | None => [LeakError (Some vartok) (str vartok) (type var)]
        | Some use => configurationInfo env (Some vartok) use
        end
      else []
  | None => []
  end.

(** ** State transitions *)

(** [allocation.allocTok && library.getAllocFuncInfo(allocation.allocTok)] *)
Definition isAlsoAllocating (env : Env) (allocation : AllocInfo) : bool :=
  match allocTok allocation with
  | Some t => bool_decide (is_Some (getAllocFuncInfo env t))
  | None => false
  end.

(** [changeAllocStatus], lines 959-994.  Returns the new state and the
    diagnostics written by the call. *)
Definition changeAllocStatus (env : Env) (vi : VarInfo.t) (allocation : AllocInfo)
    (tok arg_ : Token) : VarInfo.t * list Diag :=
  match alloctype vi !! varId arg_ with
  | Some var =>
      if isAlsoAllocating env allocation then
        (erase (varId arg_) vi, [])
      else if decide (status allocation = NOALLOC) then
        let vi' := with_possibleUsage
                     (<[varId arg_ := (Some tok, USED)]> (possibleUsage vi)) vi in
        if bool_decide (status var = DEALLOC) && prevIsAddressOf arg_
        then (erase (varId arg_) vi', [])
        else (vi', [])
      else if managed var then
        (with_alloctype
           (<[varId arg_ := set_status (status allocation) var]> (alloctype vi)) vi,
         [DoubleFreeError (Some tok) (allocTok var) (str arg_) (type allocation)])
      else if bool_decide (type var <> type allocation) && bool_decide (type var <> 0) then
        (erase (varId arg_) vi, [MismatchError (Some tok) (allocTok var) (str arg_)])
      else
        (with_alloctype
           (<[varId arg_ := set_allocTok (allocTok allocation)
                              (set_type (type allocation)
                                 (set_status (status allocation) var))]>
              (alloctype vi)) vi,
         [])
  | None =>
      if bool_decide (status allocation <> NOALLOC)
         && bool_decide (status allocation <> OWNED)
         && negb (astTopIsReturn tok)
      then
        let allocInfo := at_ (varId arg_) (alloctype vi) in
        (with_alloctype
           (<[varId arg_ := set_type (type allocation)
                              (set_allocTok (Some tok)
                                 (set_status DEALLOC allocInfo))]>
              (alloctype vi)) vi,
         [])
      else (vi, [])
  end.

(** [changeAllocStatusIfRealloc], lines 938-956, on the [alloctype] map.
    [getArguments(fTok).at(reallocArg - 1)] is in range under the guard. *)
Definition changeAllocStatusIfRealloc (env : Env) (m : gmap Z AllocInfo)
    (fTok retTok : Token) : gmap Z AllocInfo * list Diag :=
  match getReallocFuncInfo env fTok with
  | Some f =>
      if (arg f =? -1) && (0 <? reallocArg f) && (reallocArg f <=? numberOfArguments env fTok)
      then
        match getArguments env fTok !! Z.to_nat (reallocArg f - 1) with
        | Some argTok =>
            let '(m1, log) :=
              match m !! varId argTok with
              | Some argAlloc =>
                  (<[varId argTok := set_allocTok (Some fTok) (set_status REALLOC argAlloc)]> m,
                   if bool_decide (type argAlloc <> 0) && bool_decide (type argAlloc <> groupId f)
                   then [MismatchError (Some fTok) (allocTok argAlloc) (str argTok)]
                   else [])
              | None => (m, [])
              end in
            let retAlloc := at_ (varId retTok) m1 in
            (<[varId retTok := set_reallocedFromType (varId argTok)
                                 (set_allocTok (Some fTok)
                                    (set_status ALLOC
                                       (set_type (groupId f) retAlloc)))]> m1,
             log)
        | None => (m, [])
        end
      else (m, [])
  | None => (m, [])
  end.

(** ** The join after an if/else *)

Module Merge.

(** [dst.insert(src.cbegin(), src.cend())] of [std::map]: an element of
    [src] is inserted only when [dst] has no element with its key. *)
Definition insert_range {A} (src dst : gmap Z A) : gmap Z A :=
  map_fold (fun k a acc => match acc !! k with
                           | Some _ => acc
                           | None => <[k := a]> acc
                           end) dst src.

(** The loops below visit the elements of a map and touch, at each element,
    only the tracking of that element's key, so that the order of the visit
    does not matter; [map_fold] visits every element once. *)

(** Lines 637-646: a variable that was tracked and conditionally allocated
    before the [if] and is missing from one branch copy is erased from both. *)
Definition dropConditional (old : VarInfo.t) (vs : VarInfo.t * VarInfo.t)
    : VarInfo.t * VarInfo.t :=
  map_fold (fun varId_ _ '(v1, v2) =>
              if bool_decide (varId_ ∉ conditionalAlloc old) then (v1, v2)
              else if bool_decide (alloctype v1 !! varId_ = None)
                      || bool_decide (alloctype v2 !! varId_ = None)
                   then (erase varId_ v1, erase varId_ v2)
                   else (v1, v2))
           vs (alloctype old).

(** Whether the loop of lines 637-646 erases the key [k], for the part [m]
    of [old.alloctype] that it has visited. *)
Definition dropped (m : gmap Z AllocInfo) (conditionalAlloc_ : gset Z)
    (v1 v2 : VarInfo.t) (k : Z) : bool :=
  bool_decide (is_Some (m !! k)) && bool_decide (k ∈ conditionalAlloc_)
  && (bool_decide (alloctype v1 !! k = None) || bool_decide (alloctype v2 !! k = None)).

(** Lines 648-654 and 656-662: the keys of [mine] that neither [other] nor
    [old] has are inserted into [varInfo.conditionalAlloc]. *)
Definition markConditional (old mine other : VarInfo.t) (varInfo : VarInfo.t)
    : VarInfo.t :=
  map_fold (fun k _ acc =>
              if bool_decide (alloctype other !! k = None)
                 && bool_decide (alloctype old !! k = None)
              then with_conditionalAlloc ({[k]} ∪ conditionalAlloc acc) acc
              else acc)
           varInfo (alloctype mine).

(** Whether the loop of lines 665-676 acts at the key [k] of [m]. *)
Definition hit (conditionalAlloc_ : gset Z) (m : gmap Z AllocInfo) (k : Z) : bool :=
  match m !! k with
  | Some a => managed a && bool_decide (k ∈ conditionalAlloc_)
  | None => false
  end.

(** Lines 665-670 and 671-676: a key of [mine] whose record is managed and
    that was conditionally allocated when the scope was entered loses its
    conditional mark and is erased from the other copy. *)
Definition dropManaged (conditionalAlloc_ : gset Z) (mine : VarInfo.t)
    (st : VarInfo.t * VarInfo.t) : VarInfo.t * VarInfo.t :=
  map_fold (fun k a '(varInfo, other) =>
              if managed a && bool_decide (k ∈ conditionalAlloc_)
              then (with_conditionalAlloc (conditionalAlloc varInfo ∖ {[k]}) varInfo,
                    erase k other)
              else (varInfo, other))
           st (alloctype mine).

(** Lines 634-682.  [conditionalAlloc_] is the copy of the set taken when
    [checkScope] was entered (line 306), [old] the state before the [if]
    (swapped out of [varInfo], which is left empty), [varInfo1] and
    [varInfo2] the two branch copies after the branches were analysed.
    Returns the merged [varInfo] together with the final branch copies. *)
Definition mergeCopies (conditionalAlloc_ : gset Z) (old varInfo1 varInfo2 : VarInfo.t)
    : VarInfo.t * (VarInfo.t * VarInfo.t) :=
  let varInfo := VarInfo.empty in
  let '(varInfo1, varInfo2) := dropConditional old (varInfo1, varInfo2) in
  let varInfo := markConditional old varInfo1 varInfo2 varInfo in
  let varInfo := markConditional old varInfo2 varInfo1 varInfo in
  let '(varInfo, varInfo2) := dropManaged conditionalAlloc_ varInfo1 (varInfo, varInfo2) in
  let '(varInfo, varInfo1) := dropManaged conditionalAlloc_ varInfo2 (varInfo, varInfo1) in
  let varInfo := with_alloctype (insert_range (alloctype varInfo1) (alloctype varInfo)) varInfo in
  let varInfo := with_alloctype (insert_range (alloctype varInfo2) (alloctype varInfo)) varInfo in
  let varInfo := with_possibleUsage (insert_range (possibleUsage varInfo1) (possibleUsage varInfo)) varInfo in
  let varInfo := with_possibleUsage (insert_range (possibleUsage varInfo2) (possibleUsage varInfo)) varInfo in
  (varInfo, (varInfo1, varInfo2)).

Definition merge (conditionalAlloc_ : gset Z) (old varInfo1 varInfo2 : VarInfo.t) : VarInfo.t :=
  (mergeCopies conditionalAlloc_ old varInfo1 varInfo2).1.

End Merge.

(** ** Comparisons in the condition of an [if] *)

Module Condition.

Local Open Scope string_scope.

(** Lines 58-59. *)
Definition alloc_failed_conds : list (string * string) :=
  [("==", "0"); ("<", "0"); ("==", "-1"); ("<=", "-1")].
Definition alloc_success_conds : list (string * string) :=
  [("!=", "0"); (">", "0"); ("!=", "-1"); (">=", "0"); (">", "-1")].

(** A node of the condition's syntax tree that is neither a logical
    operator nor a call: its text, and, when it compares a variable with a
    literal, the literal's text and the variable token. *)
Record Node := mkNode {
  nodeStr : string;
  isComparisonOp : bool;
  rhsStr : string;
  lhsVar : option Token
}.

(** Modelled from the spec: [astIsVariableComparison] is declared in
    astutils.h, which is not among the sources.  It recognizes the
    comparison [var comp rhs] of a variable (non-zero variable id) with a
    literal and yields the variable token. *)
Definition astIsVariableComparison (tok : Node) (comp rhs : string) : option Token :=
  if isComparisonOp tok && bool_decide (nodeStr tok = comp) && bool_decide (rhsStr tok = rhs)
  then match lhsVar tok with
       | Some v => if bool_decide (varId v = 0%Z) then None else Some v
       | None => None
       end
  else None.

(** [isVarTokComparison], lines 94-101: [std::any_of] stops at the first
    pair of [ops] that matches and leaves its variable in [vartok]. *)
Fixpoint isVarTokComparison (tok : Node) (ops : list (string * string)) : option Token :=
  match ops with
  | [] => None
  | op :: ops' =>
      match astIsVariableComparison tok op.1 op.2 with
      | Some v => Some v
      | None => isVarTokComparison tok ops'
      end
  end.

(** The condition below the commas, as [visitAstNodes] walks it: a null
    operand, [&&]/[||] (both operands visited, first operand first), a
    [LIKELY]/[UNLIKELY] wrapper (second operand visited), a call
    [name ( params )], or any other node. *)
Inductive Cond :=
| CNull
| CLogical (op1 op2 : Cond)
| CLikely (op2 : Cond)
| CCall (params : list Node)
| CNode (tok3 : Node).

(** Lines 583-592: a comparison among the parameters of a call erases its
    variable from both copies. *)
Definition visitParam (par : Node) (vs : VarInfo.t * VarInfo.t) : VarInfo.t * VarInfo.t :=
  if negb (isComparisonOp par) then vs
  else
    match isVarTokComparison par alloc_success_conds with
    | Some vartok => (erase (varId vartok) vs.1, erase (varId vartok) vs.2)
    | None =>
        match isVarTokComparison par alloc_failed_conds with
        | Some vartok => (erase (varId vartok) vs.1, erase (varId vartok) vs.2)
        | None => vs
        end
    end.

(** Lines 604-609: some Allocated record of [varInfo1] comes from an
    out-parameter allocation whose return value is the compared variable. *)
Definition checkedOutparamAlloc (env : Env) (vartok : Token) (m : gmap Z AllocInfo) : bool :=
  map_fold (fun _ info acc =>
              acc || (bool_decide (status info = ALLOC)
                      && match getReturnValueFromOutparamAlloc env (allocTok info) with
                         | Some ret => negb (bool_decide (varId ret = 0%Z))
                                       && bool_decide (varId ret = varId vartok)
                         | None => false
                         end))
           false m.

(** Lines 600-602: the else-branch copy is cleared when the comparison is
    [!= 0] on a variable known to be non-zero. *)
Definition clearsElse (notzero : gset Z) (tok3 : Node) : bool :=
  match astIsVariableComparison tok3 "!=" "0" with
  | Some v => bool_decide (varId v ∈ notzero)
  | None => false
  end.

(** Lines 604-611: the if-branch copy is cleared when the comparison checks
    the return value of an out-parameter allocation.  The call of line 600
    stores its own result in [vartok]; line 608 tests that pointer against
    null before using it. *)
Definition clearsIf (env : Env) (tok3 : Node) (varInfo1 : VarInfo.t) : bool :=
  match astIsVariableComparison tok3 "!=" "0" with
  | Some v => checkedOutparamAlloc env v (alloctype varInfo1)
  | None => false
  end.

(** Lines 596-616, the visit of a node that is not a logical operator, a
    wrapper or a call. *)
Definition visitNode (env : Env) (notzero : gset Z) (tok3 : Node)
    (vs : VarInfo.t * VarInfo.t) : VarInfo.t * VarInfo.t :=
  let '(varInfo1, varInfo2) := vs in
  match isVarTokComparison tok3 alloc_success_conds with
  | Some vartok =>
      let varInfo2 := reallocToAlloc (varId vartok) varInfo2 in
      let varInfo2 := erase (varId vartok) varInfo2 in
      let varInfo2 := if clearsElse notzero tok3 then clear varInfo2 else varInfo2 in
      let varInfo1 := if clearsIf env tok3 varInfo1 then clear varInfo1 else varInfo1 in
      (varInfo1, varInfo2)
  | None =>
      match isVarTokComparison tok3 alloc_failed_conds with
      | Some vartok =>
          let varInfo1 := reallocToAlloc (varId vartok) varInfo1 in
          let varInfo1 := erase (varId vartok) varInfo1 in
          (varInfo1, varInfo2)
      | None => (varInfo1, varInfo2)
      end
  end.

(** Lines 571-617: the recursive scan of the comparisons in the condition. *)
Fixpoint visit (env : Env) (notzero : gset Z) (c : Cond)
    (vs : VarInfo.t * VarInfo.t) : VarInfo.t * VarInfo.t :=
  match c with
  | CNull => vs
  | CLogical op1 op2 => visit env notzero op2 (visit env notzero op1 vs)
  | CLikely op2 => visit env notzero op2 vs
  | CCall params => foldl (fun acc par => visitParam par acc) vs params
  | CNode tok3 => visitNode env notzero tok3 vs
  end.

(** The nodes of the condition that the scan hands to lines 596-616: those
    below [&&], [||] and the wrappers that are not calls. *)
Fixpoint nodes (c : Cond) : list Node :=
  match c with
  | CNull => []
  | CLogical op1 op2 => nodes op1 ++ nodes op2
  | CLikely op2 => nodes op2
  | CCall _ => []
  | CNode tok3 => [tok3]
  end.

End Condition.

(** ** Reporting at a return and at the end of a scope *)

Inductive PtrUsage := NONE | DEREF | PTR.

#[global] Instance PtrUsage_eq_dec : EqDecision PtrUsage.
Proof. solve_decision. Defined.

(** What [ret] reads about the statement it is called at, for each variable
    id: the variable of the symbol database (none for an unknown id), with
    its name, whether it is a reference and whether the token ends its
    scope; how the statement uses the pointer (the scan of lines 1174-1203);
    and whether the return follows the check of an out-parameter allocation
    (lines 1205-1233). *)
Record Var := mkVar {
  name : string;
  isReference : bool;
  tokIsScopeEnd : bool
}.

Record RetSite := mkRetSite {
  retTok : Token;
  getVariableFromVarId : Z -> option Var;
  used : Z -> PtrUsage;
  afterOutparamCheck : Z -> bool
}.

Definition key_le {A} (x y : Z * A) : Prop := x.1 <= y.1.

#[global] Instance key_le_dec {A} : RelDecision (@key_le A).
Proof. intros x y. unfold key_le. apply _. Defined.

(** The elements of a map in ascending order of their keys, the order in
    which a [std::map] is iterated. *)
Definition ascending {A} (m : gmap Z A) : list (Z * A) :=
  merge_sort key_le (map_to_list m).

(** One turn of the loop of lines 1159-1249: the diagnostics written for
    the record and whether its id is pushed on [toRemove]. *)
Definition retOne (env : Env) (site : RetSite) (isEndOfScope : bool) (vi : VarInfo.t)
    (varid : Z) (info : AllocInfo) : list Diag * bool :=
  if negb isEndOfScope && negb (managed info) && bool_decide (varid ∈ conditionalAlloc vi)
  then ([], false)
  else if bool_decide (varid ∈ referenced vi) then ([], false)
  else
    match getVariableFromVarId site varid with
    | None => ([], false)
    | Some var =>
        if isEndOfScope && negb (tokIsScopeEnd var) then ([], false)
        else if afterOutparamCheck site varid then ([], false)
        else
          let log :=
            if negb (bool_decide (used site varid = NONE)) && bool_decide (status info = DEALLOC)
            then [DeallocReturnError (Some (retTok site)) (allocTok info) (name var)]
            else if negb (bool_decide (used site varid = PTR)) && negb (managed info)
                    && negb (isReference var)
            then match possibleUsage vi !! varid with
                 | None => [LeakError (Some (retTok site)) (name var) (type info)]
                 | Some use =>
                     if match use.1 with
                        | Some f => negb (hasVariable env f)
                        | None => true
                        end
                     then configurationInfo env (Some (retTok site)) use
                     else []
                 end
            else [] in
          (log, true)
    end.

(** [ret], lines 1152-1252.  The loop reads the state without changing it;
    the ids collected in [toRemove] are erased at the end. *)
Definition ret (env : Env) (site : RetSite) (isEndOfScope : bool) (vi : VarInfo.t)
    : VarInfo.t * list Diag :=
  let turns := map (fun '(varid, info) => (varid, retOne env site isEndOfScope vi varid info))
                   (ascending (alloctype vi)) in
  let log := concat (map (fun x => x.2.1) turns) in
  let toRemove := map fst (filter (fun x => x.2.2 = true) turns) in
  (foldl (fun acc varid => erase varid acc) vi toRemove, log).

(** What keeps a record out of the reporting of [ret]: at a return, a
    conditional allocation that is not managed; a reference taken of the
    variable; an id unknown to the symbol database; at the end of a scope,
    a variable of another scope; a return after the check of an
    out-parameter allocation. *)
Definition spared (site : RetSite) (isEndOfScope : bool) (vi : VarInfo.t) (k : Z)
    (info : AllocInfo) : Prop :=
  (isEndOfScope = false /\ managed info = false /\ k ∈ conditionalAlloc vi)
  \/ k ∈ referenced vi
  \/ getVariableFromVarId site k = None
  \/ (exists var, getVariableFromVarId site k = Some var
                  /\ ((isEndOfScope = true /\ tokIsScopeEnd var = false)
                      \/ afterOutparamCheck site k = true)).

(** ** Scopes and the analysis-limit error *)

(** Modelled from the spec: symboldatabase.h is not among the sources.  A
    scope has a kind and the scope it is nested in; it is executable when it
    is a function body or a block inside one, and not when it is a class,
    struct, union, enum, namespace or the global scope. *)
Inductive ScopeType :=
| eGlobal | eClass | eStruct | eUnion | eNamespace | eFunction | eIf | eElse
| eFor | eWhile | eDo | eSwitch | eUnconditional | eTry | eCatch | eLambda | eEnum.

(** A pointer to a scope: [noScope] is the null pointer. *)
Inductive Scope :=
| noScope
| mkScope (scopeType : ScopeType) (nestedIn : Scope).

Definition isExecutable (ty : ScopeType) : bool :=
  match ty with
  | eClass | eStruct | eUnion | eGlobal | eNamespace | eEnum => false
  | _ => true
  end.

(** Lines 700-706: walk from the scope of the [throw] through the enclosing
    scopes while they are executable, looking for a try block. *)
Fixpoint tryFoundFrom (scope : Scope) : bool :=
  match scope with
  | noScope => false
  | mkScope ty nested =>
      if isExecutable ty
      then match ty with eTry => true | _ => false end || tryFoundFrom nested
      else false
  end.

(** The kinds of all the scopes around a token, innermost first, and of
    those among them that the walk of lines 700-706 reaches: it stops at the
    first scope that is not executable. *)
Fixpoint enclosing (scope : Scope) : list ScopeType :=
  match scope with
  | noScope => []
  | mkScope ty nested => ty :: enclosing nested
  end.

Fixpoint executableChain (scope : Scope) : list ScopeType :=
  match scope with
  | noScope => []
  | mkScope ty nested => if isExecutable ty then ty :: executableChain nested else []
  end.

(** Modelled from the spec: errortypes.h is not among the sources.  The
    analysis-limit error is an [InternalError] of kind [LIMIT]. *)
Inductive InternalErrorType := AST | SYNTAX | UNKNOWN_MACRO | INTERNAL | LIMIT | INSTANTIATION.

Record InternalError := mkInternalError {
  errorToken : Token;
  errorMessage : string;
  errorType : InternalErrorType
}.



(** ** Effects *)

(** The effect of a part of the checker on the state: a function from the
    state to the new state and the diagnostics written. *)
Definition Effect := VarInfo.t -> VarInfo.t * list Diag.

(** [alloctype[varid]] assigned family, status ALLOC and origin, as in
    lines 466-469, 476-479 and 1061-1064. *)
Definition setAllocated (varid : Z) (ty : Z) (tok : Token) (m : gmap Z AllocInfo)
    : gmap Z AllocInfo :=
  <[varid := set_allocTok (Some tok) (set_status ALLOC (set_type ty (at_ varid m)))]> m.

(** ** [functionCall] and [checkTokenInsideExpression] *)

(** The deleter named in a smart pointer argument, lines 1095-1114: a
    function after [&], a type with the tokens of its class body, or
    neither. *)
Inductive ArgDeleter :=
| DeleterFunction (name : Token)
| DeleterClass (body : list Token)
| DeleterUnknown.

(** A smart pointer constructed from a variable in an argument, lines
    1074-1118: whether the type has [[ ]], the deleter when one is named,
    and the variable token. *)
Record SmartPointerArg := mkSmartPointerArg {
  spaArrayDelete : bool;
  spaDeleter : option ArgDeleter;
  spaVarTok : Token
}.

(** A token as [checkTokenInsideExpression] reads it (lines 869-935):
    whether it is a known dereference of a pointer (line 877-878), whether
    [= &] stands before it (line 880), whether lines 884-912 see its value
    assigned to another variable, the variable id that line 914-915 marks
    as referenced, and the call [isFunctionCall] finds at it.  A call
    (lines 996-1132) has the name token, [isLeakIgnore] for the name,
    whether the token after the name is string-like, and its arguments.
    An argument is a variable or the address of a variable (lines
    1040-1072, with [isAddressOf], whether the token has the known value 0,
    whether the variable is a function argument and the pointer level of
    its value type), a smart pointer (lines 1074-1118; [None] when the
    pattern of line 1077 does not match), or any other expression with the
    tokens the loop of lines 1121-1127 visits. *)
Inductive ExprToken :=
| mkExprToken (etTok : Token) (etPointerDeRef etAfterAssignAddressOf etAssigned : bool)
              (etReference : option Z) (etCall : option FunctionCall)
with FunctionCall :=
| mkFunctionCall (fcName : Token) (fcLeakIgnore fcStringLike : bool) (fcArgs : list Arg)
with Arg :=
| ArgVariable (isAddressOf known0 avIsArgument : bool) (avPointer : option Z)
              (inside : ExprToken)
| ArgSmartPointer (sp : option SmartPointerArg)
| ArgExpression (toks : list ExprToken).

Definition etTok (tok : ExprToken) : Token :=
  match tok with mkExprToken t _ _ _ _ _ => t end.

Definition fcName (fc : FunctionCall) : Token :=
  match fc with mkFunctionCall n _ _ _ => n end.

(** One effect after another, with the diagnostics in the order written. *)
Definition andThen (r : VarInfo.t * list Diag) (f : Effect) : VarInfo.t * list Diag :=
  ((f r.1).1, r.2 ++ (f r.1).2).

(** Lines 872-917: the use of a variable inside an expression. *)
Definition useVariable (tok : Token) (deref afterAssignAddressOf assigned : bool)
    (reference : option Z) : Effect :=
  fun vi =>
    if 0 <? varId tok then
      match alloctype vi !! varId tok with
      | Some var =>
          if bool_decide (status var = DEALLOC) && deref
          then (vi, [DeallocUseError (Some tok) (str tok)])
          else if afterAssignAddressOf then (erase (varId tok) vi, [])
          else if assigned then (erase (varId tok) vi, [])
          else (vi, [])
      | None =>
          match reference with
          | Some v => (VarInfo.mk (alloctype vi) (possibleUsage vi) (conditionalAlloc vi)
                         ({[v]} ∪ referenced vi), [])
          | None => (vi, [])
          end
      end
    else (vi, []).

(** The event a call stands for, lines 737-740 and 922-925: a release of
    the family of the deallocator, or no allocation event at all. *)
Definition callAllocation (env : Env) (tok : Token) : AllocInfo :=
  let alloc := newAllocInfo (match getDeallocFuncInfo env tok with
                             | Some f => groupId f
                             | None => 0
                             end) DEALLOC (Some tok) in
  if type alloc =? 0 then set_status NOALLOC alloc else alloc.

(** Lines 1105-1111: the first deallocator called in the class body, with
    its token. *)
Fixpoint findDeallocTok (env : Env) (body : list Token) : option (Token * AllocFunc) :=
  match body with
  | [] => None
  | tok2 :: rest =>
      match getDeallocFuncInfo env tok2 with
      | Some sp_af => Some (tok2, sp_af)
      | None => findDeallocTok env rest
      end
  end.

(** Lines 1080-1118: the variable handed to a smart pointer. *)
Definition callSmartPointer (env : Env) (sp : SmartPointerArg) : Effect :=
  fun vi =>
    let found := match spaDeleter sp with
                 | Some (DeleterFunction name) => (getDeallocFuncInfo env name, None)
                 | Some (DeleterClass body) =>
                     match findDeallocTok env body with
                     | Some (tok2, sp_af) => (Some sp_af, Some tok2)
                     | None => (None, None)
                     end
                 | Some DeleterUnknown => (None, None)
                 | None => (None, None)
                 end in
    let ty := match found.1 with
              | Some sp_af => groupId sp_af
              | None => if spaArrayDelete sp then NEW_ARRAY else NEW
              end in
    changeAllocStatus env vi (newAllocInfo ty OWNED found.2) (spaVarTok sp) (spaVarTok sp).

(** Lines 1043-1071: a variable, or the address of a variable, as the
    argument number [argNr]; [insideExpression] is
    [checkTokenInsideExpression] at the variable token. *)
Definition callVariable (env : Env) (tokName : Token) (isLeakIgnore : bool)
    (allocation : AllocInfo) (af : option AllocFunc) (argNr : Z)
    (isAddressOf known0 avIsArgument : bool) (avPointer : option Z) (argTok : Token)
    (insideExpression : Effect) : Effect :=
  fun vi =>
    let isnull := negb isAddressOf && known0 in
    if negb isnull && match af with
                      | None => true
                      | Some f => arg f =? argNr
                      end
    then
      let deallocFunc := getDeallocFuncInfo env tokName in
      let dealloc := newAllocInfo (match deallocFunc with
                                   | Some f => groupId f
                                   | None => 0
                                   end) DEALLOC (Some tokName) in
      let event := if type dealloc =? 0 then allocation else dealloc in
      match getAllocFuncInfo env tokName with
      | Some allocFunc =>
          let r := match deallocFunc with
                   | Some _ => changeAllocStatus env vi event tokName argTok
                   | None => (vi, [])
                   end in
          if (arg allocFunc =? argNr)
             && negb (avIsArgument && match avPointer with
                                      | Some n => 1 <? n
                                      | None => false
                                      end)
             && (isAddressOf || match avPointer with
                                | Some n => n =? 2
                                | None => false
                                end)
          then
            (with_alloctype
               (setAllocated (varId argTok) (groupId allocFunc) argTok (alloctype r.1)) r.1,
             r.2 ++ leakIfAllocated env argTok r.1)
          else r
      | None =>
          if isLeakIgnore then insideExpression vi
          else changeAllocStatus env vi event tokName argTok
      end
    else (vi, []).

(** The loop of lines 1121-1127 over the tokens of an argument, for a
    given treatment of one token. *)
Definition visitWith (check : ExprToken -> Effect)
    : list ExprToken -> VarInfo.t * list Diag -> VarInfo.t * list Diag :=
  fix visit (ts : list ExprToken) (r : VarInfo.t * list Diag) : VarInfo.t * list Diag :=
    match ts with
    | [] => r
    | tok :: ts' => visit ts' (andThen r (check tok))
    end.

(** The loop of lines 1011-1131 over the arguments of a call, for a given
    [checkTokenInsideExpression].  The argument number is not advanced
    after a smart pointer that does not match the pattern of line 1077
    ([continue], line 1078). *)
Definition callArgsWith (check : ExprToken -> bool -> Effect) (env : Env) (tokName : Token)
    (isLeakIgnore : bool) (allocation : AllocInfo) (af : option AllocFunc)
    : list Arg -> Z -> VarInfo.t * list Diag -> VarInfo.t * list Diag :=
  fix loop (l : list Arg) (argNr : Z) (r : VarInfo.t * list Diag) : VarInfo.t * list Diag :=
    match l with
    | [] => r
    | a :: rest =>
        match a with
        | ArgVariable isAddressOf known0 avIsArgument avPointer inside =>
            loop rest (argNr + 1)
              (andThen r
                 (callVariable env tokName isLeakIgnore allocation af argNr
                    isAddressOf known0 avIsArgument avPointer (etTok inside)
                    (check inside false)))
        | ArgSmartPointer None => loop rest argNr r
        | ArgSmartPointer (Some sp) =>
            loop rest (argNr + 1) (andThen r (callSmartPointer env sp))
        | ArgExpression toks =>
            loop rest (argNr + 1) (visitWith (fun tok => check tok isLeakIgnore) toks r)
        end
    end.

(** [checkTokenInsideExpression], lines 869-935, and [functionCall], lines
    996-1132. *)
Fixpoint checkTokenInsideExpression (env : Env) (tok : ExprToken) (inFuncCall : bool)
    {struct tok} : Effect :=
  match tok with
  | mkExprToken t deref afterAssignAddressOf assigned reference call =>
      fun vi =>
        let r := useVariable t deref afterAssignAddressOf assigned reference vi in
        match call with
        | Some fc =>
            if inFuncCall then r
            else andThen r (functionCall env fc (callAllocation env t) None)
        | None => r
        end
  end
with functionCall (env : Env) (fc : FunctionCall) (allocation : AllocInfo)
    (af : option AllocFunc) {struct fc} : Effect :=
  match fc with
  | mkFunctionCall tokName isLeakIgnore stringLike args =>
      fun vi =>
        if bool_decide (is_Some (getReallocFuncInfo env tokName)) then (vi, [])
        else if stringLike then (vi, [])
        else callArgsWith (checkTokenInsideExpression env) env tokName isLeakIgnore
               allocation af args 1 (vi, [])
  end.

(** The name tokens of the calls inside an argument, for a given reading
    of one token. *)
Definition calledInArg (inToken : ExprToken -> list Token) (a : Arg) : list Token :=
  match a with
  | ArgVariable _ _ _ _ inside => inToken inside
  | ArgSmartPointer _ => []
  | ArgExpression toks => flat_map inToken toks
  end.

(** The name tokens of a call and of the calls inside its arguments. *)
Fixpoint calledFunctions (fc : FunctionCall) : list Token :=
  match fc with
  | mkFunctionCall tokName _ _ args => tokName :: flat_map (calledInArg calledInToken) args
  end
with calledInToken (tok : ExprToken) : list Token :=
  match tok with
  | mkExprToken _ _ _ _ _ (Some fc) => calledFunctions fc
  | mkExprToken _ _ _ _ _ None => []
  end.

(** The diagnostics [functionCall] writes about released memory. *)
Definition isReleaseDiag (d : Diag) : bool :=
  match d with
  | DoubleFreeError _ _ _ _ | MismatchError _ _ _ | DeallocUseError _ _ => true
  | _ => false
  end.

Definition releaseOnly (l : list Diag) : Prop :=
  Forall (fun d => isReleaseDiag d = true) l.

(** ** Statements *)

(** The right-hand side of an assignment: a call [fTok ( ...], a C++
    [new] expression, or anything else. *)
Inductive Rhs :=
| RhsCall (fTok : Token)
| RhsNew (newTok : Token) (arrayNew : bool)
| RhsOther.

(** An assignment statement, lines 424-490: the assigned variable; the
    variable ids of the statement when it takes the value of another
    variable (lines 427-442); whether the variable is used in the
    right-hand side; [isLocalVarNoAutoDealloc]; the right-hand side; and
    whether a non-zero value is assigned (lines 484-489). *)
Record Assignment := mkAssignment {
  asVarTok : Token;
  asOtherVar : option (list Z);
  asUsedInRhs : bool;
  asLocalVarNoAutoDealloc : bool;
  asRhs : Rhs;
  asNonZero : bool
}.

(** A [delete] statement, lines 714-733. *)
Record Delete := mkDelete {
  delTok : Token;
  delMember : bool;
  arrayDelete : bool;
  delIsNull : bool;
  delVarTok : Token;
  delIndexed : bool
}.

(** The deleter of a smart pointer, lines 798-856: the function named
    after [&], when there is one, and the tokens of the body that could be
    found for it (lambda body, function body or class body). *)
Record Deleter := mkDeleter {
  deleterFunction : option Token;
  deleterBody : option (list Token)
}.

(** A smart pointer constructed from a variable, lines 782-860. *)
Record SmartPointer := mkSmartPointer {
  spTok : Token;
  spReleased : bool;
  spArrayDelete : bool;
  spDeleter : option Deleter;
  spVarTok : Token
}.

(** What follows a call statement that ends a scope, lines 746-765. *)
Inductive NoReturn :=
| Returns
| KnownNoReturn
| UnknownNoReturn (usage : option Usage).

(** A call statement, lines 736-768; [callEffect] is the effect of
    [functionCall] (lines 996-1132) for this call. *)
Record Call := mkCall {
  callTok : Token;
  callEffect : Effect;
  callNoReturn : NoReturn
}.

(** A [throw] statement, lines 699-711. *)
Record Throw := mkThrow {
  throwIsCpp : bool;
  throwScope : Scope;
  throwSite : RetSite
}.

(** The head of an [if], lines 495-617: the known value of the condition,
    the effect of the scan of the calls and assignments inside the
    condition (lines 504-559), the effect of the main loop on the tokens of
    the condition when it walks over them, and the condition below the
    commas. *)
Record IfHead := mkIfHead {
  knownIntValue : option Z;
  condScan : Effect;
  condWalk : Effect;
  condTree : Condition.Cond
}.

(** An argument of a library function that has an out-parameter, as lines
    377-394 read it: whether the function has argument checks for the
    position, whether one of its directions is DIR_IN, and the token below
    the address-of operators: how many were taken off, whether it is a
    variable, and its variable id. *)
Record LibraryArg := mkLibraryArg {
  hasArgCheck : bool;
  isInParam : bool;
  indirect : nat;
  inIsVariable : bool;
  inVarId : Z
}.

(** What the loop does at the start of a statement before the dispatch,
    lines 365-407: the library function found at [ftok], when there is
    one, with whether it has an out-parameter and the arguments of the
    call; and the operands of a C++11 initialisation, when the token is
    one. *)
Record BeforeDispatch := mkBeforeDispatch {
  libFunc : option (bool * list LibraryArg);
  cpp11init : option (option Token * option Token)
}.

(** What the loop of [checkScope] does in a block, in the order of the
    tokens.  At the start of a statement it makes the steps of lines
    365-407 ([SBeforeDispatch]) and dispatches on the statement (lines
    423-862), one constructor for each branch, with the facts that the
    branch reads from the tokens of the statement.  Every token that the
    loop steps on is first handed to [checkTokenInsideExpression] (lines
    317-325): [STokens] has, between two dispatches, the tokens for which
    that call is made, in their order; the tokens that the loop jumps over,
    after a call found by [checkTokenInsideExpression] or inside a branch of
    the dispatch, are not among them; the last branch of the dispatch
    (lines 861-862) makes the same call for the first token of a statement
    that starts with a variable and a dot.  A statement that lines 341-344 skip
    as unevaluated leaves nothing.  A block is the token of its opening
    brace, what the loop does in it, and what [ret] reads at its closing
    brace. *)
Inductive Stmt :=
| SBeforeDispatch (b : BeforeDispatch)
| STokens (toks : list ExprToken)
| SAssign (a : Assignment)
| SIf (h : IfHead) (startToken : Token) (ifBlock : list Stmt) (ifEnd : RetSite)
      (els : Else)
| SUnknownControl
| SReturn (site : RetSite)
| SThrow (t : Throw)
| SDelete (d : Delete)
| SCall (c : Call)
| SGoto
| SBreakContinue
| SSmartPointer (p : SmartPointer)
| SOther
with Else :=
| NoElse
| ElseBlock (elseStart : Token) (elseBlock : list Stmt) (elseEnd : RetSite).

(** The variables of the loop: the state, the set [notzero], and the
    diagnostics written so far. *)
Record Walk := mkWalk {
  varInfo : VarInfo.t;
  notzero : gset Z;
  written : list Diag
}.

(** The outcome of one turn of the loop: go on, [return false], or an
    [InternalError] on its way out. *)
Inductive Step :=
| Next (w : Walk)
| Abandon (w : Walk)
| Raise (e : InternalError) (log : list Diag).

(** The outcome of [checkScope]. *)
Inductive Result :=
| Returned (b : bool) (vi : VarInfo.t) (log : list Diag)
| Thrown (e : InternalError) (log : list Diag).

(** ** The statement handlers of [checkScope] *)

Definition emit (w : Walk) (vl : VarInfo.t * list Diag) : Walk :=
  mkWalk vl.1 (notzero w) (written w ++ vl.2).

(** Lines 461-480: the allocation on the right-hand side. *)
Definition assignRhs (env : Env) (a : Assignment) (vi : VarInfo.t) : VarInfo.t * list Diag :=
  match asRhs a with
  | RhsCall fTok =>
      let m := match getAllocFuncInfo env fTok with
               | Some f => if arg f =? -1
                           then setAllocated (varId (asVarTok a)) (groupId f) fTok (alloctype vi)
                           else alloctype vi
               | None => alloctype vi
               end in
      let ml := changeAllocStatusIfRealloc env m fTok (asVarTok a) in
      (with_alloctype ml.1 vi, ml.2)
  | RhsNew newTok arrayNew =>
      (with_alloctype
         (setAllocated (varId (asVarTok a)) (if arrayNew then NEW_ARRAY else NEW) newTok
            (alloctype vi)) vi, [])
  | RhsOther => (vi, [])
  end.

(** Lines 365-397: a variable whose address is passed as an in-parameter
    to a library function that has an out-parameter is no longer tracked. *)
Definition outParamBailout (b : BeforeDispatch) : Effect :=
  fun vi =>
    match libFunc b with
    | Some (true, args) =>
        (foldl (fun acc a =>
                  if hasArgCheck a && isInParam a && inIsVariable a && (0 <? indirect a)%nat
                  then erase (inVarId a) acc
                  else acc) vi args, [])
    | Some (false, _) => (vi, [])
    | None => (vi, [])
    end.

(** Lines 399-407: a C++11 initialisation of one variable with another. *)
Definition cpp11Init (env : Env) (b : BeforeDispatch) : Effect :=
  fun vi =>
    match cpp11init b with
    | Some (Some newTok, Some oldTok) =>
        if negb (bool_decide (varId newTok = 0)) && negb (bool_decide (varId oldTok = 0))
        then (erase (varId oldTok) vi, leakIfAllocated env newTok vi)
        else (vi, [])
    | _ => (vi, [])
    end.

Definition doBeforeDispatch (env : Env) (b : BeforeDispatch) (w : Walk) : Walk :=
  let w := emit w (outParamBailout b (varInfo w)) in
  emit w (cpp11Init env b (varInfo w)).

(** Lines 317-325: the tokens between two dispatches, each handed to
    [checkTokenInsideExpression]. *)
Definition doTokens (env : Env) (toks : list ExprToken) (w : Walk) : Walk :=
  emit w (visitWith (fun tok => checkTokenInsideExpression env tok false) toks (varInfo w, [])).

(** Lines 424-490.  [conditionalAlloc_] is the copy of line 306. *)
Definition doAssign (env : Env) (conditionalAlloc_ : gset Z) (a : Assignment) (w : Walk) : Walk :=
  let varTok := asVarTok a in
  let w :=
    match asOtherVar a with
    | Some ids =>
        emit w (foldl (fun acc id => erase id acc) (varInfo w) ids,
                leakIfAllocated env varTok (varInfo w))
    | None => w
    end in
  if asUsedInRhs a then w
  else
    let log := if bool_decide (varId varTok ∉ conditionalAlloc_)
               then leakIfAllocated env varTok (varInfo w) else [] in
    let w := emit w (erase (varId varTok) (varInfo w), log) in
    if negb (asLocalVarNoAutoDealloc a) then w
    else
      let w := emit w (assignRhs env a (varInfo w)) in
      mkWalk (varInfo w)
             (if asNonZero a then {[varId varTok]} ∪ notzero w
              else notzero w ∖ {[varId varTok]})
             (written w).

(** Lines 693-696. *)
Definition doReturn (env : Env) (site : RetSite) (w : Walk) : Walk :=
  let vl := ret env site false (varInfo w) in
  emit w (clear vl.1, vl.2).

(** Lines 699-711. *)
Definition doThrow (env : Env) (t : Throw) (w : Walk) : Walk :=
  if tryFoundFrom (throwScope t) then emit w (clear (varInfo w), [])
  else
    let vl := ret env (throwSite t) false (varInfo w) in
    emit w (clear vl.1, vl.2).

(** Lines 714-733. *)
Definition doDelete (env : Env) (d : Delete) (w : Walk) : Walk :=
  if delMember d then w
  else if negb (delIsNull d) && negb (bool_decide (varId (delVarTok d) = 0))
          && negb (delIndexed d)
  then
    let allocation := newAllocInfo (if arrayDelete d then NEW_ARRAY else NEW) DEALLOC
                                   (Some (delTok d)) in
    emit w (changeAllocStatus env (varInfo w) allocation (delVarTok d) (delVarTok d))
  else w.

(** Lines 736-768.  The scope may end in a call that does not return
    only when the call is not a deallocation ([allocation.status] is
    NOALLOC). *)
Definition doCall (env : Env) (c : Call) (w : Walk) : Walk :=
  let w := emit w (callEffect c (varInfo w)) in
  let noalloc := match getDeallocFuncInfo env (callTok c) with
                 | Some af => groupId af =? 0
                 | None => true
                 end in
  if noalloc then
    match callNoReturn c with
    | Returns => w
    | KnownNoReturn => emit w (clear (varInfo w), [])
    | UnknownNoReturn None => w
    | UnknownNoReturn (Some usage) =>
        emit w (possibleUsageAll (Some (callTok c), usage) (varInfo w), [])
    end
  else w.

(** Lines 845-850: the first deallocator called in the body. *)
Fixpoint findDealloc (env : Env) (body : list Token) : option AllocFunc :=
  match body with
  | [] => None
  | tok2 :: rest =>
      match getDeallocFuncInfo env tok2 with
      | Some af => Some af
      | None => findDealloc env rest
      end
  end.

(** Lines 797-856: the deallocator of the deleter; [None] in the outer
    option when there is a deleter that cannot be checked. *)
Definition resolveDeleter (env : Env) (p : SmartPointer) : option (option AllocFunc) :=
  match spDeleter p with
  | None => Some None
  | Some d =>
      match from_option (getDeallocFuncInfo env) None (deleterFunction d) with
      | Some af => Some (Some af)
      | None =>
          match deleterBody d with
          | Some body => Some (findDealloc env body)
          | None => None
          end
      end
  end.

(** Lines 782-860. *)
Definition doSmartPointer (env : Env) (p : SmartPointer) (w : Walk) : Walk :=
  if spReleased p then w
  else
    match resolveDeleter env p with
    | None => emit w (clear (varInfo w), [])
    | Some af =>
        let ty := match af with
                  | Some f => groupId f
                  | None => if spArrayDelete p then NEW_ARRAY else NEW
                  end in
        let allocation := newAllocInfo ty OWNED (Some (spTok p)) in
        emit w (changeAllocStatus env (varInfo w) allocation (spVarTok p) (spVarTok p))
    end.

(** ** [checkScope] *)

Definition limitMessage : string :=
  "Internal limit: CheckLeakAutoVar::checkScope() Maximum recursive count of 1000 reached."%string.

(** The loop of lines 310-863 over what is done in a block, for a given
    treatment of one statement. *)
Definition walkWith (step : Stmt -> Walk -> Step) : list Stmt -> Walk -> Step :=
  fix go (l : list Stmt) (w : Walk) : Step :=
    match l with
    | [] => Next w
    | s :: rest =>
        match step s w with
        | Next w' => go rest w'
        | other => other
        end
    end.

(** [checkScope], lines 288-866, for a given treatment of one statement:
    the counter is incremented and compared with the ceiling, the set
    [conditionalAlloc] is copied, the statements are walked, and [ret] is
    called at the closing brace. *)
Definition checkScopeWith (step : gset Z -> nat -> Stmt -> Walk -> Step)
    (env : Env) (limit : nat) (startToken : Token) (body : list Stmt) (endSite : RetSite)
    (vi : VarInfo.t) (notzero_ : gset Z) (recursiveCount : nat) (log : list Diag) : Result :=
  let recursiveCount := S recursiveCount in
  if (limit <? recursiveCount)%nat
  then Thrown (mkInternalError startToken limitMessage LIMIT) log
  else
    match walkWith (step (conditionalAlloc vi) recursiveCount) body (mkWalk vi notzero_ log) with
    | Next w =>
        let vl := ret env endSite true (varInfo w) in
        Returned true vl.1 (written w ++ vl.2)
    | Abandon w => Returned false (varInfo w) (written w)
    | Raise e l => Thrown e l
    end.

(** Lines 495-502: a block is skipped when the known value of the
    condition makes it unreachable. *)
Definition skipIfBlock (h : IfHead) : bool :=
  match knownIntValue h with Some v => (v =? 0)%Z | None => false end.

Definition skipElseBlock (h : IfHead) : bool :=
  match knownIntValue h with Some v => negb (v =? 0)%Z | None => false end.

(** One turn of the loop.  [conditionalAlloc_] and [recursiveCount] are
    those of the running call of [checkScope].  After the [continue] of
    line 621 the loop goes on with the token after [if], so that it walks
    over the condition and over the statements of the two blocks itself. *)
Fixpoint checkStmt (env : Env) (limit : nat) (conditionalAlloc_ : gset Z)
    (recursiveCount : nat) (s : Stmt) (w : Walk) {struct s} : Step :=
  match s with
  | SBeforeDispatch b => Next (doBeforeDispatch env b w)
  | STokens toks => Next (doTokens env toks w)
  | SAssign a => Next (doAssign env conditionalAlloc_ a w)
  | SIf h startToken ifBlock ifEnd els =>
      let w := emit w (condScan h (varInfo w)) in
      let vs := Condition.visit env (notzero w) (condTree h) (varInfo w, varInfo w) in
      let r1 := if skipIfBlock h then Returned true vs.1 (written w)
                else checkScopeWith (checkStmt env limit) env limit startToken ifBlock ifEnd
                       vs.1 (notzero w) recursiveCount (written w) in
      match r1 with
      | Thrown e l => Raise e l
      | Returned false _ l =>
          let w := mkWalk (clear (varInfo w)) (notzero w) l in
          let w := emit w (condWalk h (varInfo w)) in
          match walkWith (checkStmt env limit conditionalAlloc_ recursiveCount) ifBlock w with
          | Next w =>
              match els with
              | NoElse => Next w
              | ElseBlock _ elseBlock _ =>
                  walkWith (checkStmt env limit conditionalAlloc_ recursiveCount) elseBlock w
              end
          | other => other
          end
      | Returned true varInfo1 l =>
          match els with
          | ElseBlock elseStart elseBlock elseEnd =>
              let r2 := if skipElseBlock h then Returned true vs.2 l
                        else checkScopeWith (checkStmt env limit) env limit elseStart elseBlock
                               elseEnd vs.2 (notzero w) recursiveCount l in
              match r2 with
              | Thrown e l2 => Raise e l2
              | Returned false _ l2 => Abandon (mkWalk (clear (varInfo w)) (notzero w) l2)
              | Returned true varInfo2 l2 =>
                  Next (mkWalk (Merge.merge conditionalAlloc_ (varInfo w) varInfo1 varInfo2)
                               (notzero w) l2)
              end
          | NoElse =>
              Next (mkWalk (Merge.merge conditionalAlloc_ (varInfo w) varInfo1 vs.2)
                           (notzero w) l)
          end
      end
  | SUnknownControl => Abandon (emit w (clear (varInfo w), []))
  | SReturn site => Next (doReturn env site w)
  | SThrow t => if throwIsCpp t then Next (doThrow env t w) else Next w
  | SDelete d => Next (doDelete env d w)
  | SCall c => Next (doCall env c w)
  | SGoto => Abandon (emit w (clear (varInfo w), []))
  | SBreakContinue => Next (emit w (clear (varInfo w), []))
  | SSmartPointer p => Next (doSmartPointer env p w)
  | SOther => Next w
  end.

Definition checkScope (env : Env) (limit : nat) (startToken : Token) (body : list Stmt)
    (endSite : RetSite) (vi : VarInfo.t) (notzero_ : gset Z) (recursiveCount : nat)
    (log : list Diag) : Result :=
  checkScopeWith (checkStmt env limit) env limit startToken body endSite vi notzero_
                 recursiveCount log.

(** The two recursive calls of lines 619 and 625, as [checkStmt] makes
    them: a skipped block leaves its copy as it is, and an [if] without
    [else] leaves the second copy as it is. *)
Definition analyseBlock (env : Env) (limit : nat) (skip : bool) (startToken : Token)
    (body : list Stmt) (endSite : RetSite) (vi : VarInfo.t) (notzero_ : gset Z)
    (recursiveCount : nat) (log : list Diag) : Result :=
  if skip then Returned true vi log
  else checkScope env limit startToken body endSite vi notzero_ recursiveCount log.

Definition analyseElse (env : Env) (limit : nat) (skip : bool) (els : Else)
    (vi : VarInfo.t) (notzero_ : gset Z) (recursiveCount : nat) (log : list Diag) : Result :=
  match els with
  | NoElse => Returned true vi log
  | ElseBlock elseStart elseBlock elseEnd =>
      analyseBlock env limit skip elseStart elseBlock elseEnd vi notzero_ recursiveCount log
  end.

(** The walk that follows the [continue] of line 621: the state is cleared
    and the loop walks over the condition, the statements of the if-block
    and those of the else-block. *)
Definition rewalk (env : Env) (limit : nat) (conditionalAlloc_ : gset Z) (recursiveCount : nat)
    (h : IfHead) (ifBlock : list Stmt) (els : Else) (w : Walk) (log : list Diag) : Step :=
  let w := mkWalk (clear (varInfo w)) (notzero w) log in
  let w := emit w (condWalk h (varInfo w)) in
  match walkWith (checkStmt env limit conditionalAlloc_ recursiveCount) ifBlock w with
  | Next w =>
      match els with
      | NoElse => Next w
      | ElseBlock _ elseBlock _ =>
          walkWith (checkStmt env limit conditionalAlloc_ recursiveCount) elseBlock w
      end
  | other => other
  end.

(** The turn of the loop at an [if] from line 619 on, for given copies
    [varInfo1] and [varInfo2] of the state: the two recursive calls and the
    join. *)
Definition ifFrom (env : Env) (limit : nat) (conditionalAlloc_ : gset Z) (recursiveCount : nat)
    (h : IfHead) (startToken : Token) (ifBlock : list Stmt) (ifEnd : RetSite) (els : Else)
    (w0 : Walk) (copies : VarInfo.t * VarInfo.t) : Step :=
  match analyseBlock env limit (skipIfBlock h) startToken ifBlock ifEnd copies.1 (notzero w0)
          recursiveCount (written w0) with
  | Thrown e l => Raise e l
  | Returned false _ l => rewalk env limit conditionalAlloc_ recursiveCount h ifBlock els w0 l
  | Returned true varInfo1 l =>
      match analyseElse env limit (skipElseBlock h) els copies.2 (notzero w0)
              recursiveCount l with
      | Thrown e l2 => Raise e l2
      | Returned false _ l2 => Abandon (mkWalk (clear (varInfo w0)) (notzero w0) l2)
      | Returned true varInfo2 l2 =>
          Next (mkWalk (Merge.merge conditionalAlloc_ (varInfo w0) varInfo1 varInfo2)
                       (notzero w0) l2)
      end
  end.

(** [if] statements nested in one another around a block, none with an
    [else]. *)
Fixpoint nested (heads : list (IfHead * Token * RetSite)) (body : list Stmt) : list Stmt :=
  match heads with
  | [] => body
  | (h, startToken, ifEnd) :: inner => [SIf h startToken (nested inner body) ifEnd NoElse]
  end.

(** How a turn of the loop and a call of [checkScope] end: [Some true]
    when the walk goes on or the call returns true, [Some false] for
    [return false], [None] when an [InternalError] leaves them. *)
Definition stepKind (s : Step) : option bool :=
  match s with
  | Next _ => Some true
  | Abandon _ => Some false
  | Raise _ _ => None
  end.

Definition resultKind (r : Result) : option bool :=
  match r with
  | Returned b _ _ => Some b
  | Thrown _ _ => None
  end.

(** Whether a statement lets the walk go on, abandons it or raises the
    limit error does not depend on the state, and a smaller count of
    recursions does not change it. *)
Definition kindStable (env : Env) (limit : nat) (s : Stmt) : Prop :=
  forall rc rc' ca ca' w w' b,
    stepKind (checkStmt env limit ca rc s w) = Some b -> (rc' <= rc)%nat ->
    stepKind (checkStmt env limit ca' rc' s w') = Some b.

(** An abandoned turn of the loop leaves no tracked state. *)
Definition abandonClears (env : Env) (limit : nat) (s : Stmt) : Prop :=
  forall ca rc w w',
    checkStmt env limit ca rc s w = Abandon w' -> varInfo w' = VarInfo.empty.





(** The diagnostics [l0] put in front of those of a walk, of a turn of the
    loop and of a call of [checkScope]. *)
Definition addLog (l0 : list Diag) (w : Walk) : Walk :=
  mkWalk (varInfo w) (notzero w) (l0 ++ written w).

Definition addLogStep (l0 : list Diag) (s : Step) : Step :=
  match s with
  | Next w => Next (addLog l0 w)
  | Abandon w => Abandon (addLog l0 w)
  | Raise e l => Raise e (l0 ++ l)
  end.

Definition addLogResult (l0 : list Diag) (r : Result) : Result :=
  match r with
  | Returned b vi l => Returned b vi (l0 ++ l)
  | Thrown e l => Thrown e (l0 ++ l)
  end.

(** A turn of the loop only adds to the diagnostics written before it, and
    does not look at them. *)
Definition logFree (env : Env) (limit : nat) (s : Stmt) : Prop :=
  forall ca rc l0 w,
    checkStmt env limit ca rc s (addLog l0 w)
    = addLogStep l0 (checkStmt env limit ca rc s w).

(** A function scope of the symbol database. *)
Record FunctionScope := mkFunctionScope {
  hasInlineOrLambdaFunction : bool;
  bodyStart : Token;
  bodyStmts : list Stmt;
  bodyEnd : RetSite
}.

(** The loop of [check], lines 178-187.  An [InternalError] thrown by
    [checkScope] is not caught here: it leaves the loop. *)
Fixpoint checkFunctionScopes (env : Env) (limit : nat) (functionScopes : list FunctionScope)
    (log : list Diag) : list Diag * option InternalError :=
  match functionScopes with
  | [] => (log, None)
  | scope :: rest =>
      if hasInlineOrLambdaFunction scope then checkFunctionScopes env limit rest log
      else
        match checkScope env limit (bodyStart scope) (bodyStmts scope) (bodyEnd scope)
                         VarInfo.empty ∅ 0 log with
        | Returned _ _ log' => checkFunctionScopes env limit rest log'
        | Thrown e log' => (log', Some e)
        end
  end.

(** [check], lines 166-188. *)
Definition check (env : Env) (clang : bool) (limit : nat) (functionScopes : list FunctionScope)
    : list Diag * option InternalError :=
  if clang then ([], None) else checkFunctionScopes env limit functionScopes [].

(** ** Helpers of the statement dispatch *)

(** The syntax tree under a token: a null pointer, or a token with its
    variable id, its text and its two operands. *)
Inductive Ast :=
| ANull
| ANode (astVarId : Z) (astStr : string) (astOperand1 astOperand2 : Ast).

(** [Token::simpleMatch(tok, s)] for a one-word pattern. *)
Definition astSimpleMatch (tok : Ast) (s : string) : bool :=
  match tok with
  | ANull => false
  | ANode _ s' _ _ => bool_decide (s' = s)
  end.

(** [isVarUsedInTree], lines 190-199. *)
Fixpoint isVarUsedInTree (tok : Ast) (varid : Z) : bool :=
  match tok with
  | ANull => false
  | ANode v s op1 op2 =>
      if bool_decide (v = varid) then true
      else if bool_decide (s = "("%string) && astSimpleMatch op1 "sizeof" then false
      else isVarUsedInTree op1 varid || isVarUsedInTree op2 varid
  end.

(** Some token of the tree has the variable id [varid]. *)
Fixpoint occursIn (tok : Ast) (varid : Z) : bool :=
  match tok with
  | ANull => false
  | ANode v _ op1 op2 => bool_decide (v = varid) || occursIn op1 varid || occursIn op2 varid
  end.

(** Some token of the tree is the parenthesis of a call of [sizeof]. *)
Fixpoint hasSizeofCall (tok : Ast) : bool :=
  match tok with
  | ANull => false
  | ANode _ s op1 op2 =>
      (bool_decide (s = "("%string) && astSimpleMatch op1 "sizeof")
      || hasSizeofCall op1 || hasSizeofCall op2
  end.

(** What [isPointerReleased] matches at a token: [%var% . release ( )]
    and [%var% =]. *)
Record ReleasePatterns := mkReleasePatterns {
  isReleaseCall : Token -> bool;
  isAssigned : Token -> bool
}.

(** [isPointerReleased], lines 201-212, over the tokens from the start
    token up to the end token. *)
Fixpoint isPointerReleased (pat : ReleasePatterns) (toks : list Token) (varid : Z) : bool :=
  match toks with
  | [] => false
  | tok :: rest =>
      if negb (bool_decide (varId tok = varid)) then isPointerReleased pat rest varid
      else if isReleaseCall pat tok then true
      else if isAssigned pat tok then false
      else isPointerReleased pat rest varid
  end.

(** A member variable of a class, as [isAutoDeallocType] reads it: whether
    it has a value type, and whether that type is primitive or a
    container. *)
Record Member := mkMember {
  hasValueType : bool;
  isPrimitive : bool;
  isContainer : bool
}.

(** A type of the symbol database: its class scope, when it has one, with
    the number of constructors and the member variables, and the types it
    is derived from (a base whose type is not known is a null pointer). *)
Inductive TypeInfo :=
| mkTypeInfo (classScope : option (nat * list Member)) (derivedFrom : list (option TypeInfo)).

(** The test on a member variable, lines 67-69. *)
Definition memberNotPlain (v : Member) : bool :=
  negb (hasValueType v) || (negb (isPrimitive v) && negb (isContainer v)).

(** [isAutoDeallocType], lines 61-76; [None] is the null pointer. *)
Fixpoint isAutoDeallocType (ty : TypeInfo) : bool :=
  match ty with
  | mkTypeInfo None _ => true
  | mkTypeInfo (Some (numConstructors, varlist)) derivedFrom =>
      if (0 <? numConstructors)%nat then true
      else if existsb memberNotPlain varlist then true
      else if negb (existsb (fun bi => match bi with
                                       | None => true
                                       | Some base => isAutoDeallocType base
                                       end) derivedFrom)
      then false
      else true
  end.

Definition isAutoDeallocTypePtr (ty : option TypeInfo) : bool :=
  match ty with
  | None => true
  | Some t => isAutoDeallocType t
  end.

(** A record type that can be seen to have no automatic deallocation: a
    class scope without constructors, whose members all have a primitive or
    container value type, and whose bases are all known and of that kind
    too. *)
Inductive PlainRecord : TypeInfo -> Prop :=
| plainRecord (varlist : list Member) (derivedFrom : list (option TypeInfo)) :
    Forall (fun v => hasValueType v = true /\ (isPrimitive v = true \/ isContainer v = true))
           varlist ->
    Forall (fun bi => exists base, bi = Some base /\ PlainRecord base) derivedFrom ->
    PlainRecord (mkTypeInfo (Some (0%nat, varlist)) derivedFrom).

(** ** Call statements *)

(** The call statement of lines 736-768 whose effect is [functionCall]. *)
Definition callStmt (env : Env) (fc : FunctionCall) (noReturn : NoReturn) : Call :=
  mkCall (fcName fc)
    (functionCall env fc (callAllocation env (fcName fc)) (getDeallocFuncInfo env (fcName fc)))
    noReturn.

(** ** Concrete inputs *)

Module Examples.

Definition tok (id : nat) (s : string) (v : Z) : Token := mkToken id s v false false.

Definition p_tok : Token := tok 1 "p" 1.
Definition q_tok : Token := tok 2 "q" 2.
Definition free_tok : Token := tok 10 "free" 0.
Definition malloc_tok : Token := tok 11 "malloc" 0.
Definition realloc_tok : Token := tok 12 "realloc" 0.
Definition fdopen_tok : Token := tok 13 "fdopen" 0.
Definition delete_tok : Token := tok 14 "delete" 0.
Definition new_tok : Token := tok 15 "new" 0.
Definition brace_tok : Token := tok 16 "{" 0.
Definition n_tok : Token := tok 17 "n" 0.

Definition named (s : string) (t : Token) : bool := bool_decide (str t = s).

(** A library with the family 1 of [malloc], [realloc] and [free], and a
    function [fdopen] that both releases its argument and allocates. *)
Definition env : Env :=
  mkEnv false
    (fun t => if named "malloc" t || named "fdopen" t then Some (mkAllocFunc 1 (-1) 0)
              else None)
    (fun t => if named "free" t || named "fdopen" t then Some (mkAllocFunc 1 1 0) else None)
    (fun t => if named "realloc" t then Some (mkAllocFunc 1 (-1) 1) else None)
    (fun t => if named "realloc" t then [p_tok; n_tok] else [])
    (fun _ => false)
    (fun t => negb (bool_decide (varId t = 0)))
    (fun _ => None).

Definition allocated (ty : Z) (t : Token) : AllocInfo := newAllocInfo ty ALLOC (Some t).
Definition deallocated (ty : Z) (t : Token) : AllocInfo := newAllocInfo ty DEALLOC (Some t).

(** The state in which only [p] is tracked, with the given record. *)
Definition tracking (v : Z) (a : AllocInfo) : VarInfo.t :=
  with_alloctype {[v := a]} VarInfo.empty.

(** An [if] whose condition is a plain variable: nothing to scan and no
    comparison. *)
Definition no_effect : Effect := fun vi => (vi, []).
Definition plain_if : IfHead :=
  mkIfHead None no_effect no_effect (Condition.CNode (Condition.mkNode "c" false "" None)).

(** The closing brace of a block inside the function, and the closing
    brace of the function, which ends the scope of [p]. *)
Definition inner_site : RetSite :=
  mkRetSite brace_tok (fun _ => Some (mkVar "p" false false)) (fun _ => NONE) (fun _ => false).
Definition outer_site : RetSite :=
  mkRetSite brace_tok (fun _ => Some (mkVar "p" false true)) (fun _ => NONE) (fun _ => false).

(** [p = new int;], [p = 0;] and [delete p;]. *)
Definition assign_new : Stmt :=
  SAssign (mkAssignment p_tok None false true (RhsNew new_tok false) false).
Definition assign_zero : Stmt :=
  SAssign (mkAssignment p_tok None false true RhsOther false).
Definition delete_p : Stmt :=
  SDelete (mkDelete delete_tok false false false p_tok false).

(** [if (c) { p = new int; }] and [if (c) { delete p; }]. *)
Definition if_new : Stmt := SIf plain_if brace_tok [assign_new] inner_site NoElse.
Definition if_delete : Stmt := SIf plain_if brace_tok [delete_p] inner_site NoElse.

(** The state after [q = realloc(p, n);] with [p] allocated before, and
    the comparisons [q != 0] and [q == 0]. *)
Definition after_realloc : VarInfo.t :=
  with_alloctype
    {[1 := newAllocInfo 1 REALLOC (Some realloc_tok);
      2 := mkAllocInfo ALLOC 1 1 (Some realloc_tok)]} VarInfo.empty.
Definition q_not_null : Condition.Node := Condition.mkNode "!=" true "0" (Some q_tok).
Definition q_null : Condition.Node := Condition.mkNode "==" true "0" (Some q_tok).

(** The head of [if ((p = malloc(n)) != 0)]: the scan of the condition
    writes the record of [p] (lines 531-535). *)
Definition p_not_null : Condition.Node := Condition.mkNode "!=" true "0" (Some p_tok).
Definition if_p_malloc : IfHead :=
  mkIfHead None
    (fun vi => (with_alloctype (setAllocated 1 1 malloc_tok (alloctype vi)) vi, []))
    no_effect (Condition.CNode p_not_null).

(** The heads of [if (q != 0)] and [if (q == 0)]. *)
Definition if_q_not_null : IfHead :=
  mkIfHead None no_effect no_effect (Condition.CNode q_not_null).
Definition if_q_null : IfHead :=
  mkIfHead None no_effect no_effect (Condition.CNode q_null).

(** Two variables tracked as allocated. *)
Definition two_allocated : VarInfo.t :=
  with_alloctype {[1 := allocated (-1) new_tok; 2 := allocated (-1) new_tok]} VarInfo.empty.

(** [std::unique_ptr<T, D> x(p);] with a deleter type [D] whose body is
    not available. *)
Definition sp_tok : Token := tok 20 "unique_ptr" 0.
Definition unresolved_sp : SmartPointer :=
  mkSmartPointer sp_tok false false (Some (mkDeleter None None)) p_tok.

(** A [throw] in the body of a function inside a try block, and a [throw]
    in a member function of a class that is defined locally inside a try
    block of another function. *)
Definition throw_tok : Token := tok 21 "throw" 0.
Definition throw_site : RetSite :=
  mkRetSite throw_tok (fun _ => Some (mkVar "p" false false)) (fun _ => NONE) (fun _ => false).
Definition function_scope : Scope := mkScope eFunction (mkScope eGlobal noScope).
Definition throw_in_try : Throw :=
  mkThrow true (mkScope eIf (mkScope eTry function_scope)) throw_site.
Definition throw_in_local_class : Throw :=
  mkThrow true (mkScope eFunction (mkScope eStruct (mkScope eTry function_scope))) throw_site.

(** [p = new int; if (c) { delete p; delete p; goto x; }] and
    [p = new int; if (c) { } else { goto x; }]. *)
Definition goto_in_if : list Stmt :=
  [assign_new; SIf plain_if brace_tok [delete_p; delete_p; SGoto] inner_site NoElse].
Definition goto_in_else : list Stmt :=
  [assign_new; SIf plain_if brace_tok [] inner_site (ElseBlock brace_tok [SGoto] inner_site)].




(** The calls [free(p)], [use(p)] of a function the library does not
    know, and [free(get(p))]. *)
Definition use_tok : Token := tok 30 "use" 0.
Definition get_tok : Token := tok 31 "get" 0.
Definition p_expr : ExprToken := mkExprToken p_tok false false false None None.
Definition free_p : FunctionCall :=
  mkFunctionCall free_tok false false [ArgVariable false false false (Some 1) p_expr].
Definition use_p : FunctionCall :=
  mkFunctionCall use_tok false false [ArgVariable false false false (Some 1) p_expr].
Definition get_p : FunctionCall :=
  mkFunctionCall get_tok false false [ArgVariable false false false (Some 1) p_expr].
Definition free_get_p : FunctionCall :=
  mkFunctionCall free_tok false false
    [ArgExpression [mkExprToken get_tok false false false None (Some get_p); p_expr]].

End Examples.

(** * Properties *)

(** ** [changeAllocStatus] *)

Section ChangeAllocStatus.

Context (env : Env).

Lemma erase_alloctype_ne (k v : Z) (vi : VarInfo.t) :
  k <> v -> alloctype (erase v vi) !! k = alloctype vi !! k.
Proof. intros Hk. simpl. by rewrite lookup_delete_ne. Qed.

Lemma erase_alloctype_eq (v : Z) (vi : VarInfo.t) :
  alloctype (erase v vi) !! v = None.
Proof. simpl. by rewrite lookup_delete_eq. Qed.

(** C4 (as amended).  A deallocation event on a variable without a record
    writes no diagnostic, records no possible usage and leaves every other
    variable's record as it was; for the variable itself it installs a
    Deallocated record with the event's family and the call token as origin,
    except when the event's status is NOALLOC or OWNED or the call stands in
    a return statement, in which case nothing changes. *)
Theorem changeAllocStatus_untracked
    (vi : VarInfo.t) (allocation : AllocInfo) (tok arg_ : Token)
    (Hnone : alloctype vi !! varId arg_ = None) :
  let r := changeAllocStatus env vi allocation tok arg_ in
  r.2 = []
  /\ possibleUsage r.1 = possibleUsage vi
  /\ conditionalAlloc r.1 = conditionalAlloc vi
  /\ referenced r.1 = referenced vi
  /\ (forall k, k <> varId arg_ -> alloctype r.1 !! k = alloctype vi !! k)
  /\ alloctype r.1 !! varId arg_ =
       (if bool_decide (status allocation = NOALLOC)
           || bool_decide (status allocation = OWNED)
           || astTopIsReturn tok
        then None
        else Some (mkAllocInfo DEALLOC (type allocation) (-1) (Some tok))).
Proof.
  intros r. subst r. unfold changeAllocStatus. rewrite Hnone.
  destruct (status allocation) eqn:Hs, (astTopIsReturn tok) eqn:Hr; simpl;
    repeat split; auto; intros;
    try (rewrite lookup_insert_ne by congruence; reflexivity);
    try (rewrite lookup_insert_eq; unfold at_; rewrite Hnone; reflexivity).
Qed.

(** C6 (as amended).  When the record of the variable is managed and the
    event is a deallocation (its status is not NOALLOC) whose function is
    not also an allocator of the library, exactly one double-free
    diagnostic is written and nothing else, the record keeps its family and
    origin and takes the event's status, and every other record is as it
    was. *)
Theorem changeAllocStatus_managed
    (vi : VarInfo.t) (allocation : AllocInfo) (tok arg_ : Token) (var : AllocInfo)
    (Hvar : alloctype vi !! varId arg_ = Some var)
    (Hmanaged : managed var = true)
    (Hdealloc : status allocation <> NOALLOC)
    (Hnotalloc : isAlsoAllocating env allocation = false) :
  let r := changeAllocStatus env vi allocation tok arg_ in
  r.2 = [DoubleFreeError (Some tok) (allocTok var) (str arg_) (type allocation)]
  /\ count isDoubleFree r.2 = 1%nat
  /\ count isLeak r.2 = 0%nat
  /\ alloctype r.1 !! varId arg_ = Some (set_status (status allocation) var)
  /\ (forall k, k <> varId arg_ -> alloctype r.1 !! k = alloctype vi !! k)
  /\ possibleUsage r.1 = possibleUsage vi
  /\ conditionalAlloc r.1 = conditionalAlloc vi
  /\ referenced r.1 = referenced vi.
Proof.
  intros r. subst r. unfold changeAllocStatus.
  rewrite Hvar, Hnotalloc, Hmanaged.
  destruct (decide (status allocation = NOALLOC)) as [|_]; [contradiction|].
  simpl. repeat split; auto.
  - by rewrite lookup_insert_eq.
  - intros k Hk. by rewrite lookup_insert_ne.
Qed.

End ChangeAllocStatus.

Import Examples.

Lemma changeAllocStatus_untracked_witness :
  alloctype VarInfo.empty !! varId p_tok = None
  /\ alloctype (changeAllocStatus Examples.env VarInfo.empty
                  (newAllocInfo 1 DEALLOC (Some free_tok)) free_tok p_tok).1 !! varId p_tok
     = Some (mkAllocInfo DEALLOC 1 (-1) (Some free_tok)).
Proof.
  assert (H : alloctype VarInfo.empty !! varId p_tok = None) by reflexivity.
  refine (conj H _).
  exact (proj2 (proj2 (proj2 (proj2 (proj2
    (changeAllocStatus_untracked Examples.env VarInfo.empty
       (newAllocInfo 1 DEALLOC (Some free_tok)) free_tok p_tok H)))))).
Defined.

(** C4 (as stated) fails: [free(p)] on a variable [p] without a record
    installs a Deallocated record for [p]. *)
Lemma changeAllocStatus_untracked_installs :
  let r := changeAllocStatus Examples.env VarInfo.empty (newAllocInfo 1 DEALLOC (Some free_tok))
             free_tok p_tok in
  alloctype VarInfo.empty !! varId p_tok = None
  /\ alloctype r.1 !! varId p_tok = Some (mkAllocInfo DEALLOC 1 (-1) (Some free_tok))
  /\ alloctype r.1 <> alloctype VarInfo.empty.
Proof.
  vm_compute. repeat split. intros H. discriminate H.
Qed.

Lemma changeAllocStatus_managed_witness :
  let vi := tracking 1 (deallocated 1 free_tok) in
  let allocation := newAllocInfo 1 DEALLOC (Some free_tok) in
  alloctype vi !! varId p_tok = Some (deallocated 1 free_tok)
  /\ managed (deallocated 1 free_tok) = true
  /\ status allocation <> NOALLOC
  /\ isAlsoAllocating Examples.env allocation = false
  /\ count isDoubleFree (changeAllocStatus Examples.env vi allocation free_tok p_tok).2 = 1%nat.
Proof.
  assert (H1 : alloctype (tracking 1 (deallocated 1 free_tok)) !! varId p_tok
               = Some (deallocated 1 free_tok)) by reflexivity.
  assert (H2 : managed (deallocated 1 free_tok) = true) by reflexivity.
  assert (H3 : status (newAllocInfo 1 DEALLOC (Some free_tok)) <> NOALLOC) by discriminate.
  assert (H4 : isAlsoAllocating Examples.env (newAllocInfo 1 DEALLOC (Some free_tok)) = false)
    by reflexivity.
  refine (conj H1 (conj H2 (conj H3 (conj H4 _)))).
  exact (proj1 (proj2 (changeAllocStatus_managed Examples.env _ _ free_tok p_tok _ H1 H2 H3 H4))).
Defined.

(** C6 (as stated) fails: when the deallocating function is also an
    allocator of the library ([fdopen]), a managed record is erased and no
    double-free diagnostic is written. *)
Lemma changeAllocStatus_managed_also_allocating :
  let vi := tracking 1 (deallocated 1 free_tok) in
  let allocation := newAllocInfo 1 DEALLOC (Some fdopen_tok) in
  let r := changeAllocStatus Examples.env vi allocation fdopen_tok p_tok in
  (exists var, alloctype vi !! varId p_tok = Some var /\ managed var = true)
  /\ status allocation = DEALLOC
  /\ count isDoubleFree r.2 = 0%nat
  /\ alloctype r.1 !! varId p_tok = None.
Proof.
  repeat split.
  exists (deallocated 1 free_tok). split; reflexivity.
Qed.

(** ** [changeAllocStatusIfRealloc] *)

Section Realloc.

Context (env : Env).


End Realloc.

Section ReallocAssignment.

Context (env : Env) (limit : nat) (conditionalAlloc_ : gset Z) (recursiveCount : nat).


End ReallocAssignment.



(** ** The join after an if/else *)

Section MergeLemmas.

Import Merge.

Lemma insert_range_union {A} (src dst : gmap Z A) :
  insert_range src dst = dst ∪ src.
Proof.
  unfold insert_range.
  apply (map_fold_weak_ind (fun r (m : gmap Z A) => r = dst ∪ m)).
  - by rewrite (right_id_L ∅ (∪)).
  - intros i x m r Hi ->.
    destruct ((dst ∪ m) !! i) as [y|] eqn:Hl.
    + apply map_eq. intros j. rewrite !lookup_union.
      destruct (decide (i = j)) as [<-|Hne].
      * rewrite lookup_insert_eq, Hi. rewrite lookup_union, Hi in Hl.
        destruct (dst !! i); [reflexivity | discriminate].
      * by rewrite lookup_insert_ne.
    + apply lookup_union_None in Hl as [Hd _].
      by rewrite insert_union_r.
Qed.

Lemma dropManaged_spec (ca : gset Z) (mine : VarInfo.t) (st : VarInfo.t * VarInfo.t) :
  let r := dropManaged ca mine st in
  alloctype r.1 = alloctype st.1
  /\ possibleUsage r.1 = possibleUsage st.1
  /\ (forall k, k ∈ conditionalAlloc r.1 <->
                k ∈ conditionalAlloc st.1 /\ hit ca (alloctype mine) k = false)
  /\ (forall k, alloctype r.2 !! k =
                if hit ca (alloctype mine) k then None else alloctype st.2 !! k)
  /\ (forall k, possibleUsage r.2 !! k =
                if hit ca (alloctype mine) k then None else possibleUsage st.2 !! k).
Proof.
  unfold dropManaged.
  apply (map_fold_weak_ind (fun (r : VarInfo.t * VarInfo.t) (m : gmap Z AllocInfo) =>
    alloctype r.1 = alloctype st.1
    /\ possibleUsage r.1 = possibleUsage st.1
    /\ (forall k, k ∈ conditionalAlloc r.1 <->
                  k ∈ conditionalAlloc st.1 /\ hit ca m k = false)
    /\ (forall k, alloctype r.2 !! k = if hit ca m k then None else alloctype st.2 !! k)
    /\ (forall k, possibleUsage r.2 !! k =
                  if hit ca m k then None else possibleUsage st.2 !! k))).
  - unfold hit. split; [done|split; [done|split; [|split]]];
      intros k; rewrite lookup_empty; tauto.
  - intros i x m [varInfo other] Hi (Ha & Hp & Hc & Ho & Hu). simpl in *.
    assert (Hhit : forall k, hit ca (<[i:=x]> m) k =
                     if decide (k = i) then managed x && bool_decide (i ∈ ca)
                     else hit ca m k).
    { intros k. unfold hit. destruct (decide (k = i)) as [->|Hne].
      - by rewrite lookup_insert_eq.
      - by rewrite lookup_insert_ne. }
    assert (Hmi : hit ca m i = false) by (unfold hit; by rewrite Hi).
    destruct (managed x && bool_decide (i ∈ ca)) eqn:Hx; simpl.
    + split; [done|split; [done|split; [|split]]].
      * intros k. rewrite Hhit. split.
        -- intros Hk. apply elem_of_difference in Hk as [Hk Hni].
           apply Hc in Hk as [Hk1 Hk2]. split; [done|].
           destruct (decide (k = i)) as [->|]; [set_solver | done].
        -- intros [Hk1 Hk2].
           destruct (decide (k = i)) as [->|Hne]; [congruence|].
           apply elem_of_difference. split; [apply Hc; done | set_solver].
      * intros k. rewrite Hhit. destruct (decide (k = i)) as [->|Hne].
        -- by rewrite lookup_delete_eq.
        -- rewrite lookup_delete_ne by done. apply Ho.
      * intros k. rewrite Hhit. destruct (decide (k = i)) as [->|Hne].
        -- by rewrite lookup_delete_eq.
        -- rewrite lookup_delete_ne by done. apply Hu.
    + split; [done|split; [done|split; [|split]]].
      * intros k. rewrite Hhit, Hc.
        destruct (decide (k = i)) as [->|]; [|done].
        rewrite Hmi. tauto.
      * intros k. rewrite Hhit. destruct (decide (k = i)) as [->|Hne]; [|apply Ho].
        rewrite Ho, Hmi. reflexivity.
      * intros k. rewrite Hhit. destruct (decide (k = i)) as [->|Hne]; [|apply Hu].
        rewrite Hu, Hmi. reflexivity.
Qed.

Lemma markConditional_spec (old mine other vi : VarInfo.t) :
  let r := markConditional old mine other vi in
  alloctype r = alloctype vi
  /\ possibleUsage r = possibleUsage vi
  /\ (forall k, k ∈ conditionalAlloc r <->
                k ∈ conditionalAlloc vi
                \/ (is_Some (alloctype mine !! k) /\ alloctype other !! k = None
                    /\ alloctype old !! k = None)).
Proof.
  unfold markConditional.
  apply (map_fold_weak_ind (fun (r : VarInfo.t) (m : gmap Z AllocInfo) =>
    alloctype r = alloctype vi
    /\ possibleUsage r = possibleUsage vi
    /\ (forall k, k ∈ conditionalAlloc r <->
                  k ∈ conditionalAlloc vi
                  \/ (is_Some (m !! k) /\ alloctype other !! k = None
                      /\ alloctype old !! k = None)))).
  - split; [done|split; [done|]]. intros k. rewrite lookup_empty.
    split; [tauto|]. intros [H|[[? H] _]]; [done | discriminate H].
  - intros i x m r Hi (Ha & Hp & Hc).
    destruct (bool_decide (alloctype other !! i = None)
              && bool_decide (alloctype old !! i = None)) eqn:Hb; simpl.
    + apply andb_true_iff in Hb as [Hb1 Hb2].
      apply bool_decide_eq_true in Hb1, Hb2.
      split; [done|split; [done|]]. intros k. rewrite elem_of_union, elem_of_singleton, Hc.
      destruct (decide (k = i)) as [->|Hne].
      * rewrite lookup_insert_eq. split; [|tauto]. intros _. right. eauto.
      * rewrite lookup_insert_ne by done. tauto.
    + split; [done|split; [done|]]. intros k. rewrite Hc.
      destruct (decide (k = i)) as [->|Hne].
      * rewrite lookup_insert_eq, Hi. apply andb_false_iff in Hb.
        split; [intros [H|[[? H] _]]; [tauto | discriminate H]|].
        intros [H|(_ & H1 & H2)]; [tauto|].
        destruct Hb as [Hb|Hb]; apply bool_decide_eq_false in Hb; contradiction.
      * rewrite lookup_insert_ne by done. tauto.
Qed.

Lemma dropConditional_spec (old v1 v2 : VarInfo.t) :
  let r := dropConditional old (v1, v2) in
  let d := dropped (alloctype old) (conditionalAlloc old) v1 v2 in
  (forall k, alloctype r.1 !! k = if d k then None else alloctype v1 !! k)
  /\ (forall k, alloctype r.2 !! k = if d k then None else alloctype v2 !! k)
  /\ (forall k, possibleUsage r.1 !! k = if d k then None else possibleUsage v1 !! k)
  /\ (forall k, possibleUsage r.2 !! k = if d k then None else possibleUsage v2 !! k).
Proof.
  unfold dropConditional.
  apply (map_fold_weak_ind (fun (r : VarInfo.t * VarInfo.t) (m : gmap Z AllocInfo) =>
    let d := dropped m (conditionalAlloc old) v1 v2 in
    (forall k, alloctype r.1 !! k = if d k then None else alloctype v1 !! k)
    /\ (forall k, alloctype r.2 !! k = if d k then None else alloctype v2 !! k)
    /\ (forall k, possibleUsage r.1 !! k = if d k then None else possibleUsage v1 !! k)
    /\ (forall k, possibleUsage r.2 !! k = if d k then None else possibleUsage v2 !! k))).
  - unfold dropped. simpl. repeat split; intros k; rewrite lookup_empty;
      rewrite (bool_decide_eq_false_2 (is_Some None)); try done; by intros [? ?].
  - intros i x m [c1 c2] Hi (H1 & H2 & H3 & H4). simpl in *.
    assert (Hdi : dropped m (conditionalAlloc old) v1 v2 i = false).
    { unfold dropped. rewrite Hi.
      rewrite (bool_decide_eq_false_2 (is_Some None)); [done | by intros [? ?]]. }
    assert (Hd : forall k, k <> i ->
              dropped (<[i:=x]> m) (conditionalAlloc old) v1 v2 k
              = dropped m (conditionalAlloc old) v1 v2 k).
    { intros k Hk. unfold dropped. by rewrite lookup_insert_ne. }
    assert (Hd' : dropped (<[i:=x]> m) (conditionalAlloc old) v1 v2 i
              = bool_decide (i ∈ conditionalAlloc old)
                && (bool_decide (alloctype c1 !! i = None)
                    || bool_decide (alloctype c2 !! i = None))).
    { unfold dropped. rewrite lookup_insert_eq, H1, H2, Hdi.
      rewrite (bool_decide_eq_true_2 (is_Some (Some x))); [done | eauto]. }
    destruct (bool_decide (i ∉ conditionalAlloc old)) eqn:Hin.
    { apply bool_decide_eq_true in Hin.
      rewrite (bool_decide_eq_false_2 (i ∈ conditionalAlloc old)) in Hd' by done.
      simpl in Hd'.
      repeat split; intros k; (destruct (decide (k = i)) as [->|Hne];
        [rewrite Hd'; rewrite ?H1, ?H2, ?H3, ?H4, Hdi; reflexivity
        |rewrite Hd by done; auto]). }
    apply bool_decide_eq_false in Hin.
    rewrite (bool_decide_eq_true_2 (i ∈ conditionalAlloc old)) in Hd'
      by (destruct (decide (i ∈ conditionalAlloc old)); tauto).
    simpl in Hd'.
    destruct (bool_decide (alloctype c1 !! i = None)
              || bool_decide (alloctype c2 !! i = None)) eqn:Hm; simpl.
    + repeat split; intros k; (destruct (decide (k = i)) as [->|Hne];
        [rewrite Hd'; by rewrite lookup_delete_eq
        |rewrite Hd by done; rewrite lookup_delete_ne by done; auto]).
    + repeat split; intros k; (destruct (decide (k = i)) as [->|Hne];
        [rewrite Hd'; rewrite ?H1, ?H2, ?H3, ?H4, Hdi; reflexivity
        |rewrite Hd by done; auto]).
Qed.

(** The copies at the union and the marks of the merged state, in terms of
    the intermediate states of [mergeCopies]. *)
Lemma mergeCopies_steps (ca : gset Z) (old v1 v2 : VarInfo.t) :
  let c := dropConditional old (v1, v2) in
  let m2 := markConditional old c.2 c.1 (markConditional old c.1 c.2 VarInfo.empty) in
  let s3 := dropManaged ca c.1 (m2, c.2) in
  let s4 := dropManaged ca s3.2 (s3.1, c.1) in
  let r := mergeCopies ca old v1 v2 in
  r.2 = (s4.2, s3.2)
  /\ alloctype r.1 = alloctype s4.2 ∪ alloctype s3.2
  /\ possibleUsage r.1 = possibleUsage s4.2 ∪ possibleUsage s3.2
  /\ conditionalAlloc r.1 = conditionalAlloc s4.1.
Proof.
  intros c m2 s3 s4 r. subst c m2 s3 s4 r. unfold mergeCopies.
  destruct (dropConditional old (v1, v2)) as [c1 c2]. simpl.
  pose proof (markConditional_spec old c1 c2 VarInfo.empty) as (Ha1 & Hp1 & _).
  pose proof (markConditional_spec old c2 c1 (markConditional old c1 c2 VarInfo.empty))
    as (Ha2 & Hp2 & _).
  set (m2 := markConditional old c2 c1 (markConditional old c1 c2 VarInfo.empty)) in *.
  pose proof (dropManaged_spec ca c1 (m2, c2)) as (Ha3 & Hp3 & _).
  destruct (dropManaged ca c1 (m2, c2)) as [m3 c2']. simpl.
  pose proof (dropManaged_spec ca c2' (m3, c1)) as (Ha4 & Hp4 & _).
  destruct (dropManaged ca c2' (m3, c1)) as [m4 c1'].
  simpl in *. rewrite !insert_range_union.
  assert (Ham : alloctype m4 = ∅) by congruence.
  assert (Hpm : possibleUsage m4 = ∅) by congruence.
  rewrite Ham, Hpm, !(left_id_L ∅ (∪)). done.
Qed.

(** C5 (as amended).  The merged allocation-state map and the merged
    possible-usage map are the union of the two branch copies in which, on
    a key of both copies, the entry of the if-branch copy is kept (the first
    write wins).  For a key with a record in both post-branch copies the
    merged record is therefore that of the if-branch, except when the
    variable was conditionally allocated at the entry of the scope and only
    the else-branch record is managed: the if-branch record is then erased
    before the union and the else-branch record is kept. *)
Theorem merge_first_write_wins (ca : gset Z) (old v1 v2 : VarInfo.t) :
  let r := mergeCopies ca old v1 v2 in
  alloctype r.1 = alloctype r.2.1 ∪ alloctype r.2.2
  /\ possibleUsage r.1 = possibleUsage r.2.1 ∪ possibleUsage r.2.2
  /\ (forall k a1, alloctype r.2.1 !! k = Some a1 -> alloctype r.1 !! k = Some a1)
  /\ (forall k u1, possibleUsage r.2.1 !! k = Some u1 -> possibleUsage r.1 !! k = Some u1)
  /\ (forall k a1 a2,
        alloctype v1 !! k = Some a1 -> alloctype v2 !! k = Some a2 ->
        alloctype (merge ca old v1 v2) !! k =
          Some (if bool_decide (k ∈ ca) && negb (managed a1) && managed a2
                then a2 else a1)).
Proof.
  intros r.
  pose proof (mergeCopies_steps ca old v1 v2) as (Hc & Ha & Hp & _).
  fold r in Hc, Ha, Hp. unfold merge. fold r.
  destruct (dropConditional_spec old v1 v2) as (Hd1 & Hd2 & _).
  set (c := dropConditional old (v1, v2)) in *.
  set (m2 := markConditional old c.2 c.1 (markConditional old c.1 c.2 VarInfo.empty)) in *.
  destruct (dropManaged_spec ca c.1 (m2, c.2)) as (_ & _ & _ & H3 & _).
  set (s3 := dropManaged ca c.1 (m2, c.2)) in *.
  destruct (dropManaged_spec ca s3.2 (s3.1, c.1)) as (_ & _ & _ & H4 & _).
  set (s4 := dropManaged ca s3.2 (s3.1, c.1)) in *.
  rewrite Hc. simpl in *.
  split; [exact Ha|]. split; [exact Hp|]. split; [|split].
  - intros k a1 H. rewrite Ha. by apply lookup_union_Some_l.
  - intros k u1 H. rewrite Hp. by apply lookup_union_Some_l.
  - intros k a1 a2 Hk1 Hk2. rewrite Ha, lookup_union, H4, H3.
    assert (Hnd : dropped (alloctype old) (conditionalAlloc old) v1 v2 k = false).
    { unfold dropped. rewrite Hk1, Hk2.
      rewrite !(bool_decide_eq_false_2 (Some _ = None)) by discriminate.
      by rewrite andb_false_r. }
    unfold hit. rewrite H3. unfold hit. rewrite !Hd1, !Hd2, Hnd, Hk1, Hk2.
    destruct (managed a1), (bool_decide (k ∈ ca)) eqn:Hca; simpl;
      rewrite ?Hk1, ?Hk2, ?Hca; simpl; try reflexivity;
      destruct (managed a2); reflexivity.
Qed.

(** The join marks a variable with a record in exactly one copy and none
    before the [if], unless the record is managed and the variable was
    conditionally allocated when the scope was entered. *)
Lemma merge_marks_one_sided (ca : gset Z) (old v1 v2 : VarInfo.t) (v : Z) (a : AllocInfo) :
  alloctype old !! v = None ->
  (alloctype v1 !! v = Some a /\ alloctype v2 !! v = None)
  \/ (alloctype v1 !! v = None /\ alloctype v2 !! v = Some a) ->
  v ∈ conditionalAlloc (merge ca old v1 v2)
  <-> managed a && bool_decide (v ∈ ca) = false.
Proof.
  intros Hold Hone.
  pose proof (mergeCopies_steps ca old v1 v2) as (_ & _ & _ & Hcond).
  unfold merge. rewrite Hcond. clear Hcond.
  destruct (dropConditional_spec old v1 v2) as (Hd1 & Hd2 & _).
  set (c := dropConditional old (v1, v2)) in *.
  destruct (markConditional_spec old c.1 c.2 VarInfo.empty) as (_ & _ & Hm1).
  set (m1 := markConditional old c.1 c.2 VarInfo.empty) in *.
  destruct (markConditional_spec old c.2 c.1 m1) as (_ & _ & Hm2).
  set (m2 := markConditional old c.2 c.1 m1) in *.
  destruct (dropManaged_spec ca c.1 (m2, c.2)) as (_ & _ & Hc3 & H3 & _).
  set (s3 := dropManaged ca c.1 (m2, c.2)) in *.
  destruct (dropManaged_spec ca s3.2 (s3.1, c.1)) as (_ & _ & Hc4 & _).
  set (s4 := dropManaged ca s3.2 (s3.1, c.1)) in *.
  simpl in *.
  assert (Hnd : dropped (alloctype old) (conditionalAlloc old) v1 v2 v = false).
  { unfold dropped. rewrite Hold.
    rewrite (bool_decide_eq_false_2 (is_Some None)); [done | by intros [? ?]]. }
  rewrite Hc4, Hc3, Hm2, Hm1. unfold hit. rewrite H3. unfold hit.
  rewrite !Hd1, !Hd2, Hnd.
  destruct Hone as [[H1 H2]|[H1 H2]]; rewrite H1, H2.
  - split.
    + intros [[_ Hh] _]. exact Hh.
    + intros Hh. split; [split|]; [|exact Hh|by destruct (managed a && _)].
      left. right. eauto.
  - split.
    + intros [_ Hh]. exact Hh.
    + intros Hh. split; [split|]; [|reflexivity|exact Hh].
      right. eauto.
Qed.

End MergeLemmas.

(** C5 (as stated) fails: with different records for [p] in the two
    branch copies, the merged state keeps the record of the if-branch copy,
    not that of the else-branch copy; the same holds for the possible
    usage. *)
Lemma merge_keeps_if_branch_entry :
  let v1 := with_possibleUsage {[1 := (Some free_tok, USED)]}
              (tracking 1 (allocated 1 malloc_tok)) in
  let v2 := with_possibleUsage {[1 := (Some fdopen_tok, NORET)]}
              (tracking 1 (allocated (-1) new_tok)) in
  let merged := Merge.merge ∅ VarInfo.empty v1 v2 in
  alloctype merged !! 1 = alloctype v1 !! 1
  /\ alloctype merged !! 1 <> alloctype v2 !! 1
  /\ possibleUsage merged !! 1 = possibleUsage v1 !! 1
  /\ possibleUsage merged !! 1 <> possibleUsage v2 !! 1.
Proof.
  vm_compute. repeat split; intros H; discriminate H.
Qed.

Section Join.

Context (env : Env) (limit : nat).

(** The turn of the loop at an [if], in terms of the two recursive calls. *)
Lemma checkStmt_if (conditionalAlloc_ : gset Z) (recursiveCount : nat) (h : IfHead)
    (startToken : Token) (ifBlock : list Stmt) (ifEnd : RetSite) (els : Else) (w : Walk) :
  checkStmt env limit conditionalAlloc_ recursiveCount (SIf h startToken ifBlock ifEnd els) w
  = let w0 := emit w (condScan h (varInfo w)) in
    let vs := Condition.visit env (notzero w0) (condTree h) (varInfo w0, varInfo w0) in
    match analyseBlock env limit (skipIfBlock h) startToken ifBlock ifEnd vs.1 (notzero w0)
            recursiveCount (written w0) with
    | Thrown e l => Raise e l
    | Returned false _ l => rewalk env limit conditionalAlloc_ recursiveCount h ifBlock els w0 l
    | Returned true varInfo1 l =>
        match analyseElse env limit (skipElseBlock h) els vs.2 (notzero w0) recursiveCount l with
        | Thrown e l2 => Raise e l2
        | Returned false _ l2 => Abandon (mkWalk (clear (varInfo w0)) (notzero w0) l2)
        | Returned true varInfo2 l2 =>
            Next (mkWalk (Merge.merge conditionalAlloc_ (varInfo w0) varInfo1 varInfo2)
                         (notzero w0) l2)
        end
    end.
Proof.
  destruct els; reflexivity.
Qed.

(** C1 (as amended).  When both branches of an [if] are analysed to their
    end, the join writes no diagnostic (the diagnostics after the join are
    those after the second branch), and a variable that has a record in
    exactly one of the two post-branch copies and none in the state [w0]
    from which the two copies were made, which is the state after the
    assignments and calls inside the condition have been applied (lines
    504-559), is in the merged [conditionalAlloc] set, unless that record
    is managed and the variable was in the [conditionalAlloc] set when the
    running [checkScope] was entered, in which case it is not. *)
Theorem join_marks_conditional
    (conditionalAlloc_ : gset Z) (recursiveCount : nat) (h : IfHead) (startToken : Token)
    (ifBlock : list Stmt) (ifEnd : RetSite) (els : Else) (w : Walk)
    (varInfo1 varInfo2 : VarInfo.t) (l1 l2 : list Diag) :
  let w0 := emit w (condScan h (varInfo w)) in
  let vs := Condition.visit env (notzero w0) (condTree h) (varInfo w0, varInfo w0) in
  analyseBlock env limit (skipIfBlock h) startToken ifBlock ifEnd vs.1 (notzero w0)
    recursiveCount (written w0) = Returned true varInfo1 l1 ->
  analyseElse env limit (skipElseBlock h) els vs.2 (notzero w0) recursiveCount l1
    = Returned true varInfo2 l2 ->
  exists w',
    checkStmt env limit conditionalAlloc_ recursiveCount
      (SIf h startToken ifBlock ifEnd els) w = Next w'
    /\ written w' = l2
    /\ forall v a,
         alloctype (varInfo w0) !! v = None ->
         (alloctype varInfo1 !! v = Some a /\ alloctype varInfo2 !! v = None)
         \/ (alloctype varInfo1 !! v = None /\ alloctype varInfo2 !! v = Some a) ->
         (v ∈ conditionalAlloc (varInfo w')
          <-> managed a && bool_decide (v ∈ conditionalAlloc_) = false).
Proof.
  intros w0 vs H1 H2.
  exists (mkWalk (Merge.merge conditionalAlloc_ (varInfo w0) varInfo1 varInfo2) (notzero w0) l2).
  split; [|split; [reflexivity|]].
  - subst w0 vs. rewrite checkStmt_if. cbv zeta. rewrite H1, H2. reflexivity.
  - intros v a Hold Hone. simpl. by apply merge_marks_one_sided.
Qed.

End Join.

Lemma join_marks_conditional_witness :
  let w := mkWalk VarInfo.empty ∅ [] in
  let v1 := tracking 1 (allocated (-1) new_tok) in
  analyseBlock Examples.env 1000 false brace_tok [assign_new] inner_site VarInfo.empty ∅ 1 []
    = Returned true v1 []
  /\ analyseElse Examples.env 1000 false NoElse VarInfo.empty ∅ 1 []
     = Returned true VarInfo.empty []
  /\ exists w', checkStmt Examples.env 1000 ∅ 1 if_new w = Next w' /\ written w' = [].
Proof.
  assert (H1 : analyseBlock Examples.env 1000 false brace_tok [assign_new] inner_site
                 VarInfo.empty ∅ 1 [] = Returned true (tracking 1 (allocated (-1) new_tok)) [])
    by (vm_compute; reflexivity).
  assert (H2 : analyseElse Examples.env 1000 false NoElse VarInfo.empty ∅ 1 []
               = Returned true VarInfo.empty []) by reflexivity.
  refine (conj H1 (conj H2 _)).
  destruct (join_marks_conditional Examples.env 1000 ∅ 1 plain_if brace_tok [assign_new]
              inner_site NoElse (mkWalk VarInfo.empty ∅ []) _ _ _ _ H1 H2) as (w' & Hw & Hl & _).
  exists w'. split; assumption.
Defined.

(** A first [if (c) { p = new int; }] leaves [p] in the [conditionalAlloc]
    set, with which the block of a following [if] is entered. *)
Lemma conditional_at_scope_entry :
  exists w', checkStmt Examples.env 1000 ∅ 1 if_new (mkWalk VarInfo.empty ∅ []) = Next w'
             /\ conditionalAlloc (varInfo w') = {[1]}.
Proof.
  eexists. split; [reflexivity|]. vm_compute. reflexivity.
Qed.

(** C1 (as stated) fails: in a scope entered with [p] conditionally
    allocated, after [p = 0;] the statement [if (c) { delete p; }] leaves a
    record of [p] in the first copy only, and [p] had none before the [if];
    yet [p] is not in the merged [conditionalAlloc] set. *)
Lemma join_drops_managed_mark :
  exists v1 a w',
    analyseBlock Examples.env 1000 false brace_tok [delete_p] inner_site VarInfo.empty ∅ 2 []
      = Returned true v1 []
    /\ analyseElse Examples.env 1000 false NoElse VarInfo.empty ∅ 2 []
       = Returned true VarInfo.empty []
    /\ alloctype VarInfo.empty !! 1 = None
    /\ alloctype v1 !! 1 = Some a
    /\ checkStmt Examples.env 1000 {[1]} 2 if_delete (mkWalk VarInfo.empty ∅ []) = Next w'
    /\ 1 ∉ conditionalAlloc (varInfo w').
Proof.
  eexists _, _, _.
  split; [vm_compute; reflexivity|].
  split; [reflexivity|]. split; [reflexivity|].
  split; [vm_compute; reflexivity|].
  split; [reflexivity|].
  refine (proj1 (bool_decide_eq_false _) _). vm_compute. reflexivity.
Qed.

(** The state the join compares with is the one after the condition has
    been scanned: in [if ((p = malloc(n)) != 0) { }] the variable [p] has no
    record before the statement and a record in the if-branch copy only,
    but the record was written by the scan of the condition, and [p] is not
    in the merged [conditionalAlloc] set. *)
Lemma join_after_condition_assignment :
  let w := mkWalk VarInfo.empty ∅ [] in
  let w0 := emit w (condScan if_p_malloc (varInfo w)) in
  let copies := Condition.visit Examples.env ∅ (condTree if_p_malloc) (varInfo w0, varInfo w0) in
  exists w',
    checkStmt Examples.env 1000 ∅ 1 (SIf if_p_malloc brace_tok [] inner_site NoElse) w = Next w'
    /\ alloctype (varInfo w) !! 1 = None
    /\ alloctype (varInfo w0) !! 1 = Some (allocated 1 malloc_tok)
    /\ alloctype copies.1 !! 1 = Some (allocated 1 malloc_tok)
    /\ alloctype copies.2 !! 1 = None
    /\ alloctype (varInfo w') !! 1 = Some (allocated 1 malloc_tok)
    /\ 1 ∉ conditionalAlloc (varInfo w').
Proof.
  eexists. split; [reflexivity|].
  split; [reflexivity|]. split; [vm_compute; reflexivity|].
  split; [vm_compute; reflexivity|]. split; [vm_compute; reflexivity|].
  split; [vm_compute; reflexivity|].
  refine (proj1 (bool_decide_eq_false _) _). vm_compute. reflexivity.
Qed.

(** ** Comparisons in the condition *)

Section Comparison.

Import Condition.

Context (env : Env).

Lemma alloctype_with_alloctype (m : gmap Z AllocInfo) (vi : VarInfo.t) :
  alloctype (with_alloctype m vi) = m.
Proof. reflexivity. Qed.

Lemma reallocToAlloc_erase_eq (v : Z) (vi : VarInfo.t) :
  alloctype (erase v (reallocToAlloc v vi)) !! v = None.
Proof. apply erase_alloctype_eq. Qed.

Lemma reallocToAlloc_erase_ne (v : Z) (vi : VarInfo.t) (k : Z) :
  k <> v ->
  alloctype (erase v (reallocToAlloc v vi)) !! k =
    match alloctype vi !! k with
    | Some a => Some (if undone v vi k a then set_status ALLOC a else a)
    | None => None
    end.
Proof.
  intros Hk. rewrite erase_alloctype_ne by done.
  unfold reallocToAlloc, undone.
  assert (Hat : at_ v (touch v (alloctype vi)) = at_ v (alloctype vi)).
  { unfold at_ at 1, touch. by rewrite lookup_insert_eq. }
  rewrite Hat. set (from := reallocedFromType (at_ v (alloctype vi))).
  assert (Htk : touch v (alloctype vi) !! k = alloctype vi !! k).
  { unfold touch. by rewrite lookup_insert_ne. }
  destruct (decide (k = from)) as [->|Hkf].
  - rewrite (bool_decide_eq_true_2 (from = from)) by done. simpl.
    destruct (0 <=? from) eqn:Hpos; simpl.
    + rewrite Htk. destruct (alloctype vi !! from) as [a|] eqn:Hfrom.
      * destruct (decide (status a = REALLOC)) as [Hs|Hs].
        -- rewrite ?alloctype_with_alloctype, lookup_insert_eq.
           by rewrite (bool_decide_eq_true_2 _ Hs).
        -- rewrite ?alloctype_with_alloctype, Htk, ?Hfrom.
           by rewrite (bool_decide_eq_false_2 _ Hs).
      * by rewrite ?alloctype_with_alloctype, Htk, ?Hfrom.
    + rewrite ?alloctype_with_alloctype, Htk. by destruct (alloctype vi !! from).
  - rewrite (bool_decide_eq_false_2 (k = from)) by done. simpl.
    assert (Hgoal : forall m', (m' = touch v (alloctype vi)
                       \/ exists a, m' = <[from := a]> (touch v (alloctype vi))) ->
              m' !! k = match alloctype vi !! k with Some a => Some a | None => None end).
    { intros m' [->|[a ->]]; rewrite ?lookup_insert_ne by done;
        rewrite Htk; by destruct (alloctype vi !! k). }
    destruct (0 <=? from); [|apply Hgoal; by left].
    destruct (touch v (alloctype vi) !! from) as [a|]; [|apply Hgoal; by left].
    destruct (decide (status a = REALLOC)); apply Hgoal; [right; eauto | by left].
Qed.

(** The two lists of lines 58-59 share no comparison: a failure comparison
    is no success comparison. *)
Lemma failed_not_success (tok3 : Node) (vartok : Token) :
  isVarTokComparison tok3 alloc_failed_conds = Some vartok ->
  isVarTokComparison tok3 alloc_success_conds = None.
Proof.
  unfold isVarTokComparison, alloc_failed_conds, alloc_success_conds, astIsVariableComparison.
  cbn [fst snd].
  destruct (isComparisonOp tok3); [|discriminate]. cbn [andb].
  repeat match goal with
         | |- context [bool_decide (nodeStr tok3 = ?s)] =>
             destruct (decide (nodeStr tok3 = s)) as [?|?];
             [rewrite (bool_decide_eq_true_2 (nodeStr tok3 = s)) by assumption
             |rewrite (bool_decide_eq_false_2 (nodeStr tok3 = s)) by assumption]
         | |- context [bool_decide (rhsStr tok3 = ?s)] =>
             destruct (decide (rhsStr tok3 = s)) as [?|?];
             [rewrite (bool_decide_eq_true_2 (rhsStr tok3 = s)) by assumption
             |rewrite (bool_decide_eq_false_2 (rhsStr tok3 = s)) by assumption]
         end; cbn [andb]; try congruence; try (intros _; reflexivity).
Qed.

(** The visit of one node, lines 596-616, and of one parameter of a call,
    lines 583-592. *)
Lemma visitNode_comparison
    (notzero_ : gset Z) (tok3 : Node) (varInfo1 varInfo2 : VarInfo.t) :
  let r := visitNode env notzero_ tok3 (varInfo1, varInfo2) in
  (forall vartok,
     isVarTokComparison tok3 alloc_success_conds = Some vartok ->
     alloctype r.2 !! varId vartok = None
     /\ r.1 = (if clearsIf env tok3 varInfo1 then VarInfo.empty else varInfo1)
     /\ (clearsElse notzero_ tok3 = false ->
         forall k a, k <> varId vartok -> alloctype varInfo2 !! k = Some a ->
           alloctype r.2 !! k
           = Some (if undone (varId vartok) varInfo2 k a then set_status ALLOC a else a)))
  /\ (forall vartok,
        isVarTokComparison tok3 alloc_success_conds = None ->
        isVarTokComparison tok3 alloc_failed_conds = Some vartok ->
        alloctype r.1 !! varId vartok = None
        /\ r.2 = varInfo2
        /\ forall k a, k <> varId vartok -> alloctype varInfo1 !! k = Some a ->
             alloctype r.1 !! k
             = Some (if undone (varId vartok) varInfo1 k a then set_status ALLOC a else a))
  /\ (forall vartok,
        isComparisonOp tok3 = true ->
        isVarTokComparison tok3 alloc_success_conds = Some vartok
        \/ (isVarTokComparison tok3 alloc_success_conds = None
            /\ isVarTokComparison tok3 alloc_failed_conds = Some vartok) ->
        let r' := visitParam tok3 (varInfo1, varInfo2) in
        alloctype r'.1 !! varId vartok = None /\ alloctype r'.2 !! varId vartok = None).
Proof.
  intros r. subst r. split; [|split].
  - intros vartok Hs. unfold visitNode. rewrite Hs. cbn [fst snd]. split; [|split].
    + destruct (clearsElse notzero_ tok3); [reflexivity | apply reallocToAlloc_erase_eq].
    + by destruct (clearsIf env tok3 varInfo1).
    + intros -> k a Hk Ha. rewrite reallocToAlloc_erase_ne by done. by rewrite Ha.
  - intros vartok Hs Hf. unfold visitNode. rewrite Hs, Hf. cbn [fst snd]. split; [|split].
    + apply reallocToAlloc_erase_eq.
    + reflexivity.
    + intros k a Hk Ha. rewrite reallocToAlloc_erase_ne by done. by rewrite Ha.
  - intros vartok Hcmp Hv r'. subst r'. unfold visitParam. rewrite Hcmp. cbn [negb].
    destruct Hv as [Hs|[Hs Hf]]; rewrite Hs, ?Hf; cbn [fst snd];
      split; apply erase_alloctype_eq.
Qed.

End Comparison.

Section ConditionScan.

Import Condition.

Context (env : Env) (limit : nat).

Lemma visitNode_keeps_absent (notzero_ : gset Z) (tok3 : Node) (vs : VarInfo.t * VarInfo.t)
    (v : Z) :
  (alloctype vs.1 !! v = None -> alloctype (visitNode env notzero_ tok3 vs).1 !! v = None)
  /\ (alloctype vs.2 !! v = None -> alloctype (visitNode env notzero_ tok3 vs).2 !! v = None).
Proof.
  destruct vs as [varInfo1 varInfo2]. unfold visitNode. cbn [fst snd].
  assert (Hkeep : forall v' vi, alloctype vi !! v = None ->
            alloctype (erase v' (reallocToAlloc v' vi)) !! v = None).
  { intros v' vi Hv. destruct (decide (v = v')) as [->|Hne].
    - apply erase_alloctype_eq.
    - rewrite reallocToAlloc_erase_ne by done. by rewrite Hv. }
  destruct (isVarTokComparison tok3 alloc_success_conds) as [vartok|]; cbn [fst snd].
  - split.
    + intros Hv. by destruct (clearsIf env tok3 varInfo1).
    + intros Hv. destruct (clearsElse notzero_ tok3); [reflexivity | by apply Hkeep].
  - destruct (isVarTokComparison tok3 alloc_failed_conds) as [vartok|]; cbn [fst snd].
    + split; [apply Hkeep | done].
    + done.
Qed.

Lemma visitParam_keeps_absent (par : Node) (vs : VarInfo.t * VarInfo.t) (v : Z) :
  (alloctype vs.1 !! v = None -> alloctype (visitParam par vs).1 !! v = None)
  /\ (alloctype vs.2 !! v = None -> alloctype (visitParam par vs).2 !! v = None).
Proof.
  assert (Hkeep : forall v' vi, alloctype vi !! v = None -> alloctype (erase v' vi) !! v = None).
  { intros v' vi Hv. destruct (decide (v = v')) as [->|Hne].
    - apply erase_alloctype_eq.
    - by rewrite erase_alloctype_ne. }
  unfold visitParam. destruct (negb (isComparisonOp par)); [done|].
  destruct (isVarTokComparison par alloc_success_conds) as [vartok|]; cbn [fst snd].
  - split; apply Hkeep.
  - destruct (isVarTokComparison par alloc_failed_conds) as [vartok|]; cbn [fst snd];
      [split; apply Hkeep | done].
Qed.

(** The scan of the condition never adds a record to a copy. *)
Lemma visit_keeps_absent (notzero_ : gset Z) (c : Cond) (v : Z) :
  forall vs,
    (alloctype vs.1 !! v = None -> alloctype (visit env notzero_ c vs).1 !! v = None)
    /\ (alloctype vs.2 !! v = None -> alloctype (visit env notzero_ c vs).2 !! v = None).
Proof.
  induction c as [|op1 IH1 op2 IH2|op2 IH2|params|tok3]; intros vs; simpl.
  - done.
  - destruct (IH1 vs) as [H11 H12].
    destruct (IH2 (visit env notzero_ op1 vs)) as [H21 H22]. split; auto.
  - apply IH2.
  - revert vs. induction params as [|par params IHp]; intros vs; simpl; [done|].
    destruct (visitParam_keeps_absent par vs v) as [H1 H2].
    destruct (IHp (visitParam par vs)) as [H3 H4]. split; auto.
  - apply visitNode_keeps_absent.
Qed.

(** After the scan, the variable of a success comparison has no record in
    the else-branch copy and that of a failure comparison none in the
    if-branch copy, wherever the comparison stands below [&&] and [||]. *)
Lemma visit_comparison_absent (notzero_ : gset Z) (c : Cond) (tok3 : Node) (vartok : Token) :
  tok3 ∈ nodes c ->
  forall vs,
    (isVarTokComparison tok3 alloc_success_conds = Some vartok ->
     alloctype (visit env notzero_ c vs).2 !! varId vartok = None)
    /\ (isVarTokComparison tok3 alloc_success_conds = None ->
        isVarTokComparison tok3 alloc_failed_conds = Some vartok ->
        alloctype (visit env notzero_ c vs).1 !! varId vartok = None).
Proof.
  induction c as [|op1 IH1 op2 IH2|op2 IH2|params|tok3']; simpl; intros Hin vs.
  - by apply not_elem_of_nil in Hin.
  - apply elem_of_app in Hin as [Hin|Hin].
    + destruct (IH1 Hin vs) as [H1 H2].
      destruct (visit_keeps_absent notzero_ op2 (varId vartok) (visit env notzero_ op1 vs))
        as [K1 K2].
      split; [intros Hs; apply K2, H1, Hs | intros Hs Hf; apply K1, H2; assumption].
    + apply (IH2 Hin).
  - apply (IH2 Hin).
  - by apply not_elem_of_nil in Hin.
  - apply list_elem_of_singleton in Hin as ->.
    destruct vs as [varInfo1 varInfo2].
    destruct (visitNode_comparison env notzero_ tok3' varInfo1 varInfo2) as (Hs & Hf & _).
    split.
    + intros H. apply (Hs vartok H).
    + intros H H'. apply (Hf vartok H H').
Qed.

(** C3 (as amended).  The two branches of an [if] are analysed from the
    copies that the scan of the condition leaves.  For a success comparison
    anywhere in the condition below [&&], [||] and the wrappers, its
    variable has no record in the else-branch copy; for a failure
    comparison, none in the if-branch copy.  When the condition is just the
    comparison, the other copy is the state as it was (the if-branch copy
    is cleared as a whole when a success comparison checks an out-parameter
    allocation), and in the copy that loses the variable the record of the
    variable it was reallocated from, when Reallocated, is Allocated again
    and the other records are unchanged (the else-branch copy is cleared as
    a whole when the comparison is [!= 0] and the variable is known to be
    non-zero). *)
Theorem condition_comparison
    (conditionalAlloc_ : gset Z) (recursiveCount : nat) (h : IfHead) (startToken : Token)
    (ifBlock : list Stmt) (ifEnd : RetSite) (els : Else) (w : Walk) :
  let w0 := emit w (condScan h (varInfo w)) in
  let copies := visit env (notzero w0) (condTree h) (varInfo w0, varInfo w0) in
  checkStmt env limit conditionalAlloc_ recursiveCount (SIf h startToken ifBlock ifEnd els) w
  = ifFrom env limit conditionalAlloc_ recursiveCount h startToken ifBlock ifEnd els w0 copies
  /\ (forall tok3 vartok,
        tok3 ∈ nodes (condTree h) ->
        isVarTokComparison tok3 alloc_success_conds = Some vartok ->
        alloctype copies.2 !! varId vartok = None)
  /\ (forall tok3 vartok,
        tok3 ∈ nodes (condTree h) ->
        isVarTokComparison tok3 alloc_failed_conds = Some vartok ->
        alloctype copies.1 !! varId vartok = None)
  /\ (forall tok3 vartok,
        condTree h = CNode tok3 ->
        isVarTokComparison tok3 alloc_success_conds = Some vartok ->
        copies.1 = (if clearsIf env tok3 (varInfo w0) then VarInfo.empty else varInfo w0)
        /\ copies.2 = (if clearsElse (notzero w0) tok3 then VarInfo.empty
                      else erase (varId vartok) (reallocToAlloc (varId vartok) (varInfo w0)))
        /\ (clearsElse (notzero w0) tok3 = false ->
            forall k a, k <> varId vartok -> alloctype (varInfo w0) !! k = Some a ->
              alloctype copies.2 !! k
              = Some (if undone (varId vartok) (varInfo w0) k a then set_status ALLOC a else a)))
  /\ (forall tok3 vartok,
        condTree h = CNode tok3 ->
        isVarTokComparison tok3 alloc_failed_conds = Some vartok ->
        copies.2 = varInfo w0
        /\ copies.1 = erase (varId vartok) (reallocToAlloc (varId vartok) (varInfo w0))
        /\ forall k a, k <> varId vartok -> alloctype (varInfo w0) !! k = Some a ->
             alloctype copies.1 !! k
             = Some (if undone (varId vartok) (varInfo w0) k a then set_status ALLOC a else a)).
Proof.
  intros w0 copies. split; [|split; [|split; [|split]]].
  - subst copies w0. rewrite checkStmt_if. reflexivity.
  - intros tok3 vartok Hin Hs.
    apply (proj1 (visit_comparison_absent (notzero w0) (condTree h) tok3 vartok Hin _) Hs).
  - intros tok3 vartok Hin Hf. pose proof (failed_not_success tok3 vartok Hf) as Hs.
    apply (proj2 (visit_comparison_absent (notzero w0) (condTree h) tok3 vartok Hin _) Hs Hf).
  - intros tok3 vartok Hc Hs. subst copies. rewrite Hc. cbn [visit].
    unfold visitNode. rewrite Hs. cbn [fst snd]. split; [|split].
    + by destruct (clearsIf env tok3 (varInfo w0)).
    + by destruct (clearsElse (notzero w0) tok3).
    + intros -> k a Hk Ha. rewrite reallocToAlloc_erase_ne by done. by rewrite Ha.
  - intros tok3 vartok Hc Hf. pose proof (failed_not_success tok3 vartok Hf) as Hs.
    subst copies. rewrite Hc. cbn [visit].
    unfold visitNode. rewrite Hs, Hf. cbn [fst snd]. split; [reflexivity|]. split; [reflexivity|].
    intros k a Hk Ha. rewrite reallocToAlloc_erase_ne by done. by rewrite Ha.
Qed.

End ConditionScan.

(** C3 (as stated) fails: after [q = realloc(p, n);] the branches of
    [if (q != 0)] are analysed from copies of which the else-branch copy
    has lost the record of [q], and has [p] Allocated again, while the
    if-branch copy keeps the record of [q]; and those of [if (q == 0)] from
    copies of which the else-branch copy keeps the record of [q]. *)
Lemma condition_comparison_keeps_one_copy :
  let copies := Condition.visit Examples.env ∅ (condTree if_q_not_null)
                  (after_realloc, after_realloc) in
  let copies' := Condition.visit Examples.env ∅ (condTree if_q_null)
                   (after_realloc, after_realloc) in
  Condition.isVarTokComparison q_not_null Condition.alloc_success_conds = Some q_tok
  /\ checkStmt Examples.env 1000 ∅ 1 (SIf if_q_not_null brace_tok [] inner_site NoElse)
       (mkWalk after_realloc ∅ [])
     = ifFrom Examples.env 1000 ∅ 1 if_q_not_null brace_tok [] inner_site NoElse
         (mkWalk after_realloc ∅ []) copies
  /\ alloctype copies.2 !! 2 = None
  /\ status <$> alloctype copies.2 !! 1 = Some ALLOC
  /\ alloctype copies.1 !! 2 = Some (mkAllocInfo ALLOC 1 1 (Some realloc_tok))
  /\ Condition.isVarTokComparison q_null Condition.alloc_failed_conds = Some q_tok
  /\ alloctype copies'.1 !! 2 = None
  /\ alloctype copies'.2 !! 2 = Some (mkAllocInfo ALLOC 1 1 (Some realloc_tok)).
Proof.
  split; [reflexivity|]. split; [reflexivity|]. vm_compute. repeat split.
Qed.

(** ** Smart pointers and throw statements *)

Section Statements.

Context (env : Env) (limit : nat) (conditionalAlloc_ : gset Z) (recursiveCount : nat).

(** C9 (as amended).  At the construction of a smart pointer from a
    variable, with a deleter that names no library deallocator and whose
    body cannot be found: when the pointer is released from the smart
    pointer later in the block ([isPointerReleased], line 790) the
    statement is skipped before the deleter is looked at and nothing
    changes; otherwise the whole state is cleared, so that no variable is
    tracked afterwards.  Either way nothing is written and the walk goes
    on. *)
Theorem smartPointer_unresolved_deleter (p : SmartPointer) (d : Deleter) (w : Walk) :
  spDeleter p = Some d ->
  (forall f, deleterFunction d = Some f -> getDeallocFuncInfo env f = None) ->
  deleterBody d = None ->
  checkStmt env limit conditionalAlloc_ recursiveCount (SSmartPointer p) w
  = Next (if spReleased p then w else mkWalk VarInfo.empty (notzero w) (written w)).
Proof.
  intros Hd Hf Hbody. simpl. unfold doSmartPointer, resolveDeleter.
  destruct (spReleased p); [reflexivity|]. rewrite Hd, Hbody.
  assert (Hnone : from_option (getDeallocFuncInfo env) None (deleterFunction d) = None).
  { destruct (deleterFunction d) as [f|]; [apply Hf; reflexivity | reflexivity]. }
  rewrite Hnone. unfold emit. simpl. by rewrite app_nil_r.
Qed.

Lemma tryFoundFrom_chain (scope : Scope) :
  tryFoundFrom scope = true <-> In eTry (executableChain scope).
Proof.
  induction scope as [|ty nested IH]; simpl.
  - split; [discriminate | contradiction].
  - destruct (isExecutable ty) eqn:He.
    + rewrite orb_true_iff, IH. simpl. split.
      * intros [H|H]; [left | right; exact H]. by destruct ty.
      * intros [H|H]; [left | right; exact H]. by subst ty.
    + split; [discriminate | contradiction].
Qed.

(** C10 (as amended).  At a [throw] of C++ code: when a try block is among
    the scopes reached from the scope of the statement through enclosing
    executable scopes, the state is cleared and nothing is written; when
    none is, be it that a try block lies beyond a scope that is not
    executable, the statement is treated as a [return]: [ret] reports, then
    the state is cleared. *)
Theorem throw_statement (t : Throw) (w : Walk) :
  throwIsCpp t = true ->
  (In eTry (executableChain (throwScope t)) ->
   checkStmt env limit conditionalAlloc_ recursiveCount (SThrow t) w
   = Next (mkWalk VarInfo.empty (notzero w) (written w)))
  /\ (~ In eTry (executableChain (throwScope t)) ->
      checkStmt env limit conditionalAlloc_ recursiveCount (SThrow t) w
      = checkStmt env limit conditionalAlloc_ recursiveCount (SReturn (throwSite t)) w
      /\ checkStmt env limit conditionalAlloc_ recursiveCount (SThrow t) w
         = Next (mkWalk VarInfo.empty (notzero w)
                   (written w ++ (ret env (throwSite t) false (varInfo w)).2))).
Proof.
  intros Hcpp. simpl. rewrite Hcpp. unfold doThrow, doReturn. split.
  - intros Hin. apply tryFoundFrom_chain in Hin. rewrite Hin.
    unfold emit. simpl. by rewrite app_nil_r.
  - intros Hnin. destruct (tryFoundFrom (throwScope t)) eqn:Ht.
    + exfalso. apply Hnin. by apply tryFoundFrom_chain.
    + split; reflexivity.
Qed.

End Statements.

Lemma smartPointer_unresolved_deleter_witness :
  spDeleter unresolved_sp = Some (mkDeleter None None)
  /\ deleterBody (mkDeleter None None) = None
  /\ checkStmt Examples.env 1000 ∅ 1 (SSmartPointer unresolved_sp) (mkWalk two_allocated ∅ [])
     = Next (mkWalk VarInfo.empty ∅ []).
Proof.
  refine (conj eq_refl (conj eq_refl _)).
  apply (smartPointer_unresolved_deleter Examples.env 1000 ∅ 1 unresolved_sp
           (mkDeleter None None) (mkWalk two_allocated ∅ [])).
  - reflexivity.
  - intros f Hf. discriminate Hf.
  - reflexivity.
Defined.

(** C9 (as stated) fails: with [p] and [q] tracked, a smart pointer that
    wraps [p] with a deleter that cannot be checked removes the record of
    [q] as well. *)
Lemma smartPointer_unresolved_clears_others :
  exists w',
    checkStmt Examples.env 1000 ∅ 1 (SSmartPointer unresolved_sp) (mkWalk two_allocated ∅ [])
    = Next w'
    /\ varId (spVarTok unresolved_sp) = 1
    /\ alloctype two_allocated !! 2 = Some (allocated (-1) new_tok)
    /\ alloctype (varInfo w') !! 2 = None.
Proof.
  eexists. split; [reflexivity|]. repeat split.
Qed.

Lemma throw_statement_witness :
  throwIsCpp throw_in_try = true
  /\ In eTry (executableChain (throwScope throw_in_try))
  /\ checkStmt Examples.env 1000 ∅ 1 (SThrow throw_in_try) (mkWalk two_allocated ∅ [])
     = Next (mkWalk VarInfo.empty ∅ []).
Proof.
  assert (Hin : In eTry (executableChain (throwScope throw_in_try)))
    by (simpl; right; left; reflexivity).
  refine (conj eq_refl (conj Hin _)).
  exact (proj1 (throw_statement Examples.env 1000 ∅ 1 throw_in_try
                  (mkWalk two_allocated ∅ []) eq_refl) Hin).
Defined.

(** C10 (as stated) fails: a [throw] in a member function of a class
    defined inside a try block is lexically inside that try block, yet it
    is treated as a [return] and the allocated [p] is reported as a leak. *)
Lemma throw_in_local_class_reports :
  exists w',
    In eTry (enclosing (throwScope throw_in_local_class))
    /\ checkStmt Examples.env 1000 ∅ 1 (SThrow throw_in_local_class)
         (mkWalk (tracking 1 (allocated (-1) new_tok)) ∅ []) = Next w'
    /\ written w' = [LeakError (Some throw_tok) "p" (-1)].
Proof.
  eexists. split; [simpl; tauto|]. split; [reflexivity|]. vm_compute. reflexivity.
Qed.

(** ** Abandon *)

Section StmtInduction.

Context (P : Stmt -> Prop).
Context (HBeforeDispatch : forall before, P (SBeforeDispatch before)).
Context (HTokens : forall toks, P (STokens toks)).
Context (HAssign : forall a, P (SAssign a)).
Context (HIf : forall h startToken ifBlock ifEnd els,
            Forall P ifBlock ->
            match els with
            | NoElse => True
            | ElseBlock _ elseBlock _ => Forall P elseBlock
            end ->
            P (SIf h startToken ifBlock ifEnd els)).
Context (HUnknownControl : P SUnknownControl).
Context (HReturn : forall site, P (SReturn site)).
Context (HThrow : forall t, P (SThrow t)).
Context (HDelete : forall d, P (SDelete d)).
Context (HCall : forall c, P (SCall c)).
Context (HGoto : P SGoto).
Context (HBreakContinue : P SBreakContinue).
Context (HSmartPointer : forall p, P (SSmartPointer p)).
Context (HOther : P SOther).

(** Induction over statements, with the hypothesis for every statement of
    the blocks of an [if]. *)
Lemma Stmt_nested_ind : forall s, P s.
Proof.
  fix IH 1. intros [b|toks|a|h startToken ifBlock ifEnd els| |site|t|d|c| | |p| ].
  - apply HBeforeDispatch.
  - apply HTokens.
  - apply HAssign.
  - apply HIf.
    + induction ifBlock as [|s l IHl]; constructor; [apply IH | exact IHl].
    + destruct els as [|elseStart elseBlock elseEnd]; [exact I|].
      induction elseBlock as [|s l IHl]; constructor; [apply IH | exact IHl].
  - apply HUnknownControl.
  - apply HReturn.
  - apply HThrow.
  - apply HDelete.
  - apply HCall.
  - apply HGoto.
  - apply HBreakContinue.
  - apply HSmartPointer.
  - apply HOther.
Qed.

End StmtInduction.

Section Abandon.

Context (env : Env) (limit : nat).

Lemma walkWith_app (step : Stmt -> Walk -> Step) (pre l : list Stmt) (w : Walk) :
  walkWith step (pre ++ l) w
  = match walkWith step pre w with
    | Next w' => walkWith step l w'
    | other => other
    end.
Proof.
  revert w. induction pre as [|s pre IH]; intros w; simpl; [reflexivity|].
  destruct (step s w); [apply IH | reflexivity | reflexivity].
Qed.

Lemma walk_kindStable (l : list Stmt) :
  Forall (kindStable env limit) l ->
  forall rc rc' ca ca' w w' b,
    stepKind (walkWith (checkStmt env limit ca rc) l w) = Some b -> (rc' <= rc)%nat ->
    stepKind (walkWith (checkStmt env limit ca' rc') l w') = Some b.
Proof.
  induction 1 as [|s l Hs _ IH]; intros rc rc' ca ca' w w' b Hk Hle; simpl in *.
  - exact Hk.
  - destruct (checkStmt env limit ca rc s w) as [w1|w1|e1 l1] eqn:E1.
    + pose proof (Hs rc rc' ca ca' w w' true) as Hs'. rewrite E1 in Hs'.
      specialize (Hs' eq_refl Hle).
      destruct (checkStmt env limit ca' rc' s w') as [w2|w2|e2 l2]; try discriminate.
      eapply IH; eassumption.
    + pose proof (Hs rc rc' ca ca' w w' false) as Hs'. rewrite E1 in Hs'.
      specialize (Hs' eq_refl Hle).
      destruct (checkStmt env limit ca' rc' s w') as [w2|w2|e2 l2]; try discriminate.
      exact Hk.
    + discriminate.
Qed.

Lemma checkScope_kind (startToken : Token) (body : list Stmt) (endSite : RetSite)
    (vi : VarInfo.t) (nz : gset Z) (rc : nat) (log : list Diag) :
  resultKind (checkScope env limit startToken body endSite vi nz rc log)
  = if (limit <? S rc)%nat then None
    else stepKind (walkWith (checkStmt env limit (conditionalAlloc vi) (S rc)) body
                     (mkWalk vi nz log)).
Proof.
  unfold checkScope, checkScopeWith.
  destruct (limit <? S rc)%nat; [reflexivity|].
  by destruct (walkWith _ body _).
Qed.

Lemma analyseBlock_kindStable (skip : bool) (startToken : Token) (body : list Stmt)
    (endSite : RetSite) :
  Forall (kindStable env limit) body ->
  forall vi vi' nz nz' rc rc' log log' b,
    resultKind (analyseBlock env limit skip startToken body endSite vi nz rc log) = Some b ->
    (rc' <= rc)%nat ->
    resultKind (analyseBlock env limit skip startToken body endSite vi' nz' rc' log') = Some b.
Proof.
  intros Hbody vi vi' nz nz' rc rc' log log' b Hk Hle.
  unfold analyseBlock in *. destruct skip; [exact Hk|].
  rewrite checkScope_kind in Hk |- *.
  destruct (limit <? S rc)%nat eqn:Hl; [discriminate|].
  apply Nat.ltb_ge in Hl.
  replace (limit <? S rc')%nat with false by (symmetry; apply Nat.ltb_ge; lia).
  eapply walk_kindStable; [exact Hbody | exact Hk | lia].
Qed.

Lemma analyseBlock_abandon_walk (skip : bool) (startToken : Token) (body : list Stmt)
    (endSite : RetSite) (vi v1 : VarInfo.t) (nz : gset Z) (rc : nat) (log l1 : list Diag) :
  analyseBlock env limit skip startToken body endSite vi nz rc log = Returned false v1 l1 ->
  stepKind (walkWith (checkStmt env limit (conditionalAlloc vi) (S rc)) body
              (mkWalk vi nz log)) = Some false.
Proof.
  intros H. pose proof (f_equal resultKind H) as Hk. simpl in Hk.
  unfold analyseBlock in Hk. destruct skip; [discriminate|].
  rewrite checkScope_kind in Hk. by destruct (limit <? S rc)%nat.
Qed.

Lemma rewalk_abandons (ca : gset Z) (rc : nat) (h : IfHead) (startToken : Token)
    (ifBlock : list Stmt) (ifEnd : RetSite) (els : Else) (skip : bool)
    (vi v1 : VarInfo.t) (nz : gset Z) (log l1 : list Diag) (w0 : Walk) (l : list Diag) :
  Forall (kindStable env limit) ifBlock ->
  analyseBlock env limit skip startToken ifBlock ifEnd vi nz rc log = Returned false v1 l1 ->
  stepKind (rewalk env limit ca rc h ifBlock els w0 l) = Some false.
Proof.
  intros Hbody H. apply analyseBlock_abandon_walk in H.
  unfold rewalk.
  match goal with |- context [walkWith ?f ifBlock ?w] =>
    pose proof (walk_kindStable ifBlock Hbody (S rc) rc (conditionalAlloc vi) ca
                  (mkWalk vi nz log) w false H (Nat.le_succ_diag_r rc)) as Hw;
    destruct (walkWith f ifBlock w); try discriminate
  end.
  reflexivity.
Qed.

Lemma checkStmt_kindStable : forall s, kindStable env limit s.
Proof.
  apply Stmt_nested_ind; try (intros; intros rc rc' ca ca' w w' b Hk Hle; exact Hk).
  2: { intros t rc rc' ca ca' w w' b Hk Hle. simpl in *.
       destruct (throwIsCpp t); exact Hk. }
  - intros h startToken ifBlock ifEnd els Hif Helse rc rc' ca ca' w w' b Hk Hle.
    rewrite checkStmt_if in Hk |- *. cbv zeta in *.
    match type of Hk with context [analyseBlock env limit ?sk ?st ?bd ?en ?vi ?nz rc ?lg] =>
      destruct (analyseBlock env limit sk st bd en vi nz rc lg) as [[|] v1 l1|e1 l1] eqn:E1
    end; [| |discriminate].
    + match goal with |- context [analyseBlock env limit ?sk ?st ?bd ?en ?vi ?nz rc' ?lg] =>
        pose proof (analyseBlock_kindStable sk st bd en Hif _ vi _ nz _ rc' _ lg true
                      (f_equal resultKind E1) Hle) as E1';
        destruct (analyseBlock env limit sk st bd en vi nz rc' lg) as [[|] v1' l1'|e1' l1'];
          try discriminate
      end.
      destruct els as [|elseStart elseBlock elseEnd]; [exact Hk|].
      unfold analyseElse in *.
      match type of Hk with context [analyseBlock env limit ?sk ?st ?bd ?en ?vi ?nz rc ?lg] =>
        destruct (analyseBlock env limit sk st bd en vi nz rc lg) as [b2 v2 l2|e2 l2] eqn:E2
      end; [|discriminate].
      match goal with |- context [analyseBlock env limit ?sk ?st ?bd ?en ?vi ?nz rc' ?lg] =>
        pose proof (analyseBlock_kindStable sk st bd en Helse _ vi _ nz _ rc' _ lg b2
                      (f_equal resultKind E2) Hle) as E2';
        destruct (analyseBlock env limit sk st bd en vi nz rc' lg) as [b2' v2' l2'|e2' l2'];
          try discriminate
      end.
      simpl in E2'. injection E2' as ->. destruct b2; exact Hk.
    + match goal with |- context [analyseBlock env limit ?sk ?st ?bd ?en ?vi ?nz rc' ?lg] =>
        pose proof (analyseBlock_kindStable sk st bd en Hif _ vi _ nz _ rc' _ lg false
                      (f_equal resultKind E1) Hle) as E1';
        destruct (analyseBlock env limit sk st bd en vi nz rc' lg) as [[|] v1' l1'|e1' l1'] eqn:E1'';
          try discriminate
      end.
      erewrite rewalk_abandons in Hk by eassumption.
      erewrite rewalk_abandons by eassumption. exact Hk.
Qed.

Lemma walk_abandonClears (l : list Stmt) :
  Forall (abandonClears env limit) l ->
  forall ca rc w w',
    walkWith (checkStmt env limit ca rc) l w = Abandon w' -> varInfo w' = VarInfo.empty.
Proof.
  induction 1 as [|s l Hs _ IH]; intros ca rc w w' Hw; simpl in Hw; [discriminate|].
  destruct (checkStmt env limit ca rc s w) as [w1|w1|e1 l1] eqn:E1.
  - eapply IH; eassumption.
  - injection Hw as <-. eapply Hs; eassumption.
  - discriminate.
Qed.

Lemma checkStmt_abandonClears : forall s, abandonClears env limit s.
Proof.
  apply Stmt_nested_ind; try (intros; intros ca rc w w' Hw; simpl in Hw; discriminate);
    try (intros ca rc w w' Hw; simpl in Hw; injection Hw as <-; reflexivity).
  - intros h startToken ifBlock ifEnd els Hif Helse ca rc w w' Hw.
    rewrite checkStmt_if in Hw. cbv zeta in Hw.
    destruct (analyseBlock _ _ _ _ _ _ _ _ _ _) as [[|] v1 l1|e1 l1]; [| |discriminate].
    + destruct (analyseElse _ _ _ _ _ _ _ _) as [[|] v2 l2|e2 l2]; try discriminate.
      injection Hw as <-. reflexivity.
    + unfold rewalk in Hw.
      destruct (walkWith _ ifBlock _) as [w1|w1|e l] eqn:E1; [| |discriminate].
      * destruct els as [|elseStart elseBlock elseEnd]; [discriminate|].
        eapply walk_abandonClears; eassumption.
      * injection Hw as <-. eapply walk_abandonClears; eassumption.
  - intros t ca rc w w' Hw. simpl in Hw. destruct (throwIsCpp t); discriminate.
Qed.

(** The call of [checkScope] returns false when one of its statements
    abandons the walk. *)
Lemma checkScope_abandons (startToken : Token) (pre post : list Stmt) (s : Stmt)
    (endSite : RetSite) (vi : VarInfo.t) (nz : gset Z) (rc : nat) (log : list Diag)
    (w w' : Walk) :
  (S rc <= limit)%nat ->
  walkWith (checkStmt env limit (conditionalAlloc vi) (S rc)) pre (mkWalk vi nz log) = Next w ->
  checkStmt env limit (conditionalAlloc vi) (S rc) s w = Abandon w' ->
  checkScope env limit startToken (pre ++ s :: post) endSite vi nz rc log
  = Returned false (varInfo w') (written w').
Proof.
  intros Hle Hpre Hs. unfold checkScope, checkScopeWith.
  replace (limit <? S rc)%nat with false by (symmetry; apply Nat.ltb_ge; lia).
  rewrite walkWith_app, Hpre. simpl. rewrite Hs. reflexivity.
Qed.

(** What a call of [checkScope] that reaches an [if] does when a branch
    returns false.  For the else-block (lines 625-628) the call clears its
    state and returns false at once, with the diagnostics written so far.
    For the if-block (lines 619-622) the call clears its state and, by the
    [continue] of line 621, goes on with the token after [if]: it walks
    itself over the condition and the statements of the blocks, which may
    write further diagnostics; this walk can only end with the call
    returning false with no tracked state. *)
Lemma branch_abandon_propagates
    (startToken' : Token) (pre post : list Stmt) (endSite' : RetSite) (vi : VarInfo.t)
    (nz : gset Z) (rc : nat) (log : list Diag)
    (h : IfHead) (startToken : Token) (ifBlock : list Stmt) (ifEnd : RetSite) (els : Else)
    (w : Walk) :
  (S rc <= limit)%nat ->
  walkWith (checkStmt env limit (conditionalAlloc vi) (S rc)) pre (mkWalk vi nz log) = Next w ->
  let w0 := emit w (condScan h (varInfo w)) in
  let vs := Condition.visit env (notzero w0) (condTree h) (varInfo w0, varInfo w0) in
  let outer := checkScope env limit startToken'
                 (pre ++ SIf h startToken ifBlock ifEnd els :: post) endSite' vi nz rc log in
  (forall v1 l1,
     analyseBlock env limit (skipIfBlock h) startToken ifBlock ifEnd vs.1 (notzero w0)
       (S rc) (written w0) = Returned false v1 l1 ->
     exists w',
       rewalk env limit (conditionalAlloc vi) (S rc) h ifBlock els w0 l1 = Abandon w'
       /\ outer = Returned false VarInfo.empty (written w'))
  /\ (forall v1 l1 v2 l2,
        analyseBlock env limit (skipIfBlock h) startToken ifBlock ifEnd vs.1 (notzero w0)
          (S rc) (written w0) = Returned true v1 l1 ->
        analyseElse env limit (skipElseBlock h) els vs.2 (notzero w0) (S rc) l1
          = Returned false v2 l2 ->
        outer = Returned false VarInfo.empty l2).
Proof.
  intros Hle Hpre w0 vs outer. subst outer. split.
  - intros v1 l1 H1.
    assert (Hstep : checkStmt env limit (conditionalAlloc vi) (S rc)
                      (SIf h startToken ifBlock ifEnd els) w
                    = rewalk env limit (conditionalAlloc vi) (S rc) h ifBlock els w0 l1).
    { rewrite checkStmt_if. cbv zeta. subst w0 vs. by rewrite H1. }
    assert (Hkind : stepKind (rewalk env limit (conditionalAlloc vi) (S rc) h ifBlock els w0 l1)
                    = Some false).
    { eapply rewalk_abandons; [|exact H1].
      apply Forall_forall. intros s _. apply checkStmt_kindStable. }
    destruct (rewalk env limit (conditionalAlloc vi) (S rc) h ifBlock els w0 l1)
      as [w'|w'|e l] eqn:Er; try discriminate.
    exists w'. split; [reflexivity|].
    rewrite (checkScope_abandons startToken' pre post _ endSite' vi nz rc log w w' Hle Hpre Hstep).
    by rewrite (checkStmt_abandonClears _ _ _ _ _ Hstep).
  - intros v1 l1 v2 l2 H1 H2.
    assert (Hstep : checkStmt env limit (conditionalAlloc vi) (S rc)
                      (SIf h startToken ifBlock ifEnd els) w
                    = Abandon (mkWalk VarInfo.empty (notzero w0) l2)).
    { rewrite checkStmt_if. cbv zeta. subst w0 vs. by rewrite H1, H2. }
    by rewrite (checkScope_abandons startToken' pre post _ endSite' vi nz rc log w _ Hle Hpre Hstep).
Qed.

End Abandon.

Lemma branch_abandon_propagates_witness :
  let w := mkWalk (tracking 1 (allocated (-1) new_tok)) ∅ [] in
  (1 <= 1000)%nat
  /\ walkWith (checkStmt Examples.env 1000 ∅ 1) [assign_new] (mkWalk VarInfo.empty ∅ []) = Next w
  /\ analyseBlock Examples.env 1000 false brace_tok [] inner_site (varInfo w) ∅ 1 []
     = Returned true (varInfo w) []
  /\ analyseElse Examples.env 1000 false (ElseBlock brace_tok [SGoto] inner_site)
       (varInfo w) ∅ 1 [] = Returned false VarInfo.empty []
  /\ checkScope Examples.env 1000 brace_tok goto_in_else outer_site VarInfo.empty ∅ 0 []
     = Returned false VarInfo.empty [].
Proof.
  assert (H0 : (1 <= 1000)%nat) by lia.
  assert (H1 : walkWith (checkStmt Examples.env 1000 ∅ 1) [assign_new]
                 (mkWalk VarInfo.empty ∅ [])
               = Next (mkWalk (tracking 1 (allocated (-1) new_tok)) ∅ []))
    by (vm_compute; reflexivity).
  assert (H2 : analyseBlock Examples.env 1000 false brace_tok [] inner_site
                 (tracking 1 (allocated (-1) new_tok)) ∅ 1 []
               = Returned true (tracking 1 (allocated (-1) new_tok)) [])
    by (vm_compute; reflexivity).
  assert (H3 : analyseElse Examples.env 1000 false (ElseBlock brace_tok [SGoto] inner_site)
                 (tracking 1 (allocated (-1) new_tok)) ∅ 1 []
               = Returned false VarInfo.empty []) by (vm_compute; reflexivity).
  refine (conj H0 (conj H1 (conj H2 (conj H3 _)))).
  exact (proj2 (branch_abandon_propagates Examples.env 1000 brace_tok [assign_new] []
                  outer_site VarInfo.empty ∅ 0 [] plain_if brace_tok [] inner_site
                  (ElseBlock brace_tok [SGoto] inner_site) _ H0 H1) _ _ _ _ H2 H3).
Defined.

(** C2 (a defect of the code).  For an abandoned else-block the call
    returns false at once (line 627); for an abandoned if-block line 621
    has [continue] in its place.  In
    [p = new int; if (c) { delete p; delete p; goto x; }] the analysis of
    the if-block returns false after one double-free diagnostic, and the
    enclosing call, instead of returning false, walks over the if-block
    again and writes a second double-free diagnostic for [p], which was
    tracked before the branch, before the [goto] makes it return false. *)
Lemma if_block_abandon_writes_more :
  let before := tracking 1 (allocated (-1) new_tok) in
  let l1 := [DoubleFreeError (Some p_tok) (Some delete_tok) "p" (-1)] in
  alloctype before !! 1 = Some (allocated (-1) new_tok)
  /\ walkWith (checkStmt Examples.env 1000 ∅ 1) [assign_new] (mkWalk VarInfo.empty ∅ [])
     = Next (mkWalk before ∅ [])
  /\ analyseBlock Examples.env 1000 false brace_tok [delete_p; delete_p; SGoto] inner_site
       before ∅ 1 [] = Returned false VarInfo.empty l1
  /\ checkScope Examples.env 1000 brace_tok goto_in_if outer_site VarInfo.empty ∅ 0 []
     = Returned false VarInfo.empty
         (l1 ++ [DoubleFreeError (Some p_tok) (Some p_tok) "p" (-1)]).
Proof.
  repeat split; vm_compute; reflexivity.
Qed.

(** ** The ceiling of the recursion *)

Section Limit.

Context (env : Env) (limit : nat).









End Limit.




Lemma merge_first_write_wins_witness :
  let v1 := tracking 1 (allocated 1 malloc_tok) in
  let v2 := tracking 1 (allocated (-1) new_tok) in
  alloctype v1 !! 1 = Some (allocated 1 malloc_tok)
  /\ alloctype v2 !! 1 = Some (allocated (-1) new_tok)
  /\ alloctype (Merge.merge ∅ VarInfo.empty v1 v2) !! 1 = Some (allocated 1 malloc_tok).
Proof.
  assert (H1 : alloctype (tracking 1 (allocated 1 malloc_tok)) !! 1
               = Some (allocated 1 malloc_tok)) by reflexivity.
  assert (H2 : alloctype (tracking 1 (allocated (-1) new_tok)) !! 1
               = Some (allocated (-1) new_tok)) by reflexivity.
  refine (conj H1 (conj H2 _)).
  exact (proj2 (proj2 (proj2 (proj2
    (merge_first_write_wins ∅ VarInfo.empty (tracking 1 (allocated 1 malloc_tok))
       (tracking 1 (allocated (-1) new_tok))))))
    1 _ _ H1 H2).
Defined.

(** * Further properties *)

(** ** [changeAllocStatus] on a tracked variable *)

Section ChangeAllocStatusMore.

Context (env : Env).

(** X1.  Whatever the event, [changeAllocStatus] touches the tracking of the
    argument's variable only. *)
Theorem changeAllocStatus_frame
    (vi : VarInfo.t) (allocation : AllocInfo) (tok arg_ : Token) (k : Z) :
  k <> varId arg_ ->
  let r := changeAllocStatus env vi allocation tok arg_ in
  alloctype r.1 !! k = alloctype vi !! k
  /\ possibleUsage r.1 !! k = possibleUsage vi !! k
  /\ (k ∈ conditionalAlloc r.1 <-> k ∈ conditionalAlloc vi)
  /\ (k ∈ referenced r.1 <-> k ∈ referenced vi).
Proof.
  intros Hk r. subst r. unfold changeAllocStatus.
  destruct (alloctype vi !! varId arg_) as [var|];
    repeat match goal with
           | |- context [if ?b then _ else _] => destruct b
           end;
    simpl; rewrite ?lookup_delete_ne, ?lookup_insert_ne by congruence;
    (split; [reflexivity|split; [reflexivity|]]);
    rewrite ?elem_of_difference, ?elem_of_singleton; tauto.
Qed.

(** X2.  One call writes at most one diagnostic, and it is a double free or a
    mismatch about the argument: never a leak. *)
Theorem changeAllocStatus_diagnostics
    (vi : VarInfo.t) (allocation : AllocInfo) (tok arg_ : Token) :
  let r := changeAllocStatus env vi allocation tok arg_ in
  r.2 = []
  \/ (exists var, alloctype vi !! varId arg_ = Some var
        /\ (r.2 = [DoubleFreeError (Some tok) (allocTok var) (str arg_) (type allocation)]
            \/ r.2 = [MismatchError (Some tok) (allocTok var) (str arg_)])).
Proof.
  intros r. subst r. unfold changeAllocStatus.
  destruct (alloctype vi !! varId arg_) as [var|];
    repeat match goal with
           | |- context [if ?b then _ else _] => destruct b
           end;
    simpl; eauto.
Qed.

Lemma changeAllocStatus_takes_event
    (vi : VarInfo.t) (allocation : AllocInfo) (tok arg_ : Token) (var : AllocInfo) :
  alloctype vi !! varId arg_ = Some var ->
  status allocation <> NOALLOC ->
  isAlsoAllocating env allocation = false ->
  managed var = false -> type var = 0 \/ type var = type allocation ->
  let r := changeAllocStatus env vi allocation tok arg_ in
  r.2 = []
  /\ alloctype r.1 !! varId arg_
     = Some (mkAllocInfo (status allocation) (type allocation)
               (reallocedFromType var) (allocTok allocation)).
Proof.
  intros Hvar Hs Hna Hm Hor r. subst r. unfold changeAllocStatus.
  rewrite Hvar, Hna. destruct (decide (status allocation = NOALLOC)); [contradiction|].
  rewrite Hm.
  assert (Hb : bool_decide (type var <> type allocation) && bool_decide (type var <> 0)
               = false).
  { destruct Hor as [H0|He].
    - rewrite (bool_decide_eq_false_2 (type var <> 0)) by tauto. apply andb_false_r.
    - by rewrite (bool_decide_eq_false_2 (type var <> type allocation)) by tauto. }
  rewrite Hb. simpl. split; [reflexivity|]. by rewrite lookup_insert_eq.
Qed.

(** X3.  The test for a double free comes before the test of the families: for
    a deallocation by a function that is not also an allocator, a managed
    record yields a double free whatever its family; a record that is not
    managed yields a mismatch, and is erased, exactly when its family is
    not 0 and differs from the family of the event; otherwise nothing is
    written and the record takes the status, family and origin of the
    event. *)
Theorem changeAllocStatus_precedence
    (vi : VarInfo.t) (allocation : AllocInfo) (tok arg_ : Token) (var : AllocInfo) :
  alloctype vi !! varId arg_ = Some var ->
  status allocation <> NOALLOC ->
  isAlsoAllocating env allocation = false ->
  let r := changeAllocStatus env vi allocation tok arg_ in
  (managed var = true -> count isDoubleFree r.2 = 1%nat /\ count isMismatch r.2 = 0%nat)
  /\ (managed var = false -> type var <> 0 -> type var <> type allocation ->
      r = (erase (varId arg_) vi, [MismatchError (Some tok) (allocTok var) (str arg_)]))
  /\ (managed var = false -> type var = 0 \/ type var = type allocation ->
      r.2 = []
      /\ alloctype r.1 !! varId arg_
         = Some (mkAllocInfo (status allocation) (type allocation)
                   (reallocedFromType var) (allocTok allocation))).
Proof.
  intros Hvar Hs Hna r.
  split; [|split].
  - subst r. unfold changeAllocStatus.
    rewrite Hvar, Hna. destruct (decide (status allocation = NOALLOC)); [contradiction|].
    intros ->. split; reflexivity.
  - subst r. unfold changeAllocStatus.
    rewrite Hvar, Hna. destruct (decide (status allocation = NOALLOC)); [contradiction|].
    intros -> H0 Hd.
    rewrite (bool_decide_eq_true_2 _ Hd), (bool_decide_eq_true_2 _ H0). reflexivity.
  - intros Hm Hor. by apply changeAllocStatus_takes_event.
Qed.

(** A call that is not a deallocation (NOALLOC), on a tracked variable,
    writes nothing and records the call as a possible usage; the record
    stays as it is, except that a Deallocated variable whose address is
    passed is no longer tracked. *)
Theorem changeAllocStatus_possible_usage
    (vi : VarInfo.t) (allocation : AllocInfo) (tok arg_ : Token) (var : AllocInfo) :
  alloctype vi !! varId arg_ = Some var ->
  status allocation = NOALLOC ->
  isAlsoAllocating env allocation = false ->
  let r := changeAllocStatus env vi allocation tok arg_ in
  r.2 = []
  /\ (if bool_decide (status var = DEALLOC) && prevIsAddressOf arg_
      then alloctype r.1 !! varId arg_ = None /\ possibleUsage r.1 !! varId arg_ = None
      else alloctype r.1 !! varId arg_ = Some var
           /\ possibleUsage r.1 !! varId arg_ = Some (Some tok, USED)).
Proof.
  intros Hvar Hs Hna r. subst r. unfold changeAllocStatus.
  rewrite Hvar, Hna. destruct (decide (status allocation = NOALLOC)); [|contradiction].
  destruct (bool_decide (status var = DEALLOC) && prevIsAddressOf arg_); simpl.
  - split; [reflexivity|]. by rewrite !lookup_delete_eq.
  - split; [reflexivity|]. by rewrite Hvar, lookup_insert_eq.
Qed.

(** Freeing twice: from an Allocated record, two deallocations of the
    record's family by a function that is not an allocator write exactly
    one double free, at the second one, whose first location is the origin
    of the first deallocation; the variable stays tracked as Deallocated. *)
Theorem changeAllocStatus_twice
    (vi : VarInfo.t) (tok1 tok2 arg_ : Token) (var : AllocInfo) (ty : Z) (f1 f2 : option Token) :
  alloctype vi !! varId arg_ = Some var ->
  status var = ALLOC ->
  type var = ty ->
  isAlsoAllocating env (newAllocInfo ty DEALLOC f1) = false ->
  isAlsoAllocating env (newAllocInfo ty DEALLOC f2) = false ->
  let r1 := changeAllocStatus env vi (newAllocInfo ty DEALLOC f1) tok1 arg_ in
  let r2 := changeAllocStatus env r1.1 (newAllocInfo ty DEALLOC f2) tok2 arg_ in
  r1.2 = []
  /\ r2.2 = [DoubleFreeError (Some tok2) f1 (str arg_) ty]
  /\ status <$> alloctype r2.1 !! varId arg_ = Some DEALLOC.
Proof.
  intros Hvar Hst Hty Hn1 Hn2 r1 r2.
  assert (Hm : managed var = false) by (unfold managed; by rewrite Hst).
  destruct (changeAllocStatus_takes_event vi (newAllocInfo ty DEALLOC f1) tok1 arg_ var
              Hvar ltac:(discriminate) Hn1 Hm (or_intror Hty)) as [Hl1 Hr1].
  fold r1 in Hl1, Hr1.
  split; [exact Hl1|].
  subst r2. unfold changeAllocStatus. rewrite Hr1, Hn2. simpl.
  split; [reflexivity|]. by rewrite lookup_insert_eq.
Qed.

End ChangeAllocStatusMore.

Lemma changeAllocStatus_frame_witness :
  2 <> varId p_tok
  /\ alloctype (changeAllocStatus Examples.env two_allocated
                  (newAllocInfo 1 DEALLOC (Some free_tok)) free_tok p_tok).1 !! 2
     = alloctype two_allocated !! 2.
Proof.
  assert (H : 2 <> varId p_tok) by discriminate.
  refine (conj H _).
  exact (proj1 (changeAllocStatus_frame Examples.env two_allocated
                  (newAllocInfo 1 DEALLOC (Some free_tok)) free_tok p_tok 2 H)).
Defined.

Lemma changeAllocStatus_precedence_witness :
  let vi := tracking 1 (allocated 1 malloc_tok) in
  let allocation := newAllocInfo (-1) DEALLOC (Some delete_tok) in
  alloctype vi !! varId p_tok = Some (allocated 1 malloc_tok)
  /\ status allocation <> NOALLOC
  /\ isAlsoAllocating Examples.env allocation = false
  /\ changeAllocStatus Examples.env vi allocation p_tok p_tok
     = (erase (varId p_tok) vi, [MismatchError (Some p_tok) (Some malloc_tok) "p"]).
Proof.
  assert (H1 : alloctype (tracking 1 (allocated 1 malloc_tok)) !! varId p_tok
               = Some (allocated 1 malloc_tok)) by reflexivity.
  assert (H2 : status (newAllocInfo (-1) DEALLOC (Some delete_tok)) <> NOALLOC) by discriminate.
  assert (H3 : isAlsoAllocating Examples.env (newAllocInfo (-1) DEALLOC (Some delete_tok)) = false)
    by reflexivity.
  refine (conj H1 (conj H2 (conj H3 _))).
  apply (proj1 (proj2 (changeAllocStatus_precedence Examples.env _ _ p_tok p_tok _ H1 H2 H3)));
    [reflexivity | discriminate | discriminate].
Defined.

Lemma changeAllocStatus_possible_usage_witness :
  let vi := tracking 1 (allocated 1 malloc_tok) in
  let allocation := newAllocInfo 0 NOALLOC (Some n_tok) in
  alloctype vi !! varId p_tok = Some (allocated 1 malloc_tok)
  /\ status allocation = NOALLOC
  /\ isAlsoAllocating Examples.env allocation = false
  /\ (changeAllocStatus Examples.env vi allocation n_tok p_tok).2 = [].
Proof.
  assert (H1 : alloctype (tracking 1 (allocated 1 malloc_tok)) !! varId p_tok
               = Some (allocated 1 malloc_tok)) by reflexivity.
  assert (H3 : isAlsoAllocating Examples.env (newAllocInfo 0 NOALLOC (Some n_tok)) = false)
    by reflexivity.
  refine (conj H1 (conj eq_refl (conj H3 _))).
  exact (proj1 (changeAllocStatus_possible_usage Examples.env
                  (tracking 1 (allocated 1 malloc_tok)) (newAllocInfo 0 NOALLOC (Some n_tok))
                  n_tok p_tok _ H1 eq_refl H3)).
Defined.

Lemma changeAllocStatus_twice_witness :
  let vi := tracking 1 (allocated 1 malloc_tok) in
  let r1 := changeAllocStatus Examples.env vi (newAllocInfo 1 DEALLOC (Some free_tok))
              free_tok p_tok in
  alloctype vi !! varId p_tok = Some (allocated 1 malloc_tok)
  /\ isAlsoAllocating Examples.env (newAllocInfo 1 DEALLOC (Some free_tok)) = false
  /\ (changeAllocStatus Examples.env r1.1 (newAllocInfo 1 DEALLOC (Some free_tok))
        free_tok p_tok).2
     = [DoubleFreeError (Some free_tok) (Some free_tok) "p" 1].
Proof.
  assert (H1 : alloctype (tracking 1 (allocated 1 malloc_tok)) !! varId p_tok
               = Some (allocated 1 malloc_tok)) by reflexivity.
  assert (H3 : isAlsoAllocating Examples.env (newAllocInfo 1 DEALLOC (Some free_tok)) = false)
    by reflexivity.
  refine (conj H1 (conj H3 _)).
  exact (proj1 (proj2 (changeAllocStatus_twice Examples.env
                         (tracking 1 (allocated 1 malloc_tok)) free_tok free_tok p_tok
                         (allocated 1 malloc_tok) 1
                         (Some free_tok) (Some free_tok) H1 eq_refl eq_refl H3 H3))).
Defined.

(** ** [changeAllocStatusIfRealloc] and [leakIfAllocated] *)

Section ReallocLeak.

Context (env : Env).

(** X4.  A call that the library does not know as a reallocation into its
    return value, or whose reallocated argument is not among the arguments
    of the call, changes nothing and writes nothing. *)
Theorem changeAllocStatusIfRealloc_unrecognized
    (m : gmap Z AllocInfo) (fTok retTok_ : Token) :
  (forall f, getReallocFuncInfo env fTok = Some f ->
     arg f <> -1 \/ reallocArg f <= 0 \/ numberOfArguments env fTok < reallocArg f) ->
  changeAllocStatusIfRealloc env m fTok retTok_ = (m, []).
Proof.
  intros H. unfold changeAllocStatusIfRealloc.
  destruct (getReallocFuncInfo env fTok) as [f|]; [|reflexivity].
  destruct (H f eq_refl) as [Ha|[Hr|Hn]].
  - by rewrite (proj2 (Z.eqb_neq _ _) Ha).
  - rewrite (proj2 (Z.ltb_ge _ _) Hr). by rewrite andb_false_r.
  - rewrite (proj2 (Z.leb_gt _ _) Hn). by rewrite andb_false_r.
Qed.

(** Whatever the call, the records of the variables other than the
    assigned one and the reallocated argument are not changed, and at most
    one diagnostic, a mismatch, is written. *)
Theorem changeAllocStatusIfRealloc_frame
    (m : gmap Z AllocInfo) (fTok retTok_ : Token) :
  let r := changeAllocStatusIfRealloc env m fTok retTok_ in
  (r.2 = [] \/ exists a s, r.2 = [MismatchError (Some fTok) a s])
  /\ forall k, k <> varId retTok_ ->
       (forall f argTok, getReallocFuncInfo env fTok = Some f ->
          getArguments env fTok !! Z.to_nat (reallocArg f - 1) = Some argTok ->
          k <> varId argTok) ->
       r.1 !! k = m !! k.
Proof.
  intros r. subst r. unfold changeAllocStatusIfRealloc.
  destruct (getReallocFuncInfo env fTok) as [f|] eqn:Hf; [|split; [by left | done]].
  destruct ((arg f =? -1) && (0 <? reallocArg f)
            && (reallocArg f <=? numberOfArguments env fTok)); [|split; [by left | done]].
  destruct (getArguments env fTok !! Z.to_nat (reallocArg f - 1)) as [argTok|] eqn:Hg;
    [|split; [by left | done]].
  destruct (m !! varId argTok) as [argAlloc|]; simpl.
  - split.
    + destruct (_ && _); [right; eauto | by left].
    + intros k Hk Ha. specialize (Ha f argTok eq_refl Hg).
      by rewrite !lookup_insert_ne.
  - split; [by left|]. intros k Hk _. by rewrite lookup_insert_ne.
Qed.

(** X5.  [leakIfAllocated] reports a leak exactly for a variable whose record
    is Allocated and that has no possible usage; with a possible usage it
    writes at most the configuration note; for a variable that is not
    tracked or whose record is not Allocated it writes nothing. *)
Theorem leakIfAllocated_cases (vartok : Token) (vi : VarInfo.t) :
  let log := leakIfAllocated env vartok vi in
  (count isLeak log = 1%nat <->
     (exists var, alloctype vi !! varId vartok = Some var /\ status var = ALLOC)
     /\ possibleUsage vi !! varId vartok = None)
  /\ (count isLeak log <= 1)%nat
  /\ (forall var, alloctype vi !! varId vartok = Some var -> status var <> ALLOC -> log = [])
  /\ (alloctype vi !! varId vartok = None -> log = [])
  /\ (forall use, possibleUsage vi !! varId vartok = Some use ->
        log = [] \/ log = [ConfigurationInfo (Some vartok) use]).
Proof.
  intros log. subst log. unfold leakIfAllocated, configurationInfo.
  destruct (alloctype vi !! varId vartok) as [var|] eqn:Ha.
  - destruct (decide (status var = ALLOC)) as [Hs|Hs].
    + destruct (possibleUsage vi !! varId vartok) as [use|] eqn:Hu.
      * split; [|split; [|split; [|split]]].
        -- destruct (_ && _); split; try discriminate; intros [_ ?]; discriminate.
        -- destruct (_ && _); simpl; unfold count; simpl; lia.
        -- intros ? [= <-] ?. contradiction.
        -- discriminate.
        -- intros ? [= <-]. destruct (_ && _); auto.
      * split; [|split; [|split; [|split]]].
        -- split; [intros _; eauto | reflexivity].
        -- reflexivity.
        -- intros ? [= <-] ?. contradiction.
        -- discriminate.
        -- discriminate.
    + split; [|split; [|split; [|split]]].
      * split; [discriminate|]. intros [(v & [= <-] & ?) _]. contradiction.
      * unfold count. simpl. lia.
      * reflexivity.
      * discriminate.
      * intros. by left.
  - split; [|split; [|split; [|split]]].
    + split; [discriminate|]. intros [(v & ? & _) _]. discriminate.
    + unfold count. simpl. lia.
    + discriminate.
    + reflexivity.
    + intros. by left.
Qed.

End ReallocLeak.

Lemma changeAllocStatusIfRealloc_unrecognized_witness :
  (forall f, getReallocFuncInfo Examples.env free_tok = Some f ->
     arg f <> -1 \/ reallocArg f <= 0 \/ numberOfArguments Examples.env free_tok < reallocArg f)
  /\ changeAllocStatusIfRealloc Examples.env (alloctype two_allocated) free_tok q_tok
     = (alloctype two_allocated, []).
Proof.
  assert (H : forall f, getReallocFuncInfo Examples.env free_tok = Some f ->
            arg f <> -1 \/ reallocArg f <= 0
            \/ numberOfArguments Examples.env free_tok < reallocArg f)
    by (intros f Hf; discriminate Hf).
  refine (conj H _).
  exact (changeAllocStatusIfRealloc_unrecognized Examples.env (alloctype two_allocated)
           free_tok q_tok H).
Defined.

(** ** [ret] *)

Section Ret.

Context (env : Env) (site : RetSite) (isEndOfScope : bool).

Lemma elem_of_ascending {A} (m : gmap Z A) (k : Z) (a : A) :
  (k, a) ∈ ascending m <-> m !! k = Some a.
Proof.
  unfold ascending. rewrite merge_sort_Permutation. apply elem_of_map_to_list.
Qed.

Lemma erase_all_lookup (l : list Z) (vi : VarInfo.t) (k : Z) :
  let r := foldl (fun acc varid => erase varid acc) vi l in
  alloctype r !! k = (if decide (k ∈ l) then None else alloctype vi !! k)
  /\ possibleUsage r !! k = (if decide (k ∈ l) then None else possibleUsage vi !! k)
  /\ (k ∈ conditionalAlloc r <-> k ∈ conditionalAlloc vi /\ k ∉ l)
  /\ (k ∈ referenced r <-> k ∈ referenced vi /\ k ∉ l).
Proof.
  revert vi. induction l as [|v l IH]; intros vi; cbn [foldl].
  - rewrite !decide_False by apply not_elem_of_nil.
    split; [done|]. split; [done|]. split; split; try tauto; set_solver.
  - destruct (IH (erase v vi)) as (H1 & H2 & H3 & H4).
    rewrite H1, H2, H3, H4. cbn [erase alloctype possibleUsage conditionalAlloc referenced].
    pose proof (elem_of_cons l k v) as Hc.
    destruct (decide (k ∈ v :: l)) as [Hin|Hnin]; destruct (decide (k ∈ l)) as [Hl|Hl];
      destruct (decide (k = v)) as [Heq|Hne];
      try (exfalso; tauto); try subst k;
      rewrite ?lookup_delete_eq, ?lookup_delete_ne by done;
      (split; [reflexivity|split; [reflexivity|]]);
      rewrite !elem_of_difference, !elem_of_singleton; intuition congruence.
Qed.

(** The ids pushed on [toRemove]. *)
Lemma toRemove_elem (vi : VarInfo.t) (k : Z) :
  k ∈ map fst (filter (fun x : Z * (list Diag * bool) => x.2.2 = true)
                 (map (fun '(varid, info) =>
                         (varid, retOne env site isEndOfScope vi varid info))
                      (ascending (alloctype vi))))
  <-> exists info, alloctype vi !! k = Some info
                   /\ (retOne env site isEndOfScope vi k info).2 = true.
Proof.
  rewrite list_elem_of_fmap. split.
  - intros ([k' [l b]] & -> & Hin). apply list_elem_of_filter in Hin as [Hb Hin].
    apply list_elem_of_fmap in Hin as ([k0 info] & Heq & Hin).
    injection Heq as -> Heq. apply elem_of_ascending in Hin.
    exists info. split; [exact Hin|]. simpl in *. by rewrite <- Heq.
  - intros (info & Hk & Hb).
    exists (k, retOne env site isEndOfScope vi k info). split; [reflexivity|].
    apply list_elem_of_filter. split; [exact Hb|].
    apply list_elem_of_fmap. exists (k, info). split; [reflexivity|].
    by apply elem_of_ascending.
Qed.

(** A diagnostic is written only in a turn that also removes the variable. *)
Lemma retOne_reported_removed (vi : VarInfo.t) (varid : Z) (info : AllocInfo) :
  (retOne env site isEndOfScope vi varid info).1 <> [] ->
  (retOne env site isEndOfScope vi varid info).2 = true.
Proof.
  unfold retOne.
  repeat match goal with
         | |- context [if ?b then _ else _] => destruct b
         | |- context [match ?x with Some _ => _ | None => _ end] => destruct x
         end; simpl; congruence.
Qed.

(** The lookups after [ret]: a variable is erased from every component
    when its turn of the loop reached the reporting step. *)
Lemma ret_lookup (vi : VarInfo.t) (k : Z) :
  let r := ret env site isEndOfScope vi in
  let removed := match alloctype vi !! k with
                 | Some info => (retOne env site isEndOfScope vi k info).2
                 | None => false
                 end in
  alloctype r.1 !! k = (if removed then None else alloctype vi !! k)
  /\ possibleUsage r.1 !! k = (if removed then None else possibleUsage vi !! k)
  /\ (k ∈ conditionalAlloc r.1 <-> k ∈ conditionalAlloc vi /\ removed = false)
  /\ (k ∈ referenced r.1 <-> k ∈ referenced vi /\ removed = false).
Proof.
  intros r removed. subst r. unfold ret. cbn [fst].
  match goal with |- context [foldl _ vi ?l] =>
    destruct (erase_all_lookup l vi k) as (H1 & H2 & H3 & H4);
    pose proof (toRemove_elem vi k) as Hin
  end.
  rewrite H1, H2, H3, H4. clear H1 H2 H3 H4.
  assert (Hdec : forall l : list Z,
            (k ∈ l <-> exists info, alloctype vi !! k = Some info
                         /\ (retOne env site isEndOfScope vi k info).2 = true) ->
            (k ∈ l <-> removed = true)).
  { intros l ->. subst removed. destruct (alloctype vi !! k) as [info|].
    - split; [intros (i & [= <-] & ?); done | eauto].
    - split; [intros (i & ? & _); done | done]. }
  apply Hdec in Hin. clear Hdec. clearbody removed.
  match type of Hin with ?P <-> _ => destruct (decide P) as [Hy|Hn] end;
    destruct removed; try (exfalso; intuition congruence);
    (split; [reflexivity|split; [reflexivity|]]); intuition congruence.
Qed.

(** The diagnostics of [ret] are those of the turns of the tracked
    variables. *)
Lemma ret_log_elem (vi : VarInfo.t) (d : Diag) :
  d ∈ (ret env site isEndOfScope vi).2
  <-> exists k info, alloctype vi !! k = Some info
                     /\ d ∈ (retOne env site isEndOfScope vi k info).1.
Proof.
  split.
  - intros Hd. unfold ret in Hd. cbn [snd] in Hd.
    apply list_elem_of_In, in_concat in Hd as (l & Hl & Hd).
    apply list_elem_of_In in Hd.
    apply in_map_iff in Hl as ([k' [l' b]] & <- & Hin).
    apply in_map_iff in Hin as ([k info] & Heq & Hin).
    injection Heq as <- Heq. apply list_elem_of_In, elem_of_ascending in Hin. simpl in Hd.
    exists k, info. split; [exact Hin|]. by rewrite Heq.
  - intros (k & info & Hk & Hd). unfold ret. cbn [snd].
    apply list_elem_of_In, in_concat.
    exists (retOne env site isEndOfScope vi k info).1. split; [|by apply list_elem_of_In].
    apply in_map_iff. exists (k, retOne env site isEndOfScope vi k info).
    split; [reflexivity|].
    apply in_map_iff. exists (k, info). split; [reflexivity|].
    by apply list_elem_of_In, elem_of_ascending.
Qed.

(** X6.  [ret] only removes: a variable is either erased from every component,
    and it was tracked, or left exactly as it was; nothing is added. *)
Theorem ret_only_removes (vi : VarInfo.t) (k : Z) :
  let r := ret env site isEndOfScope vi in
  (is_Some (alloctype vi !! k)
   /\ alloctype r.1 !! k = None /\ possibleUsage r.1 !! k = None
   /\ (k ∉ conditionalAlloc r.1) /\ (k ∉ referenced r.1))
  \/ (alloctype r.1 !! k = alloctype vi !! k
      /\ possibleUsage r.1 !! k = possibleUsage vi !! k
      /\ (k ∈ conditionalAlloc r.1 <-> k ∈ conditionalAlloc vi)
      /\ (k ∈ referenced r.1 <-> k ∈ referenced vi)).
Proof.
  intros r. destruct (ret_lookup vi k) as (H1 & H2 & H3 & H4). fold r in H1, H2, H3, H4.
  destruct (alloctype vi !! k) as [info|] eqn:Hk.
  - destruct (retOne env site isEndOfScope vi k info).2.
    + left. split; [eauto|]. split; [exact H1|]. split; [exact H2|].
      split; [rewrite H3 | rewrite H4]; (intros [_ ?]; discriminate).
    + right. rewrite H1, H2, H3, H4. tauto.
  - right. rewrite H1, H2, H3, H4. tauto.
Qed.

(** X7.  Every diagnostic of [ret] comes from the turn of a tracked variable,
    and that variable is not tracked afterwards: a record is reported at
    most once. *)
Theorem ret_reported_removed (vi : VarInfo.t) (d : Diag) :
  d ∈ (ret env site isEndOfScope vi).2 ->
  exists k info,
    alloctype vi !! k = Some info
    /\ d ∈ (retOne env site isEndOfScope vi k info).1
    /\ alloctype (ret env site isEndOfScope vi).1 !! k = None.
Proof.
  intros Hd. apply ret_log_elem in Hd as (k & info & Hk & Hd).
  exists k, info. split; [exact Hk|]. split; [exact Hd|].
  destruct (ret_lookup vi k) as (H1 & _). rewrite H1, Hk.
  rewrite retOne_reported_removed; [reflexivity|].
  intros Hnil. rewrite Hnil in Hd. by apply not_elem_of_nil in Hd.
Qed.

End Ret.

Section RetReports.

Context (env : Env) (site : RetSite) (isEndOfScope : bool).

Lemma retOne_spared (vi : VarInfo.t) (k : Z) (info : AllocInfo) :
  spared site isEndOfScope vi k info -> retOne env site isEndOfScope vi k info = ([], false).
Proof.
  unfold spared, retOne.
  intros [(He & Hm & Hc)|[Hr|[Hn|(var & Hv & Hor)]]].
  - by rewrite He, Hm, (bool_decide_eq_true_2 _ Hc).
  - rewrite (bool_decide_eq_true_2 _ Hr). by destruct (_ && _).
  - rewrite Hn. destruct (_ && _); [done|]. by destruct (bool_decide _).
  - rewrite Hv. destruct (_ && _); [done|]. destruct (bool_decide _); [done|].
    destruct Hor as [[He Ht]|Ho]; [by rewrite He, Ht|]. rewrite Ho. by destruct (_ && _).
Qed.

(** X8.  A spared record is left exactly as it is and nothing is written for
    it; when every tracked variable is spared, [ret] changes nothing and
    writes nothing. *)
Theorem ret_spares (vi : VarInfo.t) :
  (forall k info, alloctype vi !! k = Some info -> spared site isEndOfScope vi k info ->
     alloctype (ret env site isEndOfScope vi).1 !! k = Some info
     /\ possibleUsage (ret env site isEndOfScope vi).1 !! k = possibleUsage vi !! k)
  /\ ((forall k info, alloctype vi !! k = Some info -> spared site isEndOfScope vi k info) ->
      (ret env site isEndOfScope vi).2 = []
      /\ alloctype (ret env site isEndOfScope vi).1 = alloctype vi).
Proof.
  split.
  - intros k info Hk Hs.
    destruct (ret_lookup env site isEndOfScope vi k) as (H1 & H2 & _).
    rewrite H1, H2, Hk, (retOne_spared vi k info Hs). done.
  - intros Hall. split.
    + destruct (ret env site isEndOfScope vi).2 as [|d l] eqn:E; [reflexivity|].
      assert (Hd : d ∈ (ret env site isEndOfScope vi).2) by (rewrite E; left).
      apply (ret_log_elem env site isEndOfScope) in Hd as (k & info & Hk & Hd).
      rewrite (retOne_spared vi k info (Hall k info Hk)) in Hd.
      by apply not_elem_of_nil in Hd.
    + apply map_eq. intros k.
      destruct (ret_lookup env site isEndOfScope vi k) as (H1 & _).
      rewrite H1. destruct (alloctype vi !! k) as [info|] eqn:Hk; [|reflexivity].
      by rewrite (retOne_spared vi k info (Hall k info Hk)).
Qed.

(** X9.  The leak report: a record that is Allocated, not spared, of a variable
    that is not a reference and is not returned as a pointer, without a
    possible usage, is reported as a leak at the token of the statement and
    is no longer tracked afterwards. *)
Theorem ret_reports_leak (vi : VarInfo.t) (k : Z) (info : AllocInfo) (var : Var) :
  alloctype vi !! k = Some info ->
  status info = ALLOC ->
  (isEndOfScope = false -> k ∉ conditionalAlloc vi) ->
  k ∉ referenced vi ->
  getVariableFromVarId site k = Some var ->
  (isEndOfScope = true -> tokIsScopeEnd var = true) ->
  afterOutparamCheck site k = false ->
  used site k <> PTR ->
  isReference var = false ->
  possibleUsage vi !! k = None ->
  LeakError (Some (retTok site)) (name var) (type info) ∈ (ret env site isEndOfScope vi).2
  /\ alloctype (ret env site isEndOfScope vi).1 !! k = None.
Proof.
  intros Hk Hs Hc Hr Hv He Ho Hu Href Hp.
  assert (Hone : retOne env site isEndOfScope vi k info
                 = ([LeakError (Some (retTok site)) (name var) (type info)], true)).
  { unfold retOne, managed. rewrite Hs, Hv, Ho, Href, Hp. simpl.
    rewrite (bool_decide_eq_false_2 _ Hr), (bool_decide_eq_false_2 _ Hu). simpl.
    rewrite !andb_false_r. simpl.
    destruct isEndOfScope; simpl.
    - by rewrite (He eq_refl).
    - by rewrite (bool_decide_eq_false_2 _ (Hc eq_refl)). }
  split.
  - apply ret_log_elem. exists k, info. split; [exact Hk|]. rewrite Hone. left.
  - destruct (ret_lookup env site isEndOfScope vi k) as (H1 & _).
    by rewrite H1, Hk, Hone.
Qed.

(** X10.  Records that are managed are never reported as leaks, and records
    that are ExternallyOwned or Reallocated are not reported at all:
    [ret] writes a leak or a configuration note only for a record that is
    not managed, and a deallocated-return error only for a Deallocated
    one. *)
Theorem ret_diagnostic_kinds (vi : VarInfo.t) (d : Diag) :
  d ∈ (ret env site isEndOfScope vi).2 ->
  exists k info,
    alloctype vi !! k = Some info
    /\ match d with
       | LeakError _ _ ty => managed info = false /\ ty = type info
                             /\ possibleUsage vi !! k = None
       | ConfigurationInfo _ use => managed info = false /\ possibleUsage vi !! k = Some use
       | DeallocReturnError _ t _ => status info = DEALLOC /\ t = allocTok info
                                     /\ used site k <> NONE
       | _ => False
       end.
Proof.
  intros Hd. apply ret_log_elem in Hd as (k & info & Hk & Hd).
  exists k, info. split; [exact Hk|].
  unfold retOne, configurationInfo in Hd.
  repeat match type of Hd with
         | context [if ?b then _ else _] => destruct b eqn:?
         | context [match ?x with Some _ => _ | None => _ end] => destruct x eqn:?
         end; simpl in Hd;
    try (by apply not_elem_of_nil in Hd);
    apply list_elem_of_singleton in Hd; subst d;
    repeat match goal with
           | H : _ && _ = true |- _ => apply andb_true_iff in H as [? ?]
           | H : negb _ = true |- _ => apply negb_true_iff in H
           | H : bool_decide _ = true |- _ => apply bool_decide_eq_true in H
           | H : bool_decide _ = false |- _ => apply bool_decide_eq_false in H
           end; auto.
Qed.

End RetReports.

(** ** More on the join *)

Section MergeMore.

Import Merge.

Lemma dropManaged_referenced (ca : gset Z) (mine : VarInfo.t) (st : VarInfo.t * VarInfo.t) :
  referenced (dropManaged ca mine st).1 = referenced st.1.
Proof.
  unfold dropManaged.
  apply (map_fold_weak_ind (fun (r : VarInfo.t * VarInfo.t) (_ : gmap Z AllocInfo) =>
                              referenced r.1 = referenced st.1)); [reflexivity|].
  intros i x m [varInfo_ other] _ IH. simpl in *. by destruct (_ && _).
Qed.

Lemma markConditional_referenced (old mine other vi : VarInfo.t) :
  referenced (markConditional old mine other vi) = referenced vi.
Proof.
  unfold markConditional.
  apply (map_fold_weak_ind (fun (r : VarInfo.t) (_ : gmap Z AllocInfo) =>
                              referenced r = referenced vi)); [reflexivity|].
  intros i x m r _ IH. by destruct (_ && _).
Qed.

(** The lookups in the merged state, through the copies left by the loop
    of lines 637-646. *)
Lemma merge_lookup (ca : gset Z) (old v1 v2 : VarInfo.t) (k : Z) :
  let c := dropConditional old (v1, v2) in
  let h1 := hit ca (alloctype c.1) k in
  let h2 := if h1 then false else hit ca (alloctype c.2) k in
  alloctype (merge ca old v1 v2) !! k
  = ((if h2 then None else alloctype c.1 !! k)
     ∪ (if h1 then None else alloctype c.2 !! k))
  /\ possibleUsage (merge ca old v1 v2) !! k
     = ((if h2 then None else possibleUsage c.1 !! k)
        ∪ (if h1 then None else possibleUsage c.2 !! k))
  /\ (k ∈ conditionalAlloc (merge ca old v1 v2) <->
      ((is_Some (alloctype c.1 !! k) /\ alloctype c.2 !! k = None)
       \/ (is_Some (alloctype c.2 !! k) /\ alloctype c.1 !! k = None))
      /\ alloctype old !! k = None /\ h1 = false /\ h2 = false).
Proof.
  intros c h1 h2.
  pose proof (mergeCopies_steps ca old v1 v2) as (_ & Ha & Hp & Hcond).
  unfold merge. rewrite Ha, Hp, Hcond. clear Ha Hp Hcond. fold c.
  destruct (markConditional_spec old c.1 c.2 VarInfo.empty) as (_ & _ & Hm1).
  set (m1 := markConditional old c.1 c.2 VarInfo.empty) in *.
  destruct (markConditional_spec old c.2 c.1 m1) as (_ & _ & Hm2).
  set (m2 := markConditional old c.2 c.1 m1) in *.
  destruct (dropManaged_spec ca c.1 (m2, c.2)) as (_ & _ & Hc3 & H3 & P3).
  set (s3 := dropManaged ca c.1 (m2, c.2)) in *.
  destruct (dropManaged_spec ca s3.2 (s3.1, c.1)) as (_ & _ & Hc4 & H4 & P4).
  set (s4 := dropManaged ca s3.2 (s3.1, c.1)) in *.
  cbn [fst snd] in *.
  assert (Hh2 : hit ca (alloctype s3.2) k = h2).
  { unfold hit at 1. rewrite H3. fold h1. subst h2. by destruct h1. }
  rewrite !lookup_union, H4, P4, H3, P3, Hh2. fold h1.
  split; [reflexivity|]. split; [reflexivity|].
  rewrite Hc4, Hc3, Hm2, Hm1, Hh2. fold h1.
  split.
  - intros [[[[He|(H1 & H2 & H0)]|(H1 & H2 & H0)] Hh1] Hh2'];
      [by apply not_elem_of_empty in He | |]; tauto.
  - intros ([[H1 H2]|[H1 H2]] & H0 & Hh1 & Hh2'); tauto.
Qed.

Lemma merge_referenced (ca : gset Z) (old v1 v2 : VarInfo.t) :
  referenced (merge ca old v1 v2) = ∅.
Proof.
  unfold merge, mergeCopies.
  destruct (dropConditional old (v1, v2)) as [c1 c2].
  pose proof (dropManaged_referenced ca c1
                (markConditional old c2 c1 (markConditional old c1 c2 VarInfo.empty), c2)) as R3.
  destruct (dropManaged ca c1 _) as [m3 c2'].
  pose proof (dropManaged_referenced ca c2' (m3, c1)) as R4.
  destruct (dropManaged ca c2' _) as [m4 c1']. simpl in *.
  rewrite R4, R3, !markConditional_referenced. reflexivity.
Qed.

(** X11.  The merged state never has a record that is in neither copy, and its
    set of references is empty. *)
Theorem merge_adds_nothing (ca : gset Z) (old v1 v2 : VarInfo.t) :
  referenced (merge ca old v1 v2) = ∅
  /\ (forall k a, alloctype (merge ca old v1 v2) !! k = Some a ->
        alloctype v1 !! k = Some a \/ alloctype v2 !! k = Some a)
  /\ (forall k u, possibleUsage (merge ca old v1 v2) !! k = Some u ->
        possibleUsage v1 !! k = Some u \/ possibleUsage v2 !! k = Some u).
Proof.
  split; [|split].
  - apply merge_referenced.
  - intros k a. destruct (merge_lookup ca old v1 v2 k) as (Ha & _). rewrite Ha.
    destruct (dropConditional_spec old v1 v2) as (Hd1 & Hd2 & _). rewrite Hd1, Hd2.
    repeat match goal with |- context [if ?b then _ else _] => destruct b end;
      destruct (alloctype v1 !! k), (alloctype v2 !! k); simpl; intros [= <-]; auto.
  - intros k u. destruct (merge_lookup ca old v1 v2 k) as (_ & Hp & _). rewrite Hp.
    destruct (dropConditional_spec old v1 v2) as (_ & _ & Hd1 & Hd2). rewrite Hd1, Hd2.
    repeat match goal with |- context [if ?b then _ else _] => destruct b end;
      destruct (possibleUsage v1 !! k), (possibleUsage v2 !! k); simpl; intros [= <-]; auto.
Qed.

(** X12.  A variable is conditionally allocated after the join only if it had
    no record before the [if], has a record in exactly one copy, and that
    record, which is its record in the merged state, is not managed or the
    variable was not conditionally allocated when the scope was entered. *)
Theorem merge_conditional_only_if (ca : gset Z) (old v1 v2 : VarInfo.t) (k : Z) :
  k ∈ conditionalAlloc (merge ca old v1 v2) ->
  alloctype old !! k = None
  /\ exists a,
       alloctype (merge ca old v1 v2) !! k = Some a
       /\ managed a && bool_decide (k ∈ ca) = false
       /\ ((alloctype v1 !! k = Some a /\ alloctype v2 !! k = None)
           \/ (alloctype v1 !! k = None /\ alloctype v2 !! k = Some a)).
Proof.
  intros Hk. destruct (merge_lookup ca old v1 v2 k) as (Ha & _ & Hc).
  apply Hc in Hk as (Hone & Hold & Hh1 & Hh2). split; [exact Hold|].
  rewrite Ha. clear Ha Hc.
  destruct (dropConditional_spec old v1 v2) as (Hd1 & Hd2 & _).
  assert (Hnd : dropped (alloctype old) (conditionalAlloc old) v1 v2 k = false).
  { unfold dropped. rewrite Hold.
    rewrite (bool_decide_eq_false_2 (is_Some None)); [done | by intros [? ?]]. }
  rewrite Hh1 in Hh2. rewrite Hh1, Hh2. unfold hit in Hh1, Hh2.
  rewrite Hd1, Hnd in Hh1, Hone |- *. rewrite Hd2, Hnd in Hh2, Hone |- *.
  destruct Hone as [[[a H1] H2]|[[a H2] H1]]; rewrite H1, H2 in *; exists a; simpl; auto.
Qed.

End MergeMore.

Section MergeUnchanged.

Import Merge.

(** X13.  An [if] whose branches leave their copies as the state was before
    keeps every record and every possible usage, but the merged state has
    no conditional allocation and no reference any more. *)
Theorem merge_unchanged (ca : gset Z) (old : VarInfo.t) :
  alloctype (merge ca old old old) = alloctype old
  /\ possibleUsage (merge ca old old old) = possibleUsage old
  /\ conditionalAlloc (merge ca old old old) = ∅
  /\ referenced (merge ca old old old) = ∅.
Proof.
  destruct (dropConditional_spec old old old) as (Hd1 & Hd2 & Hp1 & Hp2).
  assert (Hnd : forall k, dropped (alloctype old) (conditionalAlloc old) old old k = false).
  { intros k. unfold dropped. destruct (alloctype old !! k) as [a|] eqn:Hk.
    - rewrite !(bool_decide_eq_false_2 (Some a = None)) by discriminate.
      by rewrite andb_false_r.
    - rewrite (bool_decide_eq_false_2 (is_Some None)); [done | by intros [? ?]]. }
  split; [|split; [|split]].
  - apply map_eq. intros k. destruct (merge_lookup ca old old old k) as (Ha & _).
    rewrite Ha, Hd1, Hd2, Hnd. unfold hit. rewrite Hd1, Hd2, Hnd.
    destruct (alloctype old !! k) as [a|]; [|reflexivity].
    by destruct (managed a && bool_decide (k ∈ ca)).
  - apply map_eq. intros k. destruct (merge_lookup ca old old old k) as (_ & Hp & _).
    rewrite Hp, Hp1, Hp2, Hnd. unfold hit. rewrite Hd1, Hd2, Hnd.
    destruct (alloctype old !! k) as [a|]; [|by destruct (possibleUsage old !! k)].
    destruct (managed a && bool_decide (k ∈ ca)); by destruct (possibleUsage old !! k).
  - apply set_eq. intros k. split; [|intros H; by apply not_elem_of_empty in H].
    intros Hk. destruct (merge_lookup ca old old old k) as (_ & _ & Hc).
    apply Hc in Hk as (Hone & _). rewrite Hd1, Hd2, Hnd in Hone.
    destruct Hone as [[[a H1] H2]|[[a H1] H2]]; congruence.
  - apply merge_referenced.
Qed.

End MergeUnchanged.

(** ** The diagnostics of [checkScope] and [check] *)

Section Log.

Context (env : Env) (limit : nat).

Lemma emit_addLog (l0 : list Diag) (w : Walk) (vl : VarInfo.t * list Diag) :
  emit (addLog l0 w) vl = addLog l0 (emit w vl).
Proof. unfold emit, addLog. simpl. by rewrite app_assoc. Qed.

Lemma doAssign_addLog (ca : gset Z) (a : Assignment) (l0 : list Diag) (w : Walk) :
  doAssign env ca a (addLog l0 w) = addLog l0 (doAssign env ca a w).
Proof.
  unfold doAssign.
  destruct (asOtherVar a); destruct (asUsedInRhs a); destruct (asLocalVarNoAutoDealloc a);
    simpl; unfold addLog, emit; simpl; rewrite ?app_assoc; reflexivity.
Qed.

Lemma walk_logFree (l : list Stmt) :
  Forall (logFree env limit) l ->
  forall ca rc l0 w,
    walkWith (checkStmt env limit ca rc) l (addLog l0 w)
    = addLogStep l0 (walkWith (checkStmt env limit ca rc) l w).
Proof.
  induction 1 as [|s l Hs _ IH]; intros ca rc l0 w; simpl; [reflexivity|].
  rewrite Hs. destruct (checkStmt env limit ca rc s w) as [w1|w1|e1 l1]; simpl;
    [apply IH | reflexivity | reflexivity].
Qed.

Lemma analyseBlock_logFree (skip : bool) (startToken : Token) (body : list Stmt)
    (endSite : RetSite) (vi : VarInfo.t) (nz : gset Z) (rc : nat) (l0 log : list Diag) :
  Forall (logFree env limit) body ->
  analyseBlock env limit skip startToken body endSite vi nz rc (l0 ++ log)
  = addLogResult l0 (analyseBlock env limit skip startToken body endSite vi nz rc log).
Proof.
  intros Hbody. unfold analyseBlock. destruct skip; [reflexivity|].
  unfold checkScope, checkScopeWith. destruct (limit <? S rc)%nat; [reflexivity|].
  change (mkWalk vi nz (l0 ++ log)) with (addLog l0 (mkWalk vi nz log)).
  rewrite (walk_logFree body Hbody).
  destruct (walkWith _ body _) as [w1|w1|e1 l1]; simpl; [|reflexivity|reflexivity].
  by rewrite app_assoc.
Qed.

Lemma checkStmt_logFree : forall s, logFree env limit s.
Proof.
  apply Stmt_nested_ind; try (intros; intros ca rc l0 w; reflexivity).
  - intros before ca rc l0 w. simpl. unfold doBeforeDispatch. cbv zeta.
    by rewrite !emit_addLog.
  - intros toks ca rc l0 w. simpl. unfold doTokens. by rewrite emit_addLog.
  - intros a ca rc l0 w. simpl. by rewrite doAssign_addLog.
  - intros h startToken ifBlock ifEnd els Hif Helse ca rc l0 w.
    rewrite !checkStmt_if. cbv zeta.
    change (varInfo (addLog l0 w)) with (varInfo w).
    rewrite emit_addLog.
    set (w0 := emit w (condScan h (varInfo w))).
    change (varInfo (addLog l0 w0)) with (varInfo w0).
    change (notzero (addLog l0 w0)) with (notzero w0).
    change (written (addLog l0 w0)) with (l0 ++ written w0).
    rewrite (analyseBlock_logFree _ _ _ _ _ _ _ _ _ Hif).
    destruct (analyseBlock _ _ _ startToken _ _ _ _ _ _) as [[|] v1 l1|e1 l1]; simpl;
      [| |reflexivity].
    + destruct els as [|elseStart elseBlock elseEnd]; simpl; [reflexivity|].
      rewrite (analyseBlock_logFree _ _ _ _ _ _ _ _ _ Helse).
      destruct (analyseBlock _ _ _ elseStart _ _ _ _ _ _) as [[|] v2 l2|e2 l2]; reflexivity.
    + unfold rewalk.
      change (varInfo (addLog l0 w0)) with (varInfo w0).
      change (notzero (addLog l0 w0)) with (notzero w0).
      match goal with
      | |- context [walkWith ?f ifBlock (emit (mkWalk ?vi ?nz (l0 ++ l1)) ?x)] =>
          change (emit (mkWalk vi nz (l0 ++ l1)) x)
            with (emit (addLog l0 (mkWalk vi nz l1)) x);
          rewrite emit_addLog, (walk_logFree ifBlock Hif)
      end.
      destruct (walkWith _ ifBlock _) as [w1|w1|e l]; simpl; [|reflexivity|reflexivity].
      destruct els as [|elseStart elseBlock elseEnd]; [reflexivity|].
      apply (walk_logFree elseBlock Helse).
  - intros ca rc l0 w. simpl. by rewrite emit_addLog.
  - intros site ca rc l0 w. simpl. unfold doReturn. by rewrite emit_addLog.
  - intros t ca rc l0 w. simpl. destruct (throwIsCpp t); [|reflexivity].
    unfold doThrow. destruct (tryFoundFrom _); by rewrite emit_addLog.
  - intros d ca rc l0 w. simpl. unfold doDelete.
    destruct (delMember d); [reflexivity|]. destruct (_ && _); [|reflexivity].
    by rewrite emit_addLog.
  - intros c ca rc l0 w. simpl. unfold doCall. rewrite emit_addLog.
    destruct (match getDeallocFuncInfo env (callTok c) with Some _ => _ | None => _ end);
      [|reflexivity].
    destruct (callNoReturn c) as [| |[u|]]; try reflexivity; by rewrite emit_addLog.
  - intros ca rc l0 w. simpl. by rewrite emit_addLog.
  - intros ca rc l0 w. simpl. by rewrite emit_addLog.
  - intros p ca rc l0 w. simpl. unfold doSmartPointer.
    destruct (spReleased p); [reflexivity|].
    destruct (resolveDeleter env p); by rewrite emit_addLog.
Qed.

End Log.

Section CheckLog.

Context (env : Env) (limit : nat).

Lemma checkScope_addLog (startToken : Token) (body : list Stmt) (endSite : RetSite)
    (vi : VarInfo.t) (nz : gset Z) (rc : nat) (l0 log : list Diag) :
  checkScope env limit startToken body endSite vi nz rc (l0 ++ log)
  = addLogResult l0 (checkScope env limit startToken body endSite vi nz rc log).
Proof.
  apply (analyseBlock_logFree env limit false).
  apply Forall_forall. intros s _. apply checkStmt_logFree.
Qed.

Lemma checkFunctionScopes_addLog (functionScopes : list FunctionScope) (log : list Diag) :
  checkFunctionScopes env limit functionScopes log
  = (log ++ (checkFunctionScopes env limit functionScopes []).1,
     (checkFunctionScopes env limit functionScopes []).2).
Proof.
  revert log. induction functionScopes as [|scope rest IH]; intros log; simpl.
  - by rewrite app_nil_r.
  - destruct (hasInlineOrLambdaFunction scope); [apply IH|].
    rewrite <- (app_nil_r log) at 1. rewrite checkScope_addLog.
    destruct (checkScope env limit _ _ _ _ _ _ []) as [b vi l|e l]; simpl; [|reflexivity].
    rewrite (IH (log ++ l)), (IH l). simpl. by rewrite app_assoc.
Qed.

(** X14.  [checkScope] never looks at the diagnostics written before it and
    never drops one: run after the diagnostics [l0], it gives the result of
    a run from an empty log with [l0] in front. *)
Theorem checkScope_appends (startToken : Token) (body : list Stmt) (endSite : RetSite)
    (vi : VarInfo.t) (nz : gset Z) (rc : nat) (l0 : list Diag) :
  checkScope env limit startToken body endSite vi nz rc l0
  = addLogResult l0 (checkScope env limit startToken body endSite vi nz rc []).
Proof.
  rewrite <- (app_nil_r l0) at 1. apply checkScope_addLog.
Qed.

(** X15.  The functions are checked one after the other from an empty state:
    the diagnostics of [check] over two lists of function scopes are those
    of the first list followed by those of the second, unless the limit
    error ends the loop in the first list. *)
Theorem check_concat (fs1 fs2 : list FunctionScope) :
  check env false limit (fs1 ++ fs2)
  = match check env false limit fs1 with
    | (l1, None) => (l1 ++ (check env false limit fs2).1, (check env false limit fs2).2)
    | (l1, Some e) => (l1, Some e)
    end.
Proof.
  unfold check.
  assert (H : forall log,
            checkFunctionScopes env limit (fs1 ++ fs2) log
            = match checkFunctionScopes env limit fs1 log with
              | (l1, None) => checkFunctionScopes env limit fs2 l1
              | (l1, Some e) => (l1, Some e)
              end).
  { induction fs1 as [|scope rest IH]; intros log; simpl; [reflexivity|].
    destruct (hasInlineOrLambdaFunction scope); [apply IH|].
    destruct (checkScope env limit _ _ _ _ _ _ log) as [b vi l|e l]; [apply IH | reflexivity]. }
  rewrite H. destruct (checkFunctionScopes env limit fs1 []) as [l1 [e|]]; [reflexivity|].
  apply checkFunctionScopes_addLog.
Qed.

(** X16.  Function scopes with an inline or lambda function are not analysed:
    [check] gives the same result without them; and nothing is checked for
    a clang import. *)
Theorem check_skips (functionScopes : list FunctionScope) :
  check env false limit functionScopes
  = check env false limit
      (List.filter (fun scope => negb (hasInlineOrLambdaFunction scope)) functionScopes)
  /\ check env true limit functionScopes = ([], None).
Proof.
  split; [|reflexivity]. unfold check. generalize (@nil Diag).
  induction functionScopes as [|scope rest IH]; intros log; simpl; [reflexivity|].
  destruct (hasInlineOrLambdaFunction scope) eqn:Hs; simpl; [apply IH|].
  rewrite Hs. destruct (checkScope env limit _ _ _ _ _ _ log); [apply IH | reflexivity].
Qed.

(** X17.  After [goto] or a control statement that is not understood, nothing
    more of the block is analysed and nothing is reported at its end: the
    call returns false with no tracked state and the diagnostics written
    before the statement, whatever follows it. *)
Theorem checkScope_stops_at_goto (startToken : Token) (pre post : list Stmt) (s : Stmt)
    (endSite : RetSite) (vi : VarInfo.t) (nz : gset Z) (rc : nat) (log : list Diag) (w : Walk) :
  s = SGoto \/ s = SUnknownControl ->
  (S rc <= limit)%nat ->
  walkWith (checkStmt env limit (conditionalAlloc vi) (S rc)) pre (mkWalk vi nz log) = Next w ->
  checkScope env limit startToken (pre ++ s :: post) endSite vi nz rc log
  = Returned false VarInfo.empty (written w).
Proof.
  intros Hs Hle Hpre.
  rewrite (checkScope_abandons env limit startToken pre post s endSite vi nz rc log w
             (emit w (VarInfo.empty, [])) Hle Hpre).
  - simpl. by rewrite app_nil_r.
  - by destruct Hs as [-> | ->].
Qed.

Lemma ret_empty (site : RetSite) (isEndOfScope : bool) :
  ret env site isEndOfScope VarInfo.empty = (VarInfo.empty, []).
Proof. reflexivity. Qed.

(** X18.  A block analysed below the ceiling of the recursion, whose last
    statement is a [return] and whose statements before it are walked to
    the end (none returns, abandons the walk or raises): the records
    tracked before the [return] are reported at the [return] only, and the
    state is cleared after it; the tokens of the statement that follow are walked from the
    empty state, and [ret] at the closing brace reports only about what
    that walk has put into the state.  When no token is walked, nothing is
    written at the closing brace and the state is empty. *)
Theorem checkScope_return_last (startToken : Token) (pre : list Stmt) (site endSite : RetSite)
    (toks : list ExprToken) (vi : VarInfo.t) (nz : gset Z) (rc : nat) (log : list Diag)
    (w : Walk) :
  (S rc <= limit)%nat ->
  walkWith (checkStmt env limit (conditionalAlloc vi) (S rc)) pre (mkWalk vi nz log) = Next w ->
  let atReturn := (ret env site false (varInfo w)).2 in
  let walked := visitWith (fun tok => checkTokenInsideExpression env tok false) toks
                  (VarInfo.empty, []) in
  let atEnd := ret env endSite true walked.1 in
  checkScope env limit startToken (pre ++ [SReturn site; STokens toks]) endSite vi nz rc log
  = Returned true atEnd.1 (written w ++ atReturn ++ walked.2 ++ atEnd.2)
  /\ checkScope env limit startToken (pre ++ [SReturn site; STokens []]) endSite vi nz rc log
     = Returned true VarInfo.empty (written w ++ atReturn).
Proof.
  intros Hle Hpre atReturn walked atEnd.
  assert (H : forall toks',
            checkScope env limit startToken (pre ++ [SReturn site; STokens toks']) endSite
              vi nz rc log
            = let walked' := visitWith (fun tok => checkTokenInsideExpression env tok false)
                               toks' (VarInfo.empty, []) in
              Returned true (ret env endSite true walked'.1).1
                (written w ++ atReturn ++ walked'.2 ++ (ret env endSite true walked'.1).2)).
  { intros toks'. unfold checkScope, checkScopeWith.
    replace (limit <? S rc)%nat with false by (symmetry; apply Nat.ltb_ge; lia).
    rewrite walkWith_app, Hpre.
    change (walkWith (checkStmt env limit (conditionalAlloc vi) (S rc))
              [SReturn site; STokens toks'] w)
      with (Next (doTokens env toks' (doReturn env site w))).
    cbv beta iota zeta. unfold doTokens, doReturn, emit. cbn [varInfo written fst snd].
    change (clear (ret env site false (varInfo w)).1) with VarInfo.empty.
    by rewrite <- !app_assoc. }
  split; [apply H|].
  rewrite H. cbn [visitWith]. cbv zeta. cbn [fst snd]. rewrite ret_empty. cbn [fst snd].
  by rewrite !app_nil_r.
Qed.

(** X19.  A block that the known value of the condition makes unreachable is
    not analysed: with a condition known to be false the result does not
    depend on the if-block. *)
Theorem checkStmt_skips_dead_if_block (ca : gset Z) (rc : nat) (h : IfHead)
    (startToken startToken' : Token) (ifBlock ifBlock' : list Stmt) (ifEnd ifEnd' : RetSite)
    (els : Else) (w : Walk) :
  knownIntValue h = Some 0 ->
  checkStmt env limit ca rc (SIf h startToken ifBlock ifEnd els) w
  = checkStmt env limit ca rc (SIf h startToken' ifBlock' ifEnd' els) w.
Proof.
  intros Hk. rewrite !checkStmt_if. cbv zeta.
  assert (Hskip : forall st body es vi nz log,
            analyseBlock env limit (skipIfBlock h) st body es vi nz rc log
            = Returned true vi log).
  { intros. unfold analyseBlock, skipIfBlock. by rewrite Hk. }
  by rewrite !Hskip.
Qed.

End CheckLog.

(** ** Assignments and [delete] *)

Section AssignDelete.

Context (env : Env).

(** X20.  Assigning to a variable whose record is Allocated and has no
    possible usage, without using the variable on the right-hand side,
    reports one leak at the assignment, except when the assignment does
    not take the value of another variable (lines 427-442 do not apply)
    and the variable was conditionally allocated when the scope was
    entered: then nothing is reported.  For an assignment that takes the
    value of another variable, [p = q ...], line 430 reports the leak
    without looking at the conditional allocations, and erases the
    variables of the statement, the assigned one taken to be among them
    (the loop of line 433 starts at it).  Either way
    the old record is erased before the right-hand side is looked at. *)
Theorem doAssign_reassigned (ca : gset Z) (a : Assignment) (w : Walk) (info : AllocInfo) :
  asUsedInRhs a = false ->
  alloctype (varInfo w) !! varId (asVarTok a) = Some info ->
  status info = ALLOC ->
  possibleUsage (varInfo w) !! varId (asVarTok a) = None ->
  (forall ids, asOtherVar a = Some ids -> varId (asVarTok a) ∈ ids) ->
  let v := varId (asVarTok a) in
  let erased := match asOtherVar a with
                | Some ids => foldl (fun acc id => erase id acc) (varInfo w) ids
                | None => varInfo w
                end in
  let rhs := if asLocalVarNoAutoDealloc a then assignRhs env a (erase v erased)
             else (erase v erased, []) in
  let silent := match asOtherVar a with
                | Some _ => false
                | None => bool_decide (v ∈ ca)
                end in
  varInfo (doAssign env ca a w) = rhs.1
  /\ written (doAssign env ca a w)
     = written w
       ++ (if silent then []
           else [LeakError (Some (asVarTok a)) (str (asVarTok a)) (type info)])
       ++ rhs.2.
Proof.
  intros Hu Hk Hs Hp Hids v erased rhs silent. subst v erased rhs silent.
  unfold doAssign. rewrite Hu.
  assert (Hleak : leakIfAllocated env (asVarTok a) (varInfo w)
                  = [LeakError (Some (asVarTok a)) (str (asVarTok a)) (type info)]).
  { unfold leakIfAllocated. rewrite Hk, Hp.
    by destruct (decide (status info = ALLOC)) as [_|]. }
  destruct (asOtherVar a) as [ids|].
  - cbv zeta. rewrite Hleak.
    assert (Hgone : leakIfAllocated env (asVarTok a)
                      (foldl (fun acc id => erase id acc) (varInfo w) ids) = []).
    { unfold leakIfAllocated.
      destruct (erase_all_lookup ids (varInfo w) (varId (asVarTok a))) as (H1 & _).
      rewrite H1. by rewrite decide_True by (by apply Hids). }
    assert (Hve : forall w0 vl, varInfo (emit w0 vl) = vl.1) by reflexivity.
    rewrite !Hve. cbn [fst snd]. rewrite Hgone.
    destruct (bool_decide (varId (asVarTok a) ∉ ca));
      destruct (asLocalVarNoAutoDealloc a); simpl; rewrite ?app_nil_r, <- ?app_assoc; done.
  - cbv zeta. rewrite Hleak.
    destruct (decide (varId (asVarTok a) ∈ ca)) as [Hin|Hnin].
    + rewrite (bool_decide_eq_false_2 (varId (asVarTok a) ∉ ca)) by tauto.
      rewrite (bool_decide_eq_true_2 _ Hin).
      destruct (asLocalVarNoAutoDealloc a); simpl; rewrite ?app_nil_r; done.
    + rewrite (bool_decide_eq_true_2 _ Hnin), (bool_decide_eq_false_2 _ Hnin).
      destruct (asLocalVarNoAutoDealloc a); simpl; rewrite <- ?app_assoc; done.
Qed.

(** X21.  [new] and [delete]: after an assignment [p = new ...] that does
    not use [p] on its right-hand side, a [delete] or [delete[]] of the
    variable [p] itself (of non-zero variable id; not of a member, of a
    null constant or of an indexed element; [delete] not being a library
    allocator).  When [p] is a variable that
    [isLocalVarNoAutoDealloc] accepts, the statement writes nothing and
    leaves [p] Deallocated when the two agree on the array form, and writes
    a mismatch against the [new] and stops tracking [p] when they do not.
    For any other variable the assignment leaves no record, and the
    [delete] writes nothing whatever the array form; it leaves a
    Deallocated record of its own family, unless it stands in a [return]
    statement. *)
Theorem new_then_delete (ca : gset Z) (a : Assignment) (d : Delete) (w : Walk)
    (newTok : Token) (arrayNew : bool) :
  asRhs a = RhsNew newTok arrayNew ->
  asUsedInRhs a = false ->
  varId (delVarTok d) = varId (asVarTok a) ->
  varId (asVarTok a) <> 0 ->
  delMember d = false -> delIsNull d = false -> delIndexed d = false ->
  getAllocFuncInfo env (delTok d) = None ->
  let w1 := doAssign env ca a w in
  let w2 := doDelete env d w1 in
  if asLocalVarNoAutoDealloc a then
    if Bool.eqb arrayNew (arrayDelete d)
    then written w2 = written w1
         /\ alloctype (varInfo w2) !! varId (asVarTok a)
            = Some (mkAllocInfo DEALLOC (if arrayNew then NEW_ARRAY else NEW) (-1)
                      (Some (delTok d)))
    else written w2
         = written w1 ++ [MismatchError (Some (delVarTok d)) (Some newTok) (str (delVarTok d))]
         /\ alloctype (varInfo w2) !! varId (asVarTok a) = None
  else
    written w2 = written w1
    /\ alloctype (varInfo w2) !! varId (asVarTok a)
       = (if astTopIsReturn (delVarTok d) then None
          else Some (mkAllocInfo DEALLOC (if arrayDelete d then NEW_ARRAY else NEW) (-1)
                       (Some (delVarTok d)))).
Proof.
  intros Hrhs Hu Hv Hnz Hm Hn Hi Hna w1 w2.
  assert (H1 : alloctype (varInfo w1) !! varId (asVarTok a)
               = if asLocalVarNoAutoDealloc a
                 then Some (mkAllocInfo ALLOC (if arrayNew then NEW_ARRAY else NEW) (-1)
                              (Some newTok))
                 else None).
  { subst w1. unfold doAssign. rewrite Hu.
    destruct (asLocalVarNoAutoDealloc a); destruct (asOtherVar a); simpl;
      unfold assignRhs; rewrite ?Hrhs; simpl;
      unfold setAllocated; rewrite ?lookup_insert_eq; unfold at_;
      rewrite ?lookup_delete_eq; reflexivity. }
  subst w2. unfold doDelete. rewrite Hm, Hn, Hi.
  rewrite (bool_decide_eq_false_2 (varId (delVarTok d) = 0)) by congruence.
  simpl. unfold changeAllocStatus, isAlsoAllocating. rewrite Hv, H1. simpl.
  destruct (asLocalVarNoAutoDealloc a).
  - rewrite Hna. rewrite (bool_decide_eq_false_2 (is_Some None)) by (by intros [? ?]).
    destruct arrayNew, (arrayDelete d); simpl;
      rewrite ?lookup_insert_eq, ?lookup_delete_eq, ?app_nil_r; split; reflexivity.
  - destruct (astTopIsReturn (delVarTok d)); simpl; rewrite ?app_nil_r.
    + split; [reflexivity | exact H1].
    + split; [reflexivity|]. rewrite lookup_insert_eq. unfold at_. rewrite H1.
      by destruct (arrayDelete d).
Qed.

End AssignDelete.

(** ** The helpers of the statement dispatch *)

Section Helpers.

Lemma TypeInfo_nested_ind (P : TypeInfo -> Prop) :
  (forall cs df, Forall (fun bi => forall b, bi = Some b -> P b) df -> P (mkTypeInfo cs df)) ->
  forall ty, P ty.
Proof.
  intros H. fix IH 1. intros [cs df]. apply H.
  induction df as [|[b|] df IHdf]; constructor; try exact IHdf.
  - intros b' Hb. injection Hb as <-. apply IH.
  - intros b' Hb. discriminate Hb.
Qed.

Lemma memberNotPlain_false (v : Member) :
  memberNotPlain v = false <->
  hasValueType v = true /\ (isPrimitive v = true \/ isContainer v = true).
Proof.
  unfold memberNotPlain.
  destruct (hasValueType v), (isPrimitive v), (isContainer v); simpl; intuition congruence.
Qed.

Lemma existsb_false_Forall {A} (f : A -> bool) (l : list A) :
  existsb f l = false <-> Forall (fun x => f x = false) l.
Proof.
  induction l as [|x l IH]; simpl.
  - split; [constructor | reflexivity].
  - rewrite orb_false_iff, IH, Forall_cons. reflexivity.
Qed.

(** X22.  [isVarUsedInTree] answers true only when a token of the tree has the
    variable id asked for. *)
Theorem isVarUsedInTree_sound (tok : Ast) (varid : Z) :
  isVarUsedInTree tok varid = true -> occursIn tok varid = true.
Proof.
  induction tok as [|v s op1 IH1 op2 IH2]; simpl; [discriminate|].
  destruct (bool_decide (v = varid)); [reflexivity|].
  destruct (bool_decide (s = "("%string) && astSimpleMatch op1 "sizeof"); [discriminate|].
  simpl. intros [H|H]%orb_true_iff.
  - rewrite (IH1 H). reflexivity.
  - rewrite (IH2 H). apply orb_true_r.
Qed.

(** X23.  In a tree without a call of [sizeof], [isVarUsedInTree] answers true
    exactly when a token of the tree has the variable id asked for. *)
Theorem isVarUsedInTree_exact (tok : Ast) (varid : Z) :
  hasSizeofCall tok = false -> isVarUsedInTree tok varid = occursIn tok varid.
Proof.
  induction tok as [|v s op1 IH1 op2 IH2]; simpl; [reflexivity|].
  intros [[Hs H1]%orb_false_iff H2]%orb_false_iff.
  rewrite Hs, (IH1 H1), (IH2 H2).
  destruct (bool_decide (v = varid)); reflexivity.
Qed.

(** The arguments of a [sizeof] call are not searched: a call of [sizeof]
    whose parenthesis is not the variable itself does not use it, whatever
    stands below it. *)
Theorem isVarUsedInTree_sizeof (v v1 : Z) (a b op2 : Ast) (varid : Z) :
  v <> varid ->
  isVarUsedInTree (ANode v "(" (ANode v1 "sizeof" a b) op2) varid = false.
Proof.
  intros Hv. simpl. rewrite (bool_decide_eq_false_2 _ Hv). reflexivity.
Qed.

(** X24.  [isPointerReleased] reads only the tokens of the variable. *)
Theorem isPointerReleased_filter (pat : ReleasePatterns) (toks : list Token) (varid : Z) :
  isPointerReleased pat toks varid =
  isPointerReleased pat (filter (fun tok => varId tok = varid) toks) varid.
Proof.
  induction toks as [|tok rest IH]; [reflexivity|].
  simpl. rewrite filter_cons.
  destruct (decide (varId tok = varid)) as [He|He].
  - rewrite (bool_decide_eq_true_2 _ He). simpl.
    rewrite (bool_decide_eq_true_2 _ He). simpl. rewrite IH. reflexivity.
  - rewrite (bool_decide_eq_false_2 _ He). simpl. exact IH.
Qed.

(** X25.  [isPointerReleased] answers true exactly when the first token of the
    variable that is a call of [release] or an assignment is a call of
    [release]. *)
Theorem isPointerReleased_first (pat : ReleasePatterns) (toks : list Token) (varid : Z) :
  isPointerReleased pat toks varid = true <->
  exists pre tok post,
    toks = pre ++ tok :: post /\
    varId tok = varid /\ isReleaseCall pat tok = true /\
    Forall (fun t => varId t = varid ->
                     isReleaseCall pat t = false /\ isAssigned pat t = false) pre.
Proof.
  induction toks as [|t rest IH]; simpl.
  - split; [discriminate|]. intros (pre & tok & post & H & _). by destruct pre.
  - destruct (decide (varId t = varid)) as [He|He].
    + rewrite (bool_decide_eq_true_2 _ He). simpl.
      destruct (isReleaseCall pat t) eqn:Hr.
      * split; [|reflexivity]. intros _. exists [], t, rest. repeat split; auto.
      * destruct (isAssigned pat t) eqn:Ha.
        -- split; [discriminate|]. intros (pre & tok & post & H & Hv & Hrel & Hpre).
           destruct pre as [|t' pre]; simpl in H; injection H as <- ->.
           ++ congruence.
           ++ apply Forall_cons in Hpre as [Ht _]. destruct (Ht He). congruence.
        -- rewrite IH. split.
           ++ intros (pre & tok & post & -> & Hv & Hrel & Hpre).
              exists (t :: pre), tok, post. repeat split; auto.
           ++ intros (pre & tok & post & H & Hv & Hrel & Hpre).
              destruct pre as [|t' pre]; simpl in H; injection H as <- ->.
              ** congruence.
              ** apply Forall_cons in Hpre as [_ Hpre]. by exists pre, tok, post.
    + rewrite (bool_decide_eq_false_2 _ He). simpl. rewrite IH. split.
      * intros (pre & tok & post & -> & Hv & Hrel & Hpre).
        exists (t :: pre), tok, post. repeat split; auto.
        constructor; [intros; contradiction | exact Hpre].
      * intros (pre & tok & post & H & Hv & Hrel & Hpre).
        destruct pre as [|t' pre]; simpl in H; injection H as <- ->.
        -- congruence.
        -- apply Forall_cons in Hpre as [_ Hpre]. by exists pre, tok, post.
Qed.

(** X26.  [isAutoDeallocType] answers false exactly for a record type that can be
    seen to be plain: no constructor, members all of a primitive or
    container value type, and every base known and plain as well. *)
Theorem isAutoDeallocType_false (ty : TypeInfo) :
  isAutoDeallocType ty = false <-> PlainRecord ty.
Proof.
  induction ty as [cs df IH] using TypeInfo_nested_ind.
  destruct cs as [[n vl]|]; simpl.
  2: { split; [discriminate | intros H; inversion H]. }
  assert (Hdf : existsb (fun bi => match bi with
                                    | Some base => isAutoDeallocType base
                                    | None => true
                                    end) df = false <->
                Forall (fun bi => exists base, bi = Some base /\ PlainRecord base) df).
  { rewrite existsb_false_Forall. clear -IH.
    induction df as [|bi df IHdf]; [split; constructor|].
    apply Forall_cons in IH as [Hb IH]. rewrite !Forall_cons, (IHdf IH).
    apply and_iff_compat_r. destruct bi as [b|].
    - rewrite (Hb b eq_refl). split; [eauto|]. intros (b' & Hb' & Hp). congruence.
    - split; [discriminate|]. intros (b' & Hb' & _). discriminate. }
  assert (Hvl : existsb memberNotPlain vl = false <->
                Forall (fun v => hasValueType v = true /\
                                 (isPrimitive v = true \/ isContainer v = true)) vl).
  { rewrite existsb_false_Forall. apply Forall_proper; [|reflexivity].
    intros v. apply memberNotPlain_false. }
  destruct n as [|n]; simpl.
  - destruct (existsb memberNotPlain vl) eqn:Hm.
    + split; [discriminate|]. intros H; inversion H as [vl' df' Hv Hd]; subst.
      apply Hvl in Hv. discriminate.
    + destruct (existsb _ df) eqn:Hd; simpl.
      * split; [discriminate|]. intros H; inversion H as [vl' df' Hv Hd']; subst.
        apply Hdf in Hd'. discriminate.
      * split; [|reflexivity]. intros _. constructor; [by apply Hvl | by apply Hdf].
  - split; [discriminate|]. intros H; inversion H.
Qed.

End Helpers.

(** ** Instances *)

(** The end of the function with [p] allocated by [new]: the leak of [p]
    is reported at the closing brace. *)
Lemma ret_reported_removed_witness :
  let vi := tracking 1 (allocated (-1) new_tok) in
  let d := LeakError (Some brace_tok) "p"%string (-1) in
  d ∈ (ret Examples.env outer_site true vi).2
  /\ exists k info,
       alloctype vi !! k = Some info
       /\ d ∈ (retOne Examples.env outer_site true vi k info).1
       /\ alloctype (ret Examples.env outer_site true vi).1 !! k = None.
Proof.
  assert (H : LeakError (Some brace_tok) "p"%string (-1)
              ∈ (ret Examples.env outer_site true (tracking 1 (allocated (-1) new_tok))).2)
    by (vm_compute; left).
  exact (conj H (ret_reported_removed Examples.env outer_site true _ _ H)).
Defined.

Lemma ret_reports_leak_witness :
  let vi := tracking 1 (allocated (-1) new_tok) in
  alloctype vi !! 1 = Some (allocated (-1) new_tok)
  /\ getVariableFromVarId outer_site 1 = Some (mkVar "p"%string false true)
  /\ possibleUsage vi !! 1 = None
  /\ LeakError (Some brace_tok) "p"%string (-1) ∈ (ret Examples.env outer_site true vi).2
  /\ alloctype (ret Examples.env outer_site true vi).1 !! 1 = None.
Proof.
  assert (H1 : alloctype (tracking 1 (allocated (-1) new_tok)) !! 1
               = Some (allocated (-1) new_tok)) by reflexivity.
  assert (H3 : true = false -> 1 ∉ conditionalAlloc (tracking 1 (allocated (-1) new_tok)))
    by (intros H; discriminate H).
  assert (H4 : 1 ∉ referenced (tracking 1 (allocated (-1) new_tok)))
    by (refine (proj1 (bool_decide_eq_false _) _); vm_compute; reflexivity).
  assert (H5 : getVariableFromVarId outer_site 1 = Some (mkVar "p"%string false true)) by reflexivity.
  assert (H6 : true = true -> tokIsScopeEnd (mkVar "p"%string false true) = true)
    by (intros _; reflexivity).
  assert (H8 : used outer_site 1 <> PTR) by discriminate.
  assert (H10 : possibleUsage (tracking 1 (allocated (-1) new_tok)) !! 1 = None)
    by reflexivity.
  refine (conj H1 (conj H5 (conj H10 _))).
  exact (ret_reports_leak Examples.env outer_site true
           (tracking 1 (allocated (-1) new_tok)) 1 (allocated (-1) new_tok)
           (mkVar "p"%string false true) H1 eq_refl H3 H4 H5 H6 eq_refl H8 eq_refl H10).
Defined.

Lemma ret_diagnostic_kinds_witness :
  let vi := tracking 1 (allocated (-1) new_tok) in
  LeakError (Some brace_tok) "p"%string (-1) ∈ (ret Examples.env outer_site true vi).2
  /\ exists k info,
       alloctype vi !! k = Some info
       /\ managed info = false /\ -1 = type info /\ possibleUsage vi !! k = None.
Proof.
  assert (H : LeakError (Some brace_tok) "p"%string (-1)
              ∈ (ret Examples.env outer_site true (tracking 1 (allocated (-1) new_tok))).2)
    by (vm_compute; left).
  exact (conj H (ret_diagnostic_kinds Examples.env outer_site true _ _ H)).
Defined.

(** [if (c) { p = new int; }]: [p] is tracked in the copy of the if-block
    only. *)
Lemma merge_conditional_only_if_witness :
  let v1 := tracking 1 (allocated (-1) new_tok) in
  1 ∈ conditionalAlloc (Merge.merge ∅ VarInfo.empty v1 VarInfo.empty)
  /\ alloctype VarInfo.empty !! 1 = None
  /\ exists a,
       alloctype (Merge.merge ∅ VarInfo.empty v1 VarInfo.empty) !! 1 = Some a
       /\ managed a && bool_decide (1 ∈ (∅ : gset Z)) = false
       /\ ((alloctype v1 !! 1 = Some a /\ alloctype VarInfo.empty !! 1 = None)
           \/ (alloctype v1 !! 1 = None /\ alloctype VarInfo.empty !! 1 = Some a)).
Proof.
  assert (H : 1 ∈ conditionalAlloc
                    (Merge.merge ∅ VarInfo.empty (tracking 1 (allocated (-1) new_tok))
                       VarInfo.empty))
    by (refine (proj1 (bool_decide_eq_true _) _); vm_compute; reflexivity).
  exact (conj H (merge_conditional_only_if ∅ VarInfo.empty
                   (tracking 1 (allocated (-1) new_tok)) VarInfo.empty 1 H)).
Defined.

(** [p = new int; goto x; delete p;] *)
Lemma checkScope_stops_at_goto_witness :
  let w := doAssign Examples.env ∅ (mkAssignment p_tok None false true (RhsNew new_tok false) false)
             (mkWalk VarInfo.empty ∅ []) in
  (1 <= 1000)%nat
  /\ walkWith (checkStmt Examples.env 1000 (conditionalAlloc VarInfo.empty) 1) [assign_new]
       (mkWalk VarInfo.empty ∅ []) = Next w
  /\ checkScope Examples.env 1000 brace_tok ([assign_new] ++ SGoto :: [delete_p]) outer_site
       VarInfo.empty ∅ 0 []
     = Returned false VarInfo.empty (written w).
Proof.
  assert (H1 : (1 <= 1000)%nat) by lia.
  assert (H2 : walkWith (checkStmt Examples.env 1000 (conditionalAlloc VarInfo.empty) 1)
                 [assign_new] (mkWalk VarInfo.empty ∅ [])
               = Next (doAssign Examples.env ∅
                         (mkAssignment p_tok None false true (RhsNew new_tok false) false)
                         (mkWalk VarInfo.empty ∅ []))) by reflexivity.
  refine (conj H1 (conj H2 _)).
  exact (checkScope_stops_at_goto Examples.env 1000 brace_tok [assign_new] [delete_p] SGoto
           outer_site VarInfo.empty ∅ 0 [] _ (or_introl eq_refl) H1 H2).
Defined.

(** [p = new int; return p;] *)
Lemma checkScope_return_last_witness :
  let w := doAssign Examples.env ∅ (mkAssignment p_tok None false true (RhsNew new_tok false) false)
             (mkWalk VarInfo.empty ∅ []) in
  (1 <= 1000)%nat
  /\ walkWith (checkStmt Examples.env 1000 (conditionalAlloc VarInfo.empty) 1) [assign_new]
       (mkWalk VarInfo.empty ∅ []) = Next w
  /\ checkScope Examples.env 1000 brace_tok
       ([assign_new] ++ [SReturn inner_site; STokens [p_expr]]) outer_site VarInfo.empty ∅ 0 []
     = Returned true VarInfo.empty
         (written w ++ (ret Examples.env inner_site false (varInfo w)).2 ++ [] ++ []).
Proof.
  assert (H1 : (1 <= 1000)%nat) by lia.
  assert (H2 : walkWith (checkStmt Examples.env 1000 (conditionalAlloc VarInfo.empty) 1)
                 [assign_new] (mkWalk VarInfo.empty ∅ [])
               = Next (doAssign Examples.env ∅
                         (mkAssignment p_tok None false true (RhsNew new_tok false) false)
                         (mkWalk VarInfo.empty ∅ []))) by reflexivity.
  refine (conj H1 (conj H2 _)).
  exact (proj1 (checkScope_return_last Examples.env 1000 brace_tok [assign_new] inner_site
                  outer_site [p_expr] VarInfo.empty ∅ 0 [] _ H1 H2)).
Defined.

(** [if (0) { p = new int; }] against [if (0) { }]. *)
Lemma checkStmt_skips_dead_if_block_witness :
  let h := mkIfHead (Some 0) no_effect no_effect
             (Condition.CNode (Condition.mkNode "0"%string false ""%string None)) in
  knownIntValue h = Some 0
  /\ checkStmt Examples.env 1000 ∅ 1 (SIf h brace_tok [assign_new] inner_site NoElse)
       (mkWalk VarInfo.empty ∅ [])
     = checkStmt Examples.env 1000 ∅ 1 (SIf h brace_tok [] inner_site NoElse)
         (mkWalk VarInfo.empty ∅ []).
Proof.
  refine (conj eq_refl _).
  exact (checkStmt_skips_dead_if_block Examples.env 1000 ∅ 1
           (mkIfHead (Some 0) no_effect no_effect
              (Condition.CNode (Condition.mkNode "0"%string false ""%string None)))
           brace_tok brace_tok [assign_new] [] inner_site inner_site NoElse
           (mkWalk VarInfo.empty ∅ []) eq_refl).
Defined.

(** [p = 0;] with [p] allocated by [new]. *)
Lemma doAssign_reassigned_witness :
  let a := mkAssignment p_tok None false true RhsOther false in
  let w := mkWalk (tracking 1 (allocated (-1) new_tok)) ∅ [] in
  alloctype (varInfo w) !! varId (asVarTok a) = Some (allocated (-1) new_tok)
  /\ possibleUsage (varInfo w) !! varId (asVarTok a) = None
  /\ written (doAssign Examples.env ∅ a w)
     = written w
       ++ (if bool_decide (1 ∈ (∅ : gset Z)) then []
           else [LeakError (Some p_tok) "p"%string (-1)])
       ++ [].
Proof.
  assert (H1 : alloctype (tracking 1 (allocated (-1) new_tok)) !! 1
               = Some (allocated (-1) new_tok)) by reflexivity.
  assert (H2 : possibleUsage (tracking 1 (allocated (-1) new_tok)) !! 1 = None)
    by reflexivity.
  refine (conj H1 (conj H2 _)).
  assert (H3 : forall ids : list Z, @None (list Z) = Some ids -> 1 ∈ ids)
    by (intros ids Hids; discriminate Hids).
  exact (proj2 (doAssign_reassigned Examples.env ∅
                  (mkAssignment p_tok None false true RhsOther false)
                  (mkWalk (tracking 1 (allocated (-1) new_tok)) ∅ [])
                  (allocated (-1) new_tok) eq_refl H1 eq_refl H2 H3)).
Defined.

(** [p = new int; delete[] p;] *)
Lemma new_then_delete_witness :
  let a := mkAssignment p_tok None false true (RhsNew new_tok false) false in
  let d := mkDelete delete_tok false true false p_tok false in
  let w1 := doAssign Examples.env ∅ a (mkWalk VarInfo.empty ∅ []) in
  let w2 := doDelete Examples.env d w1 in
  varId (asVarTok a) <> 0
  /\ getAllocFuncInfo Examples.env (delTok d) = None
  /\ written w2 = written w1 ++ [MismatchError (Some p_tok) (Some new_tok) "p"%string]
  /\ alloctype (varInfo w2) !! 1 = None.
Proof.
  assert (H1 : varId p_tok <> 0) by discriminate.
  assert (H2 : getAllocFuncInfo Examples.env delete_tok = None) by reflexivity.
  refine (conj H1 (conj H2 _)).
  exact (new_then_delete Examples.env ∅
           (mkAssignment p_tok None false true (RhsNew new_tok false) false)
           (mkDelete delete_tok false true false p_tok false)
           (mkWalk VarInfo.empty ∅ []) new_tok false
           eq_refl eq_refl eq_refl H1 eq_refl eq_refl eq_refl H2).
Defined.

(** The tree of [p = q + sizeof(p)]. *)
Lemma isVarUsedInTree_sound_witness :
  let leaf v s := ANode v s ANull ANull in
  let tree := ANode 0 "="%string (leaf 1 "p"%string)
                (ANode 0 "+"%string (leaf 2 "q"%string) (ANode 0 "("%string (leaf 0 "sizeof"%string) (leaf 1 "p"%string))) in
  isVarUsedInTree tree 2 = true /\ occursIn tree 2 = true.
Proof.
  refine (conj eq_refl _).
  exact (isVarUsedInTree_sound
           (ANode 0 "="%string (ANode 1 "p"%string ANull ANull)
              (ANode 0 "+"%string (ANode 2 "q"%string ANull ANull)
                 (ANode 0 "("%string (ANode 0 "sizeof"%string ANull ANull) (ANode 1 "p"%string ANull ANull))))
           2 eq_refl).
Defined.

(** The tree of [p = q + 1]. *)
Lemma isVarUsedInTree_exact_witness :
  let leaf v s := ANode v s ANull ANull in
  let tree := ANode 0 "="%string (leaf 1 "p"%string) (ANode 0 "+"%string (leaf 2 "q"%string) (leaf 0 "1"%string)) in
  hasSizeofCall tree = false /\ isVarUsedInTree tree 2 = occursIn tree 2.
Proof.
  refine (conj eq_refl _).
  exact (isVarUsedInTree_exact
           (ANode 0 "="%string (ANode 1 "p"%string ANull ANull)
              (ANode 0 "+"%string (ANode 2 "q"%string ANull ANull) (ANode 0 "1"%string ANull ANull)))
           2 eq_refl).
Defined.

(** The tree of [sizeof(p)]. *)
Lemma isVarUsedInTree_sizeof_witness :
  0 <> 1
  /\ isVarUsedInTree (ANode 0 "("%string (ANode 0 "sizeof"%string ANull ANull) (ANode 1 "p"%string ANull ANull)) 1
     = false.
Proof.
  assert (H : 0 <> 1) by discriminate.
  exact (conj H (isVarUsedInTree_sizeof 0 0 ANull ANull (ANode 1 "p"%string ANull ANull) 1 H)).
Defined.

(** ** [functionCall] *)

Section FunctionCallInd.

Context (P : ExprToken -> Prop) (Q : FunctionCall -> Prop).
Context (HT : forall t d a s r call,
           match call with Some fc => Q fc | None => True end ->
           P (mkExprToken t d a s r call)).
Context (HF : forall n li sl args,
           Forall (fun a => match a with
                            | ArgVariable _ _ _ _ inside => P inside
                            | ArgSmartPointer _ => True
                            | ArgExpression toks => Forall P toks
                            end) args ->
           Q (mkFunctionCall n li sl args)).

Lemma FunctionCall_nested_ind : forall fc, Q fc.
Proof.
  fix IH 1. intros [n li sl args]. apply HF.
  induction args as [|a args IHargs]; constructor; [|exact IHargs].
  destruct a as [ia k0 isA ptr inside | sp | toks].
  - destruct inside as [t d a s r [fc|]]; apply HT; [apply IH | exact I].
  - exact I.
  - induction toks as [|tok toks IHtoks]; constructor; [|exact IHtoks].
    destruct tok as [t d a s r [fc|]]; apply HT; [apply IH | exact I].
Qed.

Lemma ExprToken_nested_ind : forall tok, P tok.
Proof.
  intros [t d a s r [fc|]]; apply HT; [apply FunctionCall_nested_ind | exact I].
Qed.

End FunctionCallInd.

Section FunctionCall.

Context (env : Env).

Lemma changeAllocStatus_releaseOnly (vi : VarInfo.t) (allocation : AllocInfo)
    (tok arg_ : Token) :
  releaseOnly (changeAllocStatus env vi allocation tok arg_).2.
Proof.
  unfold releaseOnly, changeAllocStatus.
  destruct (alloctype vi !! varId arg_) as [var|];
    repeat match goal with
           | |- context [if ?b then _ else _] => destruct b
           end;
    simpl; repeat constructor.
Qed.

Lemma useVariable_releaseOnly (tok : Token) (d a s : bool) (r : option Z) (vi : VarInfo.t) :
  releaseOnly (useVariable tok d a s r vi).2.
Proof.
  unfold releaseOnly, useVariable.
  repeat match goal with
         | |- context [if ?b then _ else _] => destruct b
         | |- context [match ?x with Some _ => _ | None => _ end] => destruct x
         end;
    simpl; repeat constructor.
Qed.

Lemma andThen_releaseOnly (r : VarInfo.t * list Diag) (f : Effect) :
  releaseOnly r.2 -> (forall vi, releaseOnly (f vi).2) -> releaseOnly (andThen r f).2.
Proof.
  intros Hr Hf. unfold andThen, releaseOnly. simpl. apply Forall_app. split; [exact Hr | apply Hf].
Qed.

Lemma callVariable_releaseOnly (tokName : Token) (li : bool) (allocation : AllocInfo)
    (af : option AllocFunc) (argNr : Z) (ia k0 isA : bool) (ptr : option Z) (argTok : Token)
    (insideExpression : Effect) (vi : VarInfo.t) :
  getAllocFuncInfo env tokName = None ->
  (forall vi', releaseOnly (insideExpression vi').2) ->
  releaseOnly (callVariable env tokName li allocation af argNr ia k0 isA ptr argTok
                 insideExpression vi).2.
Proof.
  intros Hna Hin. unfold callVariable. rewrite Hna.
  destruct (_ && _); [|constructor].
  destruct li; [apply Hin | apply changeAllocStatus_releaseOnly].
Qed.

Lemma visitWith_releaseOnly (check : ExprToken -> Effect) (toks : list ExprToken)
    (r : VarInfo.t * list Diag) :
  Forall (fun tok => forall vi, releaseOnly (check tok vi).2) toks ->
  releaseOnly r.2 -> releaseOnly (visitWith check toks r).2.
Proof.
  intros H. revert r. induction H as [|tok toks Ht _ IH]; intros r Hr; simpl; [exact Hr|].
  apply IH. by apply andThen_releaseOnly.
Qed.

(** X27.  When no function called in it is an allocator, a call writes only
    diagnostics about released memory: a double free, a mismatch or the use
    of deallocated memory; never a leak. *)
Theorem functionCall_release_diagnostics (fc : FunctionCall) (allocation : AllocInfo)
    (af : option AllocFunc) (vi : VarInfo.t) :
  Forall (fun t => getAllocFuncInfo env t = None) (calledFunctions fc) ->
  Forall (fun d => isReleaseDiag d = true) (functionCall env fc allocation af vi).2.
Proof.
  revert fc allocation af vi.
  apply (FunctionCall_nested_ind
           (fun tok => Forall (fun t => getAllocFuncInfo env t = None) (calledInToken tok) ->
                       forall b vi, releaseOnly (checkTokenInsideExpression env tok b vi).2)
           (fun fc => forall allocation af vi,
                Forall (fun t => getAllocFuncInfo env t = None) (calledFunctions fc) ->
                releaseOnly (functionCall env fc allocation af vi).2)).
  - intros t d a s r call H Hcalls b vi. simpl. destruct call as [fc|]; [|apply useVariable_releaseOnly].
    destruct b; [apply useVariable_releaseOnly|].
    apply andThen_releaseOnly; [apply useVariable_releaseOnly|].
    intros vi'. by apply H.
  - intros n li sl args IH allocation af vi Hcalls. simpl in Hcalls. apply Forall_cons in Hcalls as [Hn Hcalls].
    simpl. destruct (bool_decide _); [constructor|]. destruct sl; [constructor|].
    assert (Hr : releaseOnly (vi, @nil Diag).2) by constructor.
    generalize dependent (vi, @nil Diag). generalize 1. clear vi.
    induction args as [|a args IHargs]; intros argNr r Hr; simpl; [exact Hr|].
    apply Forall_cons in IH as [Ha IH]. simpl in Hcalls.
    apply Forall_app in Hcalls as [Hca Hcalls].
    specialize (IHargs IH Hcalls).
    destruct a as [ia k0 isA ptr inside | [sp|] | toks].
    + apply IHargs. apply andThen_releaseOnly; [exact Hr|].
      intros vi'. apply callVariable_releaseOnly; [exact Hn|].
      intros vi''. by apply Ha.
    + apply IHargs. apply andThen_releaseOnly; [exact Hr|].
      intros vi'. apply changeAllocStatus_releaseOnly.
    + by apply IHargs.
    + apply IHargs. apply visitWith_releaseOnly; [|exact Hr].
      simpl in Hca. clear -Ha Hca.
      induction Ha as [|tok toks Ht _ IHt]; [constructor|].
      simpl in Hca. apply Forall_app in Hca as [H1 H2].
      constructor; [|by apply IHt]. intros vi. by apply Ht.
Qed.

Lemma callArgsWith_skips (check : ExprToken -> bool -> Effect) (tokName : Token) (li : bool)
    (allocation : AllocInfo) (af : option AllocFunc) (pre post : list Arg) (argNr : Z)
    (r : VarInfo.t * list Diag) :
  callArgsWith check env tokName li allocation af (pre ++ ArgSmartPointer None :: post) argNr r
  = callArgsWith check env tokName li allocation af (pre ++ post) argNr r.
Proof.
  revert argNr r. induction pre as [|a pre IH]; intros argNr r; [reflexivity|].
  simpl. destruct a as [ia k0 isA ptr inside | [sp|] | toks]; apply IH.
Qed.

(** X28.  A smart pointer argument that does not have the form of a smart
    pointer constructed from a variable is not counted: the call is
    treated as if the argument were not there, so that the arguments after
    it are numbered one lower. *)
Theorem functionCall_skips_unmatched_smart_pointer (tokName : Token) (li sl : bool)
    (pre post : list Arg) (allocation : AllocInfo) (af : option AllocFunc) (vi : VarInfo.t) :
  functionCall env (mkFunctionCall tokName li sl (pre ++ ArgSmartPointer None :: post))
    allocation af vi
  = functionCall env (mkFunctionCall tokName li sl (pre ++ post)) allocation af vi.
Proof.
  simpl. by rewrite callArgsWith_skips.
Qed.

End FunctionCall.

Section CallStatements.

Context (env : Env).

Lemma andThen_start (vi : VarInfo.t) (f : Effect) : andThen (vi, []) f = f vi.
Proof. unfold andThen. simpl. by destruct (f vi). Qed.

(** The call of a function with one variable argument that is not a null
    constant, when the function is not a reallocator, not string-like, not
    an allocator and not to be ignored. *)
Lemma functionCall_one_variable (tokName : Token) (ia k0 isA : bool) (ptr : option Z)
    (p : ExprToken) (allocation : AllocInfo) (af : option AllocFunc) (vi : VarInfo.t) :
  negb ia && k0 = false ->
  getReallocFuncInfo env tokName = None ->
  getAllocFuncInfo env tokName = None ->
  match af with Some f => arg f = 1 | None => True end ->
  functionCall env (mkFunctionCall tokName false false [ArgVariable ia k0 isA ptr p])
    allocation af vi
  = changeAllocStatus env vi
      (match getDeallocFuncInfo env tokName with
       | Some f => if groupId f =? 0 then allocation
                   else newAllocInfo (groupId f) DEALLOC (Some tokName)
       | None => allocation
       end) tokName (etTok p).
Proof.
  intros Hnull Hr Ha Haf. simpl. rewrite Hr.
  rewrite (bool_decide_eq_false_2 (is_Some None)) by (by intros [? ?]).
  rewrite andThen_start. unfold callVariable. rewrite Hnull, Ha. simpl.
  assert (Hnr : match af with Some f => arg f =? 1 | None => true end = true).
  { destruct af as [f|]; [|reflexivity]. by apply Z.eqb_eq. }
  rewrite Hnr. destruct (getDeallocFuncInfo env tokName) as [f|]; reflexivity.
Qed.

(** X29.  Freeing twice: two call statements [f(p);] and [g(p);] of
    library deallocators, each with a non-zero family, releasing its first
    argument, and neither an allocator, a reallocator, a function to be
    ignored nor followed by a string-like token, with the same variable,
    not a known null constant, as the only argument, and that variable
    Allocated in the family of [f]: the first call writes nothing, the
    second writes exactly one double free, at the second call with the
    first call as the earlier release, and the variable stays tracked as
    Deallocated. *)
Theorem free_twice (limit : nat) (ca : gset Z) (rc : nat) (tok1 tok2 : Token)
    (ia1 k01 isA1 ia2 k02 isA2 : bool) (ptr1 ptr2 : option Z) (p1 p2 : ExprToken)
    (f1 f2 : AllocFunc) (nr1 nr2 : NoReturn) (var : AllocInfo) (w : Walk) :
  negb ia1 && k01 = false ->
  negb ia2 && k02 = false ->
  getReallocFuncInfo env tok1 = None -> getReallocFuncInfo env tok2 = None ->
  getAllocFuncInfo env tok1 = None -> getAllocFuncInfo env tok2 = None ->
  getDeallocFuncInfo env tok1 = Some f1 -> getDeallocFuncInfo env tok2 = Some f2 ->
  groupId f1 <> 0 -> groupId f2 <> 0 ->
  arg f1 = 1 -> arg f2 = 1 ->
  varId (etTok p2) = varId (etTok p1) ->
  alloctype (varInfo w) !! varId (etTok p1) = Some var ->
  status var = ALLOC ->
  type var = groupId f1 ->
  let c1 := SCall (callStmt env (mkFunctionCall tok1 false false
                                   [ArgVariable ia1 k01 isA1 ptr1 p1]) nr1) in
  let c2 := SCall (callStmt env (mkFunctionCall tok2 false false
                                   [ArgVariable ia2 k02 isA2 ptr2 p2]) nr2) in
  exists w1 w2,
    walkWith (checkStmt env limit ca rc) [c1] w = Next w1
    /\ written w1 = written w
    /\ walkWith (checkStmt env limit ca rc) [c1; c2] w = Next w2
    /\ written w2
       = written w ++ [DoubleFreeError (Some tok2) (Some tok1) (str (etTok p2)) (groupId f2)]
    /\ status <$> alloctype (varInfo w2) !! varId (etTok p1) = Some DEALLOC.
Proof.
  intros Hnull1 Hnull2 Hr1 Hr2 Ha1 Ha2 Hd1 Hd2 Hg1 Hg2 Harg1 Harg2 Hv Hvar Hst Hty c1 c2.
  assert (Hcall : forall tokName ia k0 isA ptr p f nr w0,
            negb ia && k0 = false -> getReallocFuncInfo env tokName = None ->
            getAllocFuncInfo env tokName = None -> getDeallocFuncInfo env tokName = Some f ->
            groupId f <> 0 -> arg f = 1 ->
            doCall env (callStmt env (mkFunctionCall tokName false false
                                        [ArgVariable ia k0 isA ptr p]) nr) w0
            = emit w0 (changeAllocStatus env (varInfo w0)
                         (newAllocInfo (groupId f) DEALLOC (Some tokName))
                         tokName (etTok p))).
  { intros tokName ia k0 isA ptr p f nr w0 Hnull Hr Ha Hd Hg Harg.
    unfold doCall, callStmt. cbn [callTok callEffect callNoReturn fcName].
    rewrite Hd, functionCall_one_variable, Hd by (try rewrite Hd; done).
    rewrite (proj2 (Z.eqb_neq _ _) Hg). reflexivity. }
  assert (Hna : forall tokName ty, getAllocFuncInfo env tokName = None ->
            isAlsoAllocating env (newAllocInfo ty DEALLOC (Some tokName)) = false).
  { intros tokName ty Ha. unfold isAlsoAllocating. simpl. rewrite Ha.
    apply bool_decide_eq_false_2. by intros [? ?]. }
  assert (Hm : managed var = false) by (unfold managed; by rewrite Hst).
  destruct (changeAllocStatus_takes_event env (varInfo w)
              (newAllocInfo (groupId f1) DEALLOC (Some tok1)) tok1 (etTok p1) var
              Hvar ltac:(discriminate) (Hna tok1 _ Ha1) Hm (or_intror Hty)) as [Hl1 Hrec1].
  set (r1 := changeAllocStatus env (varInfo w)
               (newAllocInfo (groupId f1) DEALLOC (Some tok1)) tok1 (etTok p1)) in *.
  assert (H2 : changeAllocStatus env r1.1 (newAllocInfo (groupId f2) DEALLOC (Some tok2))
                 tok2 (etTok p2)
               = (with_alloctype
                    (<[varId (etTok p2) :=
                         mkAllocInfo DEALLOC (groupId f1) (reallocedFromType var) (Some tok1)]>
                       (alloctype r1.1)) r1.1,
                  [DoubleFreeError (Some tok2) (Some tok1) (str (etTok p2)) (groupId f2)])).
  { unfold changeAllocStatus. rewrite Hv, Hrec1, (Hna tok2 _ Ha2). reflexivity. }
  exists (emit w r1),
         (emit (emit w r1)
            (changeAllocStatus env r1.1 (newAllocInfo (groupId f2) DEALLOC (Some tok2))
               tok2 (etTok p2))).
  split; [subst c1; simpl; by rewrite (Hcall tok1 _ _ _ _ _ f1 nr1)|].
  split; [unfold emit; cbn [written]; by rewrite Hl1, app_nil_r|].
  split; [subst c1 c2; simpl;
          by rewrite (Hcall tok1 _ _ _ _ _ f1 nr1), (Hcall tok2 _ _ _ _ _ f2 nr2)|].
  rewrite H2. unfold emit. cbn [written varInfo fst snd]. rewrite Hl1, app_nil_r.
  split; [reflexivity|]. cbn [with_alloctype alloctype]. by rewrite <- Hv, lookup_insert_eq.
Qed.

(** X30.  [functionCall] at a call statement of a function for which the
    library has no allocation, deallocation or reallocation information and
    which is not to be ignored, with a variable as its only argument,
    writes nothing.  When the token after the name is string-like, or the
    argument is a known null constant of which no address is taken, the
    call is skipped and [functionCall] leaves the state as it is.
    Otherwise the variable is, after [functionCall], either not tracked or
    has the call as a possible usage, so that [leakIfAllocated] does not
    report it as a leak. *)
Theorem unknown_call_suppresses_leak (tokName : Token) (stringLike ia k0 isA : bool)
    (ptr : option Z) (p : ExprToken) (nr : NoReturn) (vi : VarInfo.t) :
  getReallocFuncInfo env tokName = None ->
  getAllocFuncInfo env tokName = None ->
  getDeallocFuncInfo env tokName = None ->
  let fc := mkFunctionCall tokName false stringLike [ArgVariable ia k0 isA ptr p] in
  let r := callEffect (callStmt env fc nr) vi in
  r.2 = []
  /\ if stringLike || (negb ia && k0) then r.1 = vi
     else (alloctype r.1 !! varId (etTok p) = None
           \/ possibleUsage r.1 !! varId (etTok p) = Some (Some tokName, USED))
          /\ count isLeak (leakIfAllocated env (etTok p) r.1) = 0%nat.
Proof.
  intros Hr Ha Hd fc r.
  assert (Hskip : stringLike || (negb ia && k0) = true -> r = (vi, [])).
  { intros Hs. subst r fc. unfold callStmt. cbn [callEffect fcName]. simpl. rewrite Hr.
    rewrite (bool_decide_eq_false_2 (is_Some None)) by (by intros [? ?]).
    destruct stringLike; [reflexivity|]. simpl in Hs.
    rewrite andThen_start. unfold callVariable. by rewrite Hs. }
  destruct (stringLike || (negb ia && k0)) eqn:Hs.
  { by rewrite (Hskip eq_refl). }
  apply orb_false_iff in Hs as [-> Hnull].
  assert (Hcall : r = changeAllocStatus env vi (newAllocInfo 0 NOALLOC (Some tokName))
                        tokName (etTok p)).
  { subst r fc. unfold callStmt. cbn [callEffect fcName].
    rewrite Hd, functionCall_one_variable, Hd by done.
    unfold callAllocation. rewrite Hd. reflexivity. }
  assert (H : r.2 = []
              /\ (alloctype r.1 !! varId (etTok p) = None
                  \/ possibleUsage r.1 !! varId (etTok p) = Some (Some tokName, USED))).
  { rewrite Hcall. unfold changeAllocStatus, isAlsoAllocating. simpl. rewrite Ha.
    rewrite (bool_decide_eq_false_2 (is_Some None)) by (by intros [? ?]).
    destruct (alloctype vi !! varId (etTok p)) as [var|] eqn:Hv; simpl.
    - destruct (bool_decide (status var = DEALLOC) && prevIsAddressOf (etTok p)); simpl.
      + split; [reflexivity|]. left. by rewrite lookup_delete_eq.
      + split; [reflexivity|]. right. by rewrite lookup_insert_eq.
    - split; [reflexivity|]. by left. }
  destruct H as [H1 H2]. split; [exact H1|]. split; [exact H2|].
  unfold leakIfAllocated. destruct H2 as [H2|H2]; rewrite H2; [reflexivity|].
  destruct (alloctype r.1 !! varId (etTok p)) as [var|]; [|reflexivity].
  destruct (decide (status var = ALLOC)); [|reflexivity].
  unfold configurationInfo.
  match goal with |- context [if ?b then _ else _] => destruct b end; reflexivity.
Qed.

End CallStatements.

(** [free(get(p))] with [p] allocated by [malloc]. *)
Lemma functionCall_release_diagnostics_witness :
  Forall (fun t => getAllocFuncInfo Examples.env t = None) (calledFunctions free_get_p)
  /\ Forall (fun d => isReleaseDiag d = true)
       (functionCall Examples.env free_get_p (callAllocation Examples.env free_tok)
          (getDeallocFuncInfo Examples.env free_tok) (tracking 1 (allocated 1 malloc_tok))).2.
Proof.
  assert (H : Forall (fun t => getAllocFuncInfo Examples.env t = None)
                (calledFunctions free_get_p))
    by (repeat constructor).
  exact (conj H (functionCall_release_diagnostics Examples.env free_get_p _ _ _ H)).
Defined.

(** [free(p); free(p);] with [p] allocated by [malloc]: two calls, each
    with its own tokens. *)
Lemma free_twice_witness :
  let w := mkWalk (tracking 1 (allocated 1 malloc_tok)) ∅ [] in
  let free2_tok := tok 32 "free"%string 0 in
  let p2_expr := mkExprToken (tok 33 "p"%string 1) false false false None None in
  let c1 := SCall (callStmt Examples.env free_p Returns) in
  let c2 := SCall (callStmt Examples.env
                     (mkFunctionCall free2_tok false false
                        [ArgVariable false false false (Some 1) p2_expr]) Returns) in
  getDeallocFuncInfo Examples.env free_tok = Some (mkAllocFunc 1 1 0)
  /\ getDeallocFuncInfo Examples.env free2_tok = Some (mkAllocFunc 1 1 0)
  /\ alloctype (varInfo w) !! varId (etTok p_expr) = Some (allocated 1 malloc_tok)
  /\ exists w1 w2,
       walkWith (checkStmt Examples.env 1000 ∅ 1) [c1] w = Next w1
       /\ written w1 = written w
       /\ walkWith (checkStmt Examples.env 1000 ∅ 1) [c1; c2] w = Next w2
       /\ written w2
          = written w ++ [DoubleFreeError (Some free2_tok) (Some free_tok) "p"%string 1]
       /\ status <$> alloctype (varInfo w2) !! varId (etTok p_expr) = Some DEALLOC.
Proof.
  assert (H1 : getDeallocFuncInfo Examples.env free_tok = Some (mkAllocFunc 1 1 0))
    by reflexivity.
  assert (H1' : getDeallocFuncInfo Examples.env (tok 32 "free"%string 0)
                = Some (mkAllocFunc 1 1 0)) by reflexivity.
  assert (H2 : alloctype (tracking 1 (allocated 1 malloc_tok)) !! varId (etTok p_expr)
               = Some (allocated 1 malloc_tok)) by reflexivity.
  assert (H3 : groupId (mkAllocFunc 1 1 0) <> 0) by discriminate.
  refine (conj H1 (conj H1' (conj H2 _))).
  exact (free_twice Examples.env 1000 ∅ 1 free_tok (tok 32 "free"%string 0)
           false false false false false false (Some 1) (Some 1) p_expr
           (mkExprToken (tok 33 "p"%string 1) false false false None None)
           (mkAllocFunc 1 1 0) (mkAllocFunc 1 1 0) Returns Returns (allocated 1 malloc_tok)
           (mkWalk (tracking 1 (allocated 1 malloc_tok)) ∅ [])
           eq_refl eq_refl eq_refl eq_refl eq_refl eq_refl H1 H1' H3 H3 eq_refl eq_refl
           eq_refl H2 eq_refl eq_refl).
Defined.

(** [use(p);] with [p] allocated by [malloc]. *)
Lemma unknown_call_suppresses_leak_witness :
  let r := callEffect (callStmt Examples.env use_p Returns)
             (tracking 1 (allocated 1 malloc_tok)) in
  getDeallocFuncInfo Examples.env use_tok = None
  /\ r.2 = []
  /\ count isLeak (leakIfAllocated Examples.env p_tok r.1) = 0%nat.
Proof.
  assert (H : getDeallocFuncInfo Examples.env use_tok = None) by reflexivity.
  refine (conj H _).
  destruct (unknown_call_suppresses_leak Examples.env use_tok false false false false (Some 1)
              p_expr Returns (tracking 1 (allocated 1 malloc_tok)) eq_refl eq_refl H)
    as (H1 & _ & H3).
  exact (conj H1 H3).
Defined.
